(** * MIME content decoding of [examples/fetch.ts]

    A shallow embedding of the helper functions of the IMAP fetch example
    ([decodeBase64], [decodeQuotedPrintable], [decodeBody], [getContentInfo],
    [parseMultipartMessage] and the two body-rendering paths of [main]),
    together with the parts of the JavaScript platform they call
    (strings of UTF-16 code units, [split]/[trim]/[includes], the regular
    expressions of the file, [atob], [TextDecoder]). *)

From Stdlib Require Import NArith List Bool Lia String Ascii.
From stdpp Require Import base option list countable gmap.

Local Open Scope N_scope.

(** ** JavaScript strings

    A JavaScript string is a sequence of UTF-16 code units. *)

Abbreviation jsstring := (list N).

Module Lit.

(** Reader for string literals: the escapes [\r], [\n], [\t], [\\],
    [\xHH] and [\uHHHH] of JavaScript are understood, so that the literals
    of the source can be written as they are. *)

Inductive state := Plain | Escape | Hex (todo : nat) (acc : N).

Definition hexval (c : N) : N :=
  if (48 <=? c) && (c <=? 57) then c - 48
  else if (65 <=? c) && (c <=? 70) then c - 55
  else if (97 <=? c) && (c <=? 102) then c - 87
  else 0.

Fixpoint read (st : state) (s : string) : jsstring :=
  match s with
  | EmptyString => []
  | String a rest =>
      let c := N_of_ascii a in
      match st with
      | Plain => if c =? 92 then read Escape rest else c :: read Plain rest
      | Escape =>
          if c =? 114 then 13 :: read Plain rest
          else if c =? 110 then 10 :: read Plain rest
          else if c =? 116 then 9 :: read Plain rest
          else if c =? 120 then read (Hex 2 0) rest
          else if c =? 117 then read (Hex 4 0) rest
          else c :: read Plain rest
      | Hex todo acc =>
          let acc' := 16 * acc + hexval c in
          match todo with
          | S (S k) => read (Hex (S k) acc') rest
          | _ => acc' :: read Plain rest
          end
      end
  end.

End Lit.

Definition js (s : string) : jsstring := Lit.read Lit.Plain s.
Arguments js s%_string.

(** *** Character classes *)

(** [WhiteSpace] and [LineTerminator] of ECMAScript: what [trim] removes
    and what [\s] matches. *)
Definition isWhiteSpace (c : N) : bool :=
  ((9 <=? c) && (c <=? 13)) || (c =? 32) || (c =? 160) || (c =? 5760)
  || ((8192 <=? c) && (c <=? 8202)) || (c =? 8232) || (c =? 8233)
  || (c =? 8239) || (c =? 8287) || (c =? 12288) || (c =? 65279).

(** [LineTerminator]: what [.] does not match. *)
Definition isLineTerminator (c : N) : bool :=
  (c =? 10) || (c =? 13) || (c =? 8232) || (c =? 8233).

Definition isUpperAscii (c : N) : bool := (65 <=? c) && (c <=? 90).

Definition lowerUnit (c : N) : N := if isUpperAscii c then c + 32 else c.

(** The letters A to Z of a string in lower case: how the [i] flag
    compares a text with a pattern of ASCII characters, code unit by code
    unit. *)
Definition lowerAscii (s : jsstring) : jsstring := map lowerUnit s.

(** *** [trim], [startsWith], [includes], [split], [join] *)

Fixpoint dropWhile (p : N -> bool) (s : jsstring) : jsstring :=
  match s with
  | c :: rest => if p c then dropWhile p rest else s
  | [] => []
  end.

Fixpoint takeWhile (p : N -> bool) (s : jsstring) : jsstring :=
  match s with
  | c :: rest => if p c then c :: takeWhile p rest else []
  | [] => []
  end.

Definition trimStart (s : jsstring) : jsstring := dropWhile isWhiteSpace s.
Definition trimEnd (s : jsstring) : jsstring := rev (dropWhile isWhiteSpace (rev s)).
Definition trim (s : jsstring) : jsstring := trimEnd (trimStart s).

Fixpoint startsWith (s prefix : jsstring) {struct prefix} : bool :=
  match prefix, s with
  | [], _ => true
  | p :: prefix', c :: s' => (c =? p) && startsWith s' prefix'
  | _ :: _, [] => false
  end.

Fixpoint includes (s sub : jsstring) : bool :=
  startsWith s sub ||
  match s with
  | [] => false
  | _ :: s' => includes s' sub
  end.

(** [s.split(sep)] for a non-empty separator: the pieces between the
    non-overlapping occurrences of [sep], searched from the left. [skip]
    counts the code units of an occurrence still to be passed over, [cur]
    holds the current piece in reverse. *)
Fixpoint splitGo (sep : jsstring) (skip : nat) (cur : jsstring) (s : jsstring)
  : list jsstring :=
  match s with
  | [] => [rev cur]
  | c :: rest =>
      match skip with
      | S k => splitGo sep k cur rest
      | O =>
          if startsWith s sep
          then rev cur :: splitGo sep (pred (length sep)) [] rest
          else splitGo sep O (c :: cur) rest
      end
  end.

(** With the empty separator [split] yields the code units one by one. *)
Definition split (s sep : jsstring) : list jsstring :=
  match sep with
  | [] => map (fun c => [c]) s
  | _ :: _ => splitGo sep O [] s
  end.

Fixpoint join (pieces : list jsstring) (sep : jsstring) : jsstring :=
  match pieces with
  | [] => []
  | [p] => p
  | p :: more => p ++ sep ++ join more sep
  end.

(** Truthiness of a string: the empty string is the only falsy one. *)
Definition truthy (s : jsstring) : bool :=
  match s with [] => false | _ :: _ => true end.

(** ** Regular expressions

    The fragment of ECMAScript regular expressions the program uses:
    character sets, concatenation, greedy [*], [+] and [?] over character
    sets, capture groups, and [^] as the first term of a pattern. Matching
    is the backtracking matcher of the language specification, written with
    continuations: a matcher receives the rest of the input and the captures
    so far, and fails or answers with the end of the match. *)

Module RegExp.

Abbreviation charset := (N -> bool).

Inductive regex : Type :=
| Eps
| Chr (p : charset)
| Cat (a b : regex)
| Star (p : charset)
| Opt (p : charset)
| Group (i : nat) (r : regex).

Definition Plus (p : charset) : regex := Cat (Chr p) (Star p).

Definition captures := list (nat * jsstring).
Definition answer := option (jsstring * captures).
Definition cont := jsstring -> captures -> answer.

Definition accept : cont := fun rest caps => Some (rest, caps).

(** Greedy: one more code unit first, the continuation at this point
    only when the longer attempts have failed. *)
Fixpoint starM (p : charset) (k : cont) (inp : jsstring) (caps : captures)
  : answer :=
  match inp with
  | c :: rest =>
      if p c then
        match starM p k rest caps with
        | Some res => Some res
        | None => k inp caps
        end
      else k inp caps
  | [] => k [] caps
  end.

Fixpoint matchM (r : regex) (k : cont) (inp : jsstring) (caps : captures)
  : answer :=
  match r with
  | Eps => k inp caps
  | Chr p =>
      match inp with
      | c :: rest => if p c then k rest caps else None
      | [] => None
      end
  | Cat a b => matchM a (matchM b k) inp caps
  | Star p => starM p k inp caps
  | Opt p =>
      match inp with
      | c :: rest =>
          if p c then
            match k rest caps with
            | Some res => Some res
            | None => k inp caps
            end
          else k inp caps
      | [] => k [] caps
      end
  | Group i r' =>
      matchM r'
        (fun rest caps' =>
           k rest ((i, take (length inp - length rest) inp) :: caps'))
        inp caps
  end.

(** A pattern: [/^body/] when [anchored], [/body/] otherwise. *)
Record pattern := Pattern { anchored : bool; body : regex }.

(** The match array: element 0 and the numbered groups. *)
Record result := Result { matched : jsstring; groups : captures }.

Definition matchAt (r : regex) (inp : jsstring) : option (jsstring * result) :=
  match matchM r accept inp [] with
  | Some (rest, caps) =>
      Some (rest, Result (take (length inp - length rest) inp) caps)
  | None => None
  end.

(** The leftmost position at which the pattern matches. *)
Fixpoint search (r : regex) (inp : jsstring) : option result :=
  match matchAt r inp with
  | Some (_, m) => Some m
  | None =>
      match inp with
      | [] => None
      | _ :: inp' => search r inp'
      end
  end.

(** [re.exec(s)], which is also [s.match(re)] without the [g] flag. *)
Definition exec (re : pattern) (s : jsstring) : option result :=
  if anchored re then snd <$> matchAt (body re) s else search (body re) s.

Definition test (re : pattern) (s : jsstring) : bool :=
  match exec re s with Some _ => true | None => false end.

Fixpoint assoc (i : nat) (caps : captures) : option jsstring :=
  match caps with
  | [] => None
  | (j, s) :: more => if Nat.eqb i j then Some s else assoc i more
  end.

(** [m[i]] for [i >= 1] *)
Definition group (i : nat) (m : result) : option jsstring := assoc i (groups m).

(** [s.replace(/r/g, f)]: every match, found from the left and never
    overlapping, is replaced by [f] of it. [skip] counts the code units
    of the last match still to be passed over. After an empty match the
    search moves on by one code unit. *)
Fixpoint replaceGo (r : regex) (f : result -> jsstring) (skip : nat)
    (inp : jsstring) : jsstring :=
  match skip with
  | S k =>
      match inp with
      | [] => []
      | _ :: inp' => replaceGo r f k inp'
      end
  | O =>
      match matchAt r inp with
      | Some (_, m) =>
          f m ++
          match inp with
          | [] => []
          | c :: inp' =>
              match length (matched m) with
              | O => c :: replaceGo r f O inp'
              | S k => replaceGo r f k inp'
              end
          end
      | None =>
          match inp with
          | [] => []
          | c :: inp' => c :: replaceGo r f O inp'
          end
      end
  end.

Definition replaceAll (r : regex) (f : result -> jsstring) (s : jsstring)
  : jsstring := replaceGo r f O s.

(** A literal code unit, and one compared without regard to case (the
    [i] flag: outside ASCII nothing is folded onto an ASCII letter). *)
Definition one (c : N) : charset := fun d => d =? c.
Definition oneCI (c : N) : charset := fun d => lowerUnit d =? lowerUnit c.
Definition allBut (c : N) : charset := fun d => negb (d =? c).

Fixpoint lit (ci : bool) (s : jsstring) : regex :=
  match s with
  | [] => Eps
  | c :: s' => Cat (Chr (if ci then oneCI c else one c)) (lit ci s')
  end.

End RegExp.

Import RegExp.

(** The patterns of the source. *)

(** [/^([^;]+)/] *)
Definition reMediaType : pattern := Pattern true (Group 1 (Plus (allBut 59))).

(** The set [[^\x22;\s]] (\x22 is the double quote) *)
Definition boundaryUnit (c : N) : bool :=
  negb ((c =? 34) || (c =? 59) || isWhiteSpace c).

(** [/boundary=\x22?([^\x22;\s]+)\x22?/i] *)
Definition reBoundary : pattern :=
  Pattern false
    (Cat (lit true (js "boundary="))
       (Cat (Opt (one 34)) (Cat (Group 1 (Plus boundaryUnit)) (Opt (one 34))))).

(** [.] *)
Definition anyUnit (c : N) : bool := negb (isLineTerminator c).

(** The header-line pattern: [^], group 1 [[^:]+], [:], [\s*], group 2 [.*] *)
Definition reHeaderLine : pattern :=
  Pattern true
    (Cat (Group 1 (Plus (allBut 58)))
       (Cat (Chr (one 58)) (Cat (Star isWhiteSpace) (Group 2 (Star anyUnit))))).

(** [/^\s/] *)
Definition reContinuation : pattern := Pattern true (Chr isWhiteSpace).

(** [/<[^>]*>/g] *)
Definition reTag : regex := Cat (Chr (one 60)) (Cat (Star (allBut 62)) (Chr (one 62))).

(** [/\s+/g] *)
Definition reSpaces : regex := Plus isWhiteSpace.

(** [/=\r\n/g] *)
Definition reSoftBreak : regex := lit false (js "=\r\n").

(** [[0-9A-F]] *)
Definition isHexUpper (c : N) : bool :=
  ((48 <=? c) && (c <=? 57)) || ((65 <=? c) && (c <=? 70)).

(** [/=([0-9A-F]{2})/g] *)
Definition reEscape : regex :=
  Cat (Chr (one 61)) (Group 1 (Cat (Chr isHexUpper) (Chr isHexUpper))).

(** ** Effects: exceptions and the console

    A computation ends normally or by throwing, and leaves the lines it
    wrote with [console.warn]. *)

Inductive exn := InvalidCharacterError | TypeError.

Inductive completion (A : Type) :=
| Normal (a : A)
| Throw (e : exn).
Arguments Normal {A} a.
Arguments Throw {A} e.

(** [console.warn(label, error)] *)
Record warning := Warning { label : jsstring; cause : exn }.

Definition JS (A : Type) : Type := completion A * list warning.

#[export] Instance JS_ret : MRet JS := fun A a => (Normal a, []).

#[export] Instance JS_bind : MBind JS := fun A B f m =>
  match m.1 with
  | Normal a => let r := f a in (r.1, m.2 ++ r.2)
  | Throw e => (Throw e, m.2)
  end.

Definition throw {A : Type} (e : exn) : JS A := (Throw e, []).

Definition consoleWarn (lbl : jsstring) (e : exn) : JS unit :=
  (Normal tt, [Warning lbl e]).

(** [try { body } catch (error) { handler }] *)
Definition tryCatch {A : Type} (body : JS A) (handler : exn -> JS A) : JS A :=
  match body.1 with
  | Normal a => body
  | Throw e => let r := handler e in (r.1, body.2 ++ r.2)
  end.

(** ** Platform: [atob], typed arrays, [TextDecoder] *)

Module Base64.

Definition isAsciiWhitespace (c : N) : bool :=
  (c =? 9) || (c =? 10) || (c =? 12) || (c =? 13) || (c =? 32).

(** The value of a code unit in the base64 alphabet. *)
Definition sextet (c : N) : option N :=
  if (65 <=? c) && (c <=? 90) then Some (c - 65)
  else if (97 <=? c) && (c <=? 122) then Some (c - 71)
  else if (48 <=? c) && (c <=? 57) then Some (c + 4)
  else if c =? 43 then Some 62
  else if c =? 47 then Some 63
  else None.

(** When the length is a multiple of four, one or two [=] at the end
    are removed. *)
Definition stripPadding (data : jsstring) : jsstring :=
  if (length data mod 4 =? 0)%nat then
    match rev data with
    | c1 :: r1 =>
        if c1 =? 61 then
          match r1 with
          | c2 :: r2 => if c2 =? 61 then rev r2 else rev r1
          | [] => rev r1
          end
        else data
    | [] => data
    end
  else data.

(** The bit buffer: six bits come in with every code unit, three bytes
    go out when it holds 24; at the end 12 bits give one byte and 18 bits
    two, the bits beyond being dropped. *)
Fixpoint drain (buffer : N) (bits : nat) (data : list N) : list N :=
  match data with
  | [] =>
      match bits with
      | 12%nat => [buffer / 16]
      | 18%nat => [buffer / 4 / 256; (buffer / 4) mod 256]
      | _ => []
      end
  | v :: rest =>
      let buffer' := buffer * 64 + v in
      match bits with
      | 18%nat =>
          buffer' / 65536 :: (buffer' / 256) mod 256 :: buffer' mod 256
          :: drain 0 0 rest
      | _ => drain buffer' (bits + 6) rest
      end
  end.

(** Forgiving base64 decoding; [None] is failure. *)
Definition forgivingDecode (data : jsstring) : option (list N) :=
  let data := filter (fun c => negb (isAsciiWhitespace c)) data in
  let data := stripPadding data in
  if (length data mod 4 =? 1)%nat then None
  else drain 0 0 <$> mapM sextet data.

End Base64.

(** [atob(str)]: the decoded bytes as a string of code units below 256,
    or an [InvalidCharacterError]. *)
Definition atob (str : jsstring) : JS jsstring :=
  match Base64.forgivingDecode str with
  | Some bytes => mret bytes
  | None => throw InvalidCharacterError
  end.

(** [s.charCodeAt(0)] of a one-unit string, as [Uint8Array.from] hands
    them to its map function. *)
Definition charCodeAt0 (c : N) : N := c.

(** [Uint8Array.from(s, f)]: every element is stored modulo 256. *)
Definition Uint8Array_from (s : jsstring) (f : N -> N) : list N :=
  map (fun c => f c mod 256) s.

(** [String.fromCharCode(n)] *)
Definition fromCharCode (n : N) : jsstring := [n mod 65536].

Module Utf8.

Definition replacement : N := 65533.

(** What a byte does when no sequence is under way: [go needed cp lower
    upper] is the decoder on the bytes after it. *)
Definition onLead (b : N) (go : nat -> N -> N -> N -> list N) : list N :=
  if b <=? 127 then b :: go 0%nat 0 128 191
  else if (194 <=? b) && (b <=? 223) then go 1%nat (N.land b 31) 128 191
  else if (224 <=? b) && (b <=? 239) then
    go 2%nat (N.land b 15) (if b =? 224 then 160 else 128)
      (if b =? 237 then 159 else 191)
  else if (240 <=? b) && (b <=? 244) then
    go 3%nat (N.land b 7) (if b =? 240 then 144 else 128)
      (if b =? 244 then 143 else 191)
  else replacement :: go 0%nat 0 128 191.

(** The UTF-8 decoder of the Encoding standard in replacement mode:
    [needed] continuation bytes are still expected for the code point
    [cp], the next one within [lower..upper]. A byte out of that range
    ends the sequence with U+FFFD and is then read again as a first
    byte. *)
Fixpoint decodeGo (needed : nat) (cp lower upper : N) (bytes : list N)
  : list N :=
  match bytes with
  | [] => match needed with O => [] | S _ => [replacement] end
  | b :: rest =>
      let go := fun n c l u => decodeGo n c l u rest in
      match needed with
      | O => onLead b go
      | S n =>
          if (lower <=? b) && (b <=? upper) then
            let cp' := N.lor (N.shiftl cp 6) (N.land b 63) in
            match n with
            | O => cp' :: go 0%nat 0 128 191
            | S _ => go n cp' 128 191
            end
          else replacement :: onLead b go
      end
  end.

Definition decodeBytes (bytes : list N) : list N := decodeGo 0 0 128 191 bytes.

(** The byte order mark is not part of the text. *)
Definition dropBOM (cps : list N) : list N :=
  match cps with
  | cp :: rest => if cp =? 65279 then rest else cps
  | [] => []
  end.

(** A code point as UTF-16 code units. *)
Definition units (cp : N) : jsstring :=
  if cp <? 65536 then [cp]
  else [55296 + (cp - 65536) / 1024; 56320 + (cp - 65536) mod 1024].

Definition toString (cps : list N) : jsstring := concat (map units cps).

End Utf8.

(** [new TextDecoder().decode(data)] *)
Definition TextDecoder_decode (data : list N) : jsstring :=
  Utf8.toString (Utf8.dropBOM (Utf8.decodeBytes data)).

(** [parseInt(hex, 16)] on a string of hexadecimal digits. *)
Definition parseHex (hex : jsstring) : N :=
  fold_left (fun acc c => 16 * acc + Lit.hexval c) hex 0.

(** *** [String.prototype.toLowerCase]

    The string is read as code points, the code points are put in lower
    case by the default case conversion of Unicode, and the result is
    written as code units again. *)

(** [StringToCodePoints]: a leading surrogate with a trailing surrogate
    behind it is one code point, every other code unit is a code point by
    itself. *)
Definition isLeadingSurrogate (c : N) : bool := (0xD800 <=? c) && (c <=? 0xDBFF).
Definition isTrailingSurrogate (c : N) : bool := (0xDC00 <=? c) && (c <=? 0xDFFF).

Fixpoint StringToCodePoints (s : jsstring) : list N :=
  match s with
  | [] => []
  | c :: rest =>
      if isLeadingSurrogate c then
        match rest with
        | d :: rest' =>
            if isTrailingSurrogate d
            then 0x10000 + (c - 0xD800) * 0x400 + (d - 0xDC00)
                   :: StringToCodePoints rest'
            else c :: StringToCodePoints rest
        | [] => [c]
        end
      else c :: StringToCodePoints rest
  end.

(** [CodePointsToString] *)
Definition CodePointsToString (cps : list N) : jsstring := Utf8.toString cps.

Module Unicode.

(** The lower-case mappings of the Unicode Character Database, version
    14.0: an entry [(first, last, step, image)] maps the code points
    [first], [first + step], ... up to [last] to [image],
    [image + step], ... *)
Definition lowerTable : list (N * N * N * N) := [
  (0x41, 0x5A, 1, 0x61); (0xC0, 0xD6, 1, 0xE0); (0xD8, 0xDE, 1, 0xF8);
  (0x100, 0x12E, 2, 0x101); (0x130, 0x130, 1, 0x69); (0x132, 0x136, 2, 0x133);
  (0x139, 0x147, 2, 0x13A); (0x14A, 0x176, 2, 0x14B); (0x178, 0x178, 1, 0xFF);
  (0x179, 0x17D, 2, 0x17A); (0x181, 0x181, 1, 0x253); (0x182, 0x184, 2, 0x183);
  (0x186, 0x186, 1, 0x254); (0x187, 0x187, 1, 0x188); (0x189, 0x18A, 1, 0x256);
  (0x18B, 0x18B, 1, 0x18C); (0x18E, 0x18E, 1, 0x1DD); (0x18F, 0x18F, 1, 0x259);
  (0x190, 0x190, 1, 0x25B); (0x191, 0x191, 1, 0x192); (0x193, 0x193, 1, 0x260);
  (0x194, 0x194, 1, 0x263); (0x196, 0x196, 1, 0x269); (0x197, 0x197, 1, 0x268);
  (0x198, 0x198, 1, 0x199); (0x19C, 0x19C, 1, 0x26F); (0x19D, 0x19D, 1, 0x272);
  (0x19F, 0x19F, 1, 0x275); (0x1A0, 0x1A4, 2, 0x1A1); (0x1A6, 0x1A6, 1, 0x280);
  (0x1A7, 0x1A7, 1, 0x1A8); (0x1A9, 0x1A9, 1, 0x283); (0x1AC, 0x1AC, 1, 0x1AD);
  (0x1AE, 0x1AE, 1, 0x288); (0x1AF, 0x1AF, 1, 0x1B0); (0x1B1, 0x1B2, 1, 0x28A);
  (0x1B3, 0x1B5, 2, 0x1B4); (0x1B7, 0x1B7, 1, 0x292); (0x1B8, 0x1B8, 1, 0x1B9);
  (0x1BC, 0x1BC, 1, 0x1BD); (0x1C4, 0x1C4, 1, 0x1C6); (0x1C5, 0x1C5, 1, 0x1C6);
  (0x1C7, 0x1C7, 1, 0x1C9); (0x1C8, 0x1C8, 1, 0x1C9); (0x1CA, 0x1CA, 1, 0x1CC);
  (0x1CB, 0x1DB, 2, 0x1CC); (0x1DE, 0x1EE, 2, 0x1DF); (0x1F1, 0x1F1, 1, 0x1F3);
  (0x1F2, 0x1F4, 2, 0x1F3); (0x1F6, 0x1F6, 1, 0x195); (0x1F7, 0x1F7, 1, 0x1BF);
  (0x1F8, 0x21E, 2, 0x1F9); (0x220, 0x220, 1, 0x19E); (0x222, 0x232, 2, 0x223);
  (0x23A, 0x23A, 1, 0x2C65); (0x23B, 0x23B, 1, 0x23C); (0x23D, 0x23D, 1, 0x19A);
  (0x23E, 0x23E, 1, 0x2C66); (0x241, 0x241, 1, 0x242); (0x243, 0x243, 1, 0x180);
  (0x244, 0x244, 1, 0x289); (0x245, 0x245, 1, 0x28C); (0x246, 0x24E, 2, 0x247);
  (0x370, 0x372, 2, 0x371); (0x376, 0x376, 1, 0x377); (0x37F, 0x37F, 1, 0x3F3);
  (0x386, 0x386, 1, 0x3AC); (0x388, 0x38A, 1, 0x3AD); (0x38C, 0x38C, 1, 0x3CC);
  (0x38E, 0x38F, 1, 0x3CD); (0x391, 0x3A1, 1, 0x3B1); (0x3A3, 0x3AB, 1, 0x3C3);
  (0x3CF, 0x3CF, 1, 0x3D7); (0x3D8, 0x3EE, 2, 0x3D9); (0x3F4, 0x3F4, 1, 0x3B8);
  (0x3F7, 0x3F7, 1, 0x3F8); (0x3F9, 0x3F9, 1, 0x3F2); (0x3FA, 0x3FA, 1, 0x3FB);
  (0x3FD, 0x3FF, 1, 0x37B); (0x400, 0x40F, 1, 0x450); (0x410, 0x42F, 1, 0x430);
  (0x460, 0x480, 2, 0x461); (0x48A, 0x4BE, 2, 0x48B); (0x4C0, 0x4C0, 1, 0x4CF);
  (0x4C1, 0x4CD, 2, 0x4C2); (0x4D0, 0x52E, 2, 0x4D1); (0x531, 0x556, 1, 0x561);
  (0x10A0, 0x10C5, 1, 0x2D00); (0x10C7, 0x10C7, 1, 0x2D27); (0x10CD, 0x10CD, 1, 0x2D2D);
  (0x13A0, 0x13EF, 1, 0xAB70); (0x13F0, 0x13F5, 1, 0x13F8); (0x1C90, 0x1CBA, 1, 0x10D0);
  (0x1CBD, 0x1CBF, 1, 0x10FD); (0x1E00, 0x1E94, 2, 0x1E01); (0x1E9E, 0x1E9E, 1, 0xDF);
  (0x1EA0, 0x1EFE, 2, 0x1EA1); (0x1F08, 0x1F0F, 1, 0x1F00); (0x1F18, 0x1F1D, 1, 0x1F10);
  (0x1F28, 0x1F2F, 1, 0x1F20); (0x1F38, 0x1F3F, 1, 0x1F30); (0x1F48, 0x1F4D, 1, 0x1F40);
  (0x1F59, 0x1F5F, 2, 0x1F51); (0x1F68, 0x1F6F, 1, 0x1F60); (0x1F88, 0x1F8F, 1, 0x1F80);
  (0x1F98, 0x1F9F, 1, 0x1F90); (0x1FA8, 0x1FAF, 1, 0x1FA0); (0x1FB8, 0x1FB9, 1, 0x1FB0);
  (0x1FBA, 0x1FBB, 1, 0x1F70); (0x1FBC, 0x1FBC, 1, 0x1FB3); (0x1FC8, 0x1FCB, 1, 0x1F72);
  (0x1FCC, 0x1FCC, 1, 0x1FC3); (0x1FD8, 0x1FD9, 1, 0x1FD0); (0x1FDA, 0x1FDB, 1, 0x1F76);
  (0x1FE8, 0x1FE9, 1, 0x1FE0); (0x1FEA, 0x1FEB, 1, 0x1F7A); (0x1FEC, 0x1FEC, 1, 0x1FE5);
  (0x1FF8, 0x1FF9, 1, 0x1F78); (0x1FFA, 0x1FFB, 1, 0x1F7C); (0x1FFC, 0x1FFC, 1, 0x1FF3);
  (0x2126, 0x2126, 1, 0x3C9); (0x212A, 0x212A, 1, 0x6B); (0x212B, 0x212B, 1, 0xE5);
  (0x2132, 0x2132, 1, 0x214E); (0x2160, 0x216F, 1, 0x2170); (0x2183, 0x2183, 1, 0x2184);
  (0x24B6, 0x24CF, 1, 0x24D0); (0x2C00, 0x2C2F, 1, 0x2C30); (0x2C60, 0x2C60, 1, 0x2C61);
  (0x2C62, 0x2C62, 1, 0x26B); (0x2C63, 0x2C63, 1, 0x1D7D); (0x2C64, 0x2C64, 1, 0x27D);
  (0x2C67, 0x2C6B, 2, 0x2C68); (0x2C6D, 0x2C6D, 1, 0x251); (0x2C6E, 0x2C6E, 1, 0x271);
  (0x2C6F, 0x2C6F, 1, 0x250); (0x2C70, 0x2C70, 1, 0x252); (0x2C72, 0x2C72, 1, 0x2C73);
  (0x2C75, 0x2C75, 1, 0x2C76); (0x2C7E, 0x2C7F, 1, 0x23F); (0x2C80, 0x2CE2, 2, 0x2C81);
  (0x2CEB, 0x2CED, 2, 0x2CEC); (0x2CF2, 0x2CF2, 1, 0x2CF3); (0xA640, 0xA66C, 2, 0xA641);
  (0xA680, 0xA69A, 2, 0xA681); (0xA722, 0xA72E, 2, 0xA723); (0xA732, 0xA76E, 2, 0xA733);
  (0xA779, 0xA77B, 2, 0xA77A); (0xA77D, 0xA77D, 1, 0x1D79); (0xA77E, 0xA786, 2, 0xA77F);
  (0xA78B, 0xA78B, 1, 0xA78C); (0xA78D, 0xA78D, 1, 0x265); (0xA790, 0xA792, 2, 0xA791);
  (0xA796, 0xA7A8, 2, 0xA797); (0xA7AA, 0xA7AA, 1, 0x266); (0xA7AB, 0xA7AB, 1, 0x25C);
  (0xA7AC, 0xA7AC, 1, 0x261); (0xA7AD, 0xA7AD, 1, 0x26C); (0xA7AE, 0xA7AE, 1, 0x26A);
  (0xA7B0, 0xA7B0, 1, 0x29E); (0xA7B1, 0xA7B1, 1, 0x287); (0xA7B2, 0xA7B2, 1, 0x29D);
  (0xA7B3, 0xA7B3, 1, 0xAB53); (0xA7B4, 0xA7C2, 2, 0xA7B5); (0xA7C4, 0xA7C4, 1, 0xA794);
  (0xA7C5, 0xA7C5, 1, 0x282); (0xA7C6, 0xA7C6, 1, 0x1D8E); (0xA7C7, 0xA7C9, 2, 0xA7C8);
  (0xA7D0, 0xA7D0, 1, 0xA7D1); (0xA7D6, 0xA7D8, 2, 0xA7D7); (0xA7F5, 0xA7F5, 1, 0xA7F6);
  (0xFF21, 0xFF3A, 1, 0xFF41); (0x10400, 0x10427, 1, 0x10428); (0x104B0, 0x104D3, 1, 0x104D8);
  (0x10570, 0x1057A, 1, 0x10597); (0x1057C, 0x1058A, 1, 0x105A3); (0x1058C, 0x10592, 1, 0x105B3);
  (0x10594, 0x10595, 1, 0x105BB); (0x10C80, 0x10CB2, 1, 0x10CC0); (0x118A0, 0x118BF, 1, 0x118C0);
  (0x16E40, 0x16E5F, 1, 0x16E60); (0x1E900, 0x1E921, 1, 0x1E922)
].

(** The code points with the property [Cased]. *)
Definition casedTable : list (N * N) := [
  (0x41, 0x5A); (0x61, 0x7A); (0xAA, 0xAA); (0xB5, 0xB5); (0xBA, 0xBA);
  (0xC0, 0xD6); (0xD8, 0xF6); (0xF8, 0x1BA); (0x1BC, 0x1BF); (0x1C4, 0x293);
  (0x295, 0x2B8); (0x2C0, 0x2C1); (0x2E0, 0x2E4); (0x345, 0x345); (0x370, 0x373);
  (0x376, 0x377); (0x37A, 0x37D); (0x37F, 0x37F); (0x386, 0x386); (0x388, 0x38A);
  (0x38C, 0x38C); (0x38E, 0x3A1); (0x3A3, 0x3F5); (0x3F7, 0x481); (0x48A, 0x52F);
  (0x531, 0x556); (0x560, 0x588); (0x10A0, 0x10C5); (0x10C7, 0x10C7); (0x10CD, 0x10CD);
  (0x10D0, 0x10FA); (0x10FD, 0x10FF); (0x13A0, 0x13F5); (0x13F8, 0x13FD); (0x1C80, 0x1C88);
  (0x1C90, 0x1CBA); (0x1CBD, 0x1CBF); (0x1D00, 0x1DBF); (0x1E00, 0x1F15); (0x1F18, 0x1F1D);
  (0x1F20, 0x1F45); (0x1F48, 0x1F4D); (0x1F50, 0x1F57); (0x1F59, 0x1F59); (0x1F5B, 0x1F5B);
  (0x1F5D, 0x1F5D); (0x1F5F, 0x1F7D); (0x1F80, 0x1FB4); (0x1FB6, 0x1FBC); (0x1FBE, 0x1FBE);
  (0x1FC2, 0x1FC4); (0x1FC6, 0x1FCC); (0x1FD0, 0x1FD3); (0x1FD6, 0x1FDB); (0x1FE0, 0x1FEC);
  (0x1FF2, 0x1FF4); (0x1FF6, 0x1FFC); (0x2071, 0x2071); (0x207F, 0x207F); (0x2090, 0x209C);
  (0x2102, 0x2102); (0x2107, 0x2107); (0x210A, 0x2113); (0x2115, 0x2115); (0x2119, 0x211D);
  (0x2124, 0x2124); (0x2126, 0x2126); (0x2128, 0x2128); (0x212A, 0x212D); (0x212F, 0x2134);
  (0x2139, 0x2139); (0x213C, 0x213F); (0x2145, 0x2149); (0x214E, 0x214E); (0x2160, 0x217F);
  (0x2183, 0x2184); (0x24B6, 0x24E9); (0x2C00, 0x2CE4); (0x2CEB, 0x2CEE); (0x2CF2, 0x2CF3);
  (0x2D00, 0x2D25); (0x2D27, 0x2D27); (0x2D2D, 0x2D2D); (0xA640, 0xA66D); (0xA680, 0xA69D);
  (0xA722, 0xA787); (0xA78B, 0xA78E); (0xA790, 0xA7CA); (0xA7D0, 0xA7D1); (0xA7D3, 0xA7D3);
  (0xA7D5, 0xA7D9); (0xA7F5, 0xA7F6); (0xA7F8, 0xA7FA); (0xAB30, 0xAB5A); (0xAB5C, 0xAB68);
  (0xAB70, 0xABBF); (0xFB00, 0xFB06); (0xFB13, 0xFB17); (0xFF21, 0xFF3A); (0xFF41, 0xFF5A);
  (0x10400, 0x1044F); (0x104B0, 0x104D3); (0x104D8, 0x104FB); (0x10570, 0x1057A); (0x1057C, 0x1058A);
  (0x1058C, 0x10592); (0x10594, 0x10595); (0x10597, 0x105A1); (0x105A3, 0x105B1); (0x105B3, 0x105B9);
  (0x105BB, 0x105BC); (0x10780, 0x10780); (0x10783, 0x10785); (0x10787, 0x107B0); (0x107B2, 0x107BA);
  (0x10C80, 0x10CB2); (0x10CC0, 0x10CF2); (0x118A0, 0x118DF); (0x16E40, 0x16E7F); (0x1D400, 0x1D454);
  (0x1D456, 0x1D49C); (0x1D49E, 0x1D49F); (0x1D4A2, 0x1D4A2); (0x1D4A5, 0x1D4A6); (0x1D4A9, 0x1D4AC);
  (0x1D4AE, 0x1D4B9); (0x1D4BB, 0x1D4BB); (0x1D4BD, 0x1D4C3); (0x1D4C5, 0x1D505); (0x1D507, 0x1D50A);
  (0x1D50D, 0x1D514); (0x1D516, 0x1D51C); (0x1D51E, 0x1D539); (0x1D53B, 0x1D53E); (0x1D540, 0x1D544);
  (0x1D546, 0x1D546); (0x1D54A, 0x1D550); (0x1D552, 0x1D6A5); (0x1D6A8, 0x1D6C0); (0x1D6C2, 0x1D6DA);
  (0x1D6DC, 0x1D6FA); (0x1D6FC, 0x1D714); (0x1D716, 0x1D734); (0x1D736, 0x1D74E); (0x1D750, 0x1D76E);
  (0x1D770, 0x1D788); (0x1D78A, 0x1D7A8); (0x1D7AA, 0x1D7C2); (0x1D7C4, 0x1D7CB); (0x1DF00, 0x1DF09);
  (0x1DF0B, 0x1DF1E); (0x1E900, 0x1E943); (0x1F130, 0x1F149); (0x1F150, 0x1F169); (0x1F170, 0x1F189)
].

(** The code points with the property [Case_Ignorable]. *)
Definition caseIgnorableTable : list (N * N) := [
  (0x27, 0x27); (0x2E, 0x2E); (0x3A, 0x3A); (0x5E, 0x5E); (0x60, 0x60);
  (0xA8, 0xA8); (0xAD, 0xAD); (0xAF, 0xAF); (0xB4, 0xB4); (0xB7, 0xB8);
  (0x2B0, 0x36F); (0x374, 0x375); (0x37A, 0x37A); (0x384, 0x385); (0x387, 0x387);
  (0x483, 0x489); (0x559, 0x559); (0x55F, 0x55F); (0x591, 0x5BD); (0x5BF, 0x5BF);
  (0x5C1, 0x5C2); (0x5C4, 0x5C5); (0x5C7, 0x5C7); (0x5F4, 0x5F4); (0x600, 0x605);
  (0x610, 0x61A); (0x61C, 0x61C); (0x640, 0x640); (0x64B, 0x65F); (0x670, 0x670);
  (0x6D6, 0x6DD); (0x6DF, 0x6E8); (0x6EA, 0x6ED); (0x70F, 0x70F); (0x711, 0x711);
  (0x730, 0x74A); (0x7A6, 0x7B0); (0x7EB, 0x7F5); (0x7FA, 0x7FA); (0x7FD, 0x7FD);
  (0x816, 0x82D); (0x859, 0x85B); (0x888, 0x888); (0x890, 0x891); (0x898, 0x89F);
  (0x8C9, 0x902); (0x93A, 0x93A); (0x93C, 0x93C); (0x941, 0x948); (0x94D, 0x94D);
  (0x951, 0x957); (0x962, 0x963); (0x971, 0x971); (0x981, 0x981); (0x9BC, 0x9BC);
  (0x9C1, 0x9C4); (0x9CD, 0x9CD); (0x9E2, 0x9E3); (0x9FE, 0x9FE); (0xA01, 0xA02);
  (0xA3C, 0xA3C); (0xA41, 0xA42); (0xA47, 0xA48); (0xA4B, 0xA4D); (0xA51, 0xA51);
  (0xA70, 0xA71); (0xA75, 0xA75); (0xA81, 0xA82); (0xABC, 0xABC); (0xAC1, 0xAC5);
  (0xAC7, 0xAC8); (0xACD, 0xACD); (0xAE2, 0xAE3); (0xAFA, 0xAFF); (0xB01, 0xB01);
  (0xB3C, 0xB3C); (0xB3F, 0xB3F); (0xB41, 0xB44); (0xB4D, 0xB4D); (0xB55, 0xB56);
  (0xB62, 0xB63); (0xB82, 0xB82); (0xBC0, 0xBC0); (0xBCD, 0xBCD); (0xC00, 0xC00);
  (0xC04, 0xC04); (0xC3C, 0xC3C); (0xC3E, 0xC40); (0xC46, 0xC48); (0xC4A, 0xC4D);
  (0xC55, 0xC56); (0xC62, 0xC63); (0xC81, 0xC81); (0xCBC, 0xCBC); (0xCBF, 0xCBF);
  (0xCC6, 0xCC6); (0xCCC, 0xCCD); (0xCE2, 0xCE3); (0xD00, 0xD01); (0xD3B, 0xD3C);
  (0xD41, 0xD44); (0xD4D, 0xD4D); (0xD62, 0xD63); (0xD81, 0xD81); (0xDCA, 0xDCA);
  (0xDD2, 0xDD4); (0xDD6, 0xDD6); (0xE31, 0xE31); (0xE34, 0xE3A); (0xE46, 0xE4E);
  (0xEB1, 0xEB1); (0xEB4, 0xEBC); (0xEC6, 0xEC6); (0xEC8, 0xECD); (0xF18, 0xF19);
  (0xF35, 0xF35); (0xF37, 0xF37); (0xF39, 0xF39); (0xF71, 0xF7E); (0xF80, 0xF84);
  (0xF86, 0xF87); (0xF8D, 0xF97); (0xF99, 0xFBC); (0xFC6, 0xFC6); (0x102D, 0x1030);
  (0x1032, 0x1037); (0x1039, 0x103A); (0x103D, 0x103E); (0x1058, 0x1059); (0x105E, 0x1060);
  (0x1071, 0x1074); (0x1082, 0x1082); (0x1085, 0x1086); (0x108D, 0x108D); (0x109D, 0x109D);
  (0x10FC, 0x10FC); (0x135D, 0x135F); (0x1712, 0x1714); (0x1732, 0x1733); (0x1752, 0x1753);
  (0x1772, 0x1773); (0x17B4, 0x17B5); (0x17B7, 0x17BD); (0x17C6, 0x17C6); (0x17C9, 0x17D3);
  (0x17D7, 0x17D7); (0x17DD, 0x17DD); (0x180B, 0x180F); (0x1843, 0x1843); (0x1885, 0x1886);
  (0x18A9, 0x18A9); (0x1920, 0x1922); (0x1927, 0x1928); (0x1932, 0x1932); (0x1939, 0x193B);
  (0x1A17, 0x1A18); (0x1A1B, 0x1A1B); (0x1A56, 0x1A56); (0x1A58, 0x1A5E); (0x1A60, 0x1A60);
  (0x1A62, 0x1A62); (0x1A65, 0x1A6C); (0x1A73, 0x1A7C); (0x1A7F, 0x1A7F); (0x1AA7, 0x1AA7);
  (0x1AB0, 0x1ACE); (0x1B00, 0x1B03); (0x1B34, 0x1B34); (0x1B36, 0x1B3A); (0x1B3C, 0x1B3C);
  (0x1B42, 0x1B42); (0x1B6B, 0x1B73); (0x1B80, 0x1B81); (0x1BA2, 0x1BA5); (0x1BA8, 0x1BA9);
  (0x1BAB, 0x1BAD); (0x1BE6, 0x1BE6); (0x1BE8, 0x1BE9); (0x1BED, 0x1BED); (0x1BEF, 0x1BF1);
  (0x1C2C, 0x1C33); (0x1C36, 0x1C37); (0x1C78, 0x1C7D); (0x1CD0, 0x1CD2); (0x1CD4, 0x1CE0);
  (0x1CE2, 0x1CE8); (0x1CED, 0x1CED); (0x1CF4, 0x1CF4); (0x1CF8, 0x1CF9); (0x1D2C, 0x1D6A);
  (0x1D78, 0x1D78); (0x1D9B, 0x1DFF); (0x1FBD, 0x1FBD); (0x1FBF, 0x1FC1); (0x1FCD, 0x1FCF);
  (0x1FDD, 0x1FDF); (0x1FED, 0x1FEF); (0x1FFD, 0x1FFE); (0x200B, 0x200F); (0x2018, 0x2019);
  (0x2024, 0x2024); (0x2027, 0x2027); (0x202A, 0x202E); (0x2060, 0x2064); (0x2066, 0x206F);
  (0x2071, 0x2071); (0x207F, 0x207F); (0x2090, 0x209C); (0x20D0, 0x20F0); (0x2C7C, 0x2C7D);
  (0x2CEF, 0x2CF1); (0x2D6F, 0x2D6F); (0x2D7F, 0x2D7F); (0x2DE0, 0x2DFF); (0x2E2F, 0x2E2F);
  (0x3005, 0x3005); (0x302A, 0x302D); (0x3031, 0x3035); (0x303B, 0x303B); (0x3099, 0x309E);
  (0x30FC, 0x30FE); (0xA015, 0xA015); (0xA4F8, 0xA4FD); (0xA60C, 0xA60C); (0xA66F, 0xA672);
  (0xA674, 0xA67D); (0xA67F, 0xA67F); (0xA69C, 0xA69F); (0xA6F0, 0xA6F1); (0xA700, 0xA721);
  (0xA770, 0xA770); (0xA788, 0xA78A); (0xA7F2, 0xA7F4); (0xA7F8, 0xA7F9); (0xA802, 0xA802);
  (0xA806, 0xA806); (0xA80B, 0xA80B); (0xA825, 0xA826); (0xA82C, 0xA82C); (0xA8C4, 0xA8C5);
  (0xA8E0, 0xA8F1); (0xA8FF, 0xA8FF); (0xA926, 0xA92D); (0xA947, 0xA951); (0xA980, 0xA982);
  (0xA9B3, 0xA9B3); (0xA9B6, 0xA9B9); (0xA9BC, 0xA9BD); (0xA9CF, 0xA9CF); (0xA9E5, 0xA9E6);
  (0xAA29, 0xAA2E); (0xAA31, 0xAA32); (0xAA35, 0xAA36); (0xAA43, 0xAA43); (0xAA4C, 0xAA4C);
  (0xAA70, 0xAA70); (0xAA7C, 0xAA7C); (0xAAB0, 0xAAB0); (0xAAB2, 0xAAB4); (0xAAB7, 0xAAB8);
  (0xAABE, 0xAABF); (0xAAC1, 0xAAC1); (0xAADD, 0xAADD); (0xAAEC, 0xAAED); (0xAAF3, 0xAAF4);
  (0xAAF6, 0xAAF6); (0xAB5B, 0xAB5F); (0xAB69, 0xAB6B); (0xABE5, 0xABE5); (0xABE8, 0xABE8);
  (0xABED, 0xABED); (0xFB1E, 0xFB1E); (0xFBB2, 0xFBC2); (0xFE00, 0xFE0F); (0xFE13, 0xFE13);
  (0xFE20, 0xFE2F); (0xFE52, 0xFE52); (0xFE55, 0xFE55); (0xFEFF, 0xFEFF); (0xFF07, 0xFF07);
  (0xFF0E, 0xFF0E); (0xFF1A, 0xFF1A); (0xFF3E, 0xFF3E); (0xFF40, 0xFF40); (0xFF70, 0xFF70);
  (0xFF9E, 0xFF9F); (0xFFE3, 0xFFE3); (0xFFF9, 0xFFFB); (0x101FD, 0x101FD); (0x102E0, 0x102E0);
  (0x10376, 0x1037A); (0x10780, 0x10785); (0x10787, 0x107B0); (0x107B2, 0x107BA); (0x10A01, 0x10A03);
  (0x10A05, 0x10A06); (0x10A0C, 0x10A0F); (0x10A38, 0x10A3A); (0x10A3F, 0x10A3F); (0x10AE5, 0x10AE6);
  (0x10D24, 0x10D27); (0x10EAB, 0x10EAC); (0x10F46, 0x10F50); (0x10F82, 0x10F85); (0x11001, 0x11001);
  (0x11038, 0x11046); (0x11070, 0x11070); (0x11073, 0x11074); (0x1107F, 0x11081); (0x110B3, 0x110B6);
  (0x110B9, 0x110BA); (0x110BD, 0x110BD); (0x110C2, 0x110C2); (0x110CD, 0x110CD); (0x11100, 0x11102);
  (0x11127, 0x1112B); (0x1112D, 0x11134); (0x11173, 0x11173); (0x11180, 0x11181); (0x111B6, 0x111BE);
  (0x111C9, 0x111CC); (0x111CF, 0x111CF); (0x1122F, 0x11231); (0x11234, 0x11234); (0x11236, 0x11237);
  (0x1123E, 0x1123E); (0x112DF, 0x112DF); (0x112E3, 0x112EA); (0x11300, 0x11301); (0x1133B, 0x1133C);
  (0x11340, 0x11340); (0x11366, 0x1136C); (0x11370, 0x11374); (0x11438, 0x1143F); (0x11442, 0x11444);
  (0x11446, 0x11446); (0x1145E, 0x1145E); (0x114B3, 0x114B8); (0x114BA, 0x114BA); (0x114BF, 0x114C0);
  (0x114C2, 0x114C3); (0x115B2, 0x115B5); (0x115BC, 0x115BD); (0x115BF, 0x115C0); (0x115DC, 0x115DD);
  (0x11633, 0x1163A); (0x1163D, 0x1163D); (0x1163F, 0x11640); (0x116AB, 0x116AB); (0x116AD, 0x116AD);
  (0x116B0, 0x116B5); (0x116B7, 0x116B7); (0x1171D, 0x1171F); (0x11722, 0x11725); (0x11727, 0x1172B);
  (0x1182F, 0x11837); (0x11839, 0x1183A); (0x1193B, 0x1193C); (0x1193E, 0x1193E); (0x11943, 0x11943);
  (0x119D4, 0x119D7); (0x119DA, 0x119DB); (0x119E0, 0x119E0); (0x11A01, 0x11A0A); (0x11A33, 0x11A38);
  (0x11A3B, 0x11A3E); (0x11A47, 0x11A47); (0x11A51, 0x11A56); (0x11A59, 0x11A5B); (0x11A8A, 0x11A96);
  (0x11A98, 0x11A99); (0x11C30, 0x11C36); (0x11C38, 0x11C3D); (0x11C3F, 0x11C3F); (0x11C92, 0x11CA7);
  (0x11CAA, 0x11CB0); (0x11CB2, 0x11CB3); (0x11CB5, 0x11CB6); (0x11D31, 0x11D36); (0x11D3A, 0x11D3A);
  (0x11D3C, 0x11D3D); (0x11D3F, 0x11D45); (0x11D47, 0x11D47); (0x11D90, 0x11D91); (0x11D95, 0x11D95);
  (0x11D97, 0x11D97); (0x11EF3, 0x11EF4); (0x13430, 0x13438); (0x16AF0, 0x16AF4); (0x16B30, 0x16B36);
  (0x16B40, 0x16B43); (0x16F4F, 0x16F4F); (0x16F8F, 0x16F9F); (0x16FE0, 0x16FE1); (0x16FE3, 0x16FE4);
  (0x1AFF0, 0x1AFF3); (0x1AFF5, 0x1AFFB); (0x1AFFD, 0x1AFFE); (0x1BC9D, 0x1BC9E); (0x1BCA0, 0x1BCA3);
  (0x1CF00, 0x1CF2D); (0x1CF30, 0x1CF46); (0x1D167, 0x1D169); (0x1D173, 0x1D182); (0x1D185, 0x1D18B);
  (0x1D1AA, 0x1D1AD); (0x1D242, 0x1D244); (0x1DA00, 0x1DA36); (0x1DA3B, 0x1DA6C); (0x1DA75, 0x1DA75);
  (0x1DA84, 0x1DA84); (0x1DA9B, 0x1DA9F); (0x1DAA1, 0x1DAAF); (0x1E000, 0x1E006); (0x1E008, 0x1E018);
  (0x1E01B, 0x1E021); (0x1E023, 0x1E024); (0x1E026, 0x1E02A); (0x1E130, 0x1E13D); (0x1E2AE, 0x1E2AE);
  (0x1E2EC, 0x1E2EF); (0x1E8D0, 0x1E8D6); (0x1E944, 0x1E94B); (0x1F3FB, 0x1F3FF); (0xE0001, 0xE0001);
  (0xE0020, 0xE007F); (0xE0100, 0xE01EF)
].

Definition covers (cp : N) (entry : N * N * N * N) : bool :=
  let '(first, last, step, _) := entry in
  (first <=? cp) && (cp <=? last) && ((cp - first) mod step =? 0).

Definition simpleLower (cp : N) : N :=
  match find (covers cp) lowerTable with
  | Some (first, _, _, image) => image + (cp - first)
  | None => cp
  end.

Definition within (cp : N) (ranges : list (N * N)) : bool :=
  existsb (fun '(first, last) => (first <=? cp) && (cp <=? last)) ranges.

Definition isCased (cp : N) : bool := within cp casedTable.
Definition isCaseIgnorable (cp : N) : bool := within cp caseIgnorableTable.

(** Whether the nearest code point that is not case-ignorable is a cased
    letter. *)
Fixpoint casedNext (cps : list N) : bool :=
  match cps with
  | [] => false
  | cp :: more => if isCaseIgnorable cp then casedNext more else isCased cp
  end.

(** [toLowercase]: the mapping of every code point, with the two rules of
    SpecialCasing.txt that do not depend on the language: a capital sigma
    becomes a final sigma when a cased letter stands before it and none
    behind it, case-ignorable code points in between not counting, and a
    capital I with dot above becomes an [i] and a combining dot.
    [before] holds the code points already passed, the nearest first. *)
Fixpoint lowerGo (before cps : list N) : list N :=
  match cps with
  | [] => []
  | cp :: after =>
      (if cp =? 0x3A3 then
         if negb (casedNext after) && casedNext before then [0x3C2] else [0x3C3]
       else if cp =? 0x130 then [0x69; 0x307]
       else [simpleLower cp])
      ++ lowerGo (cp :: before) after
  end.

Definition toLowercase (cps : list N) : list N := lowerGo [] cps.

End Unicode.

Definition toLowerCase (s : jsstring) : jsstring :=
  CodePointsToString (Unicode.toLowercase (StringToCodePoints s)).

(** ** The program *)

Definition decodeUint8Array (data : list N) : jsstring := TextDecoder_decode data.

Definition decodeBase64 (str : jsstring) : JS jsstring :=
  tryCatch
    (bin ← atob str;
     mret (TextDecoder_decode (Uint8Array_from bin charCodeAt0)))
    (fun error =>
       _ ← consoleWarn (js "Failed to decode base64:") error;
       mret str).

Definition decodeQuotedPrintable (str : jsstring) : JS jsstring :=
  tryCatch
    (mret
       (replaceAll reEscape
          (fun m => fromCharCode (parseHex (default [] (group 1 m))))
          (replaceAll reSoftBreak (fun _ => []) str)))
    (fun error =>
       _ ← consoleWarn (js "Failed to decode quoted-printable:") error;
       mret str).

Definition decodeBody (body : jsstring) (encoding : option jsstring) : JS jsstring :=
  match encoding with
  | None => mret body
  | Some enc =>
      if negb (truthy enc) then mret body
      else
        let e := toLowerCase enc in
        if bool_decide (e = js "base64") then decodeBase64 body
        else if bool_decide (e = js "quoted-printable") then decodeQuotedPrintable body
        else mret body
  end.

(** *** Header records *)

(** A header of the fetched message is a string or an array of strings. *)
Inductive headerValue :=
| Single (s : jsstring)
| Multiple (l : list jsstring).

(** [if (v)] on a header that is there: the empty string is falsy, every
    array is truthy. A missing header is [undefined], falsy as well. *)
Definition truthyValue (v : headerValue) : bool :=
  match v with
  | Single s => truthy s
  | Multiple _ => true
  end.

(** [Array.isArray(v) ? v[0] : v], with the method call that follows: on
    the empty array [v[0]] is [undefined] and calling a method of it
    throws a [TypeError]. *)
Definition firstValue (v : headerValue) : JS jsstring :=
  match v with
  | Single s => mret s
  | Multiple (s :: _) => mret s
  | Multiple [] => throw TypeError
  end.

Record contentInfo := ContentInfo {
  contentType : jsstring;
  encoding : jsstring;
  boundary : option jsstring
}.

Definition getContentInfo (headers : gmap jsstring headerValue) : JS contentInfo :=
  let contentType := js "text/plain" in
  let encoding := js "7bit" in
  let boundary := None in
  '(contentType, boundary) ←
    match headers !! js "Content-Type" with
    | Some v =>
        if truthyValue v then
          ctHeader ← firstValue v;
          let ctMatch := exec reMediaType ctHeader in
          let contentType :=
            match ctMatch with
            | Some m => toLowerCase (trim (default [] (group 1 m)))
            | None => contentType
            end in
          let boundaryMatch := exec reBoundary ctHeader in
          let boundary :=
            match boundaryMatch with
            | Some m => group 1 m
            | None => boundary
            end in
          mret (contentType, boundary)
        else mret (contentType, boundary)
    | None => mret (contentType, boundary)
    end;
  encoding ←
    match headers !! js "Content-Transfer-Encoding" with
    | Some v =>
        if truthyValue v then
          cteHeader ← firstValue v;
          mret (toLowerCase (trim cteHeader))
        else mret encoding
    | None => mret encoding
    end;
  mret (ContentInfo contentType encoding boundary).

(** *** Objects built by assignment *)

(** [headers[name] = value] on an object literal: an own property is
    set, whatever the name is (the runtime has no [__proto__] setter). *)
Definition setProperty (name value : jsstring) (o : gmap jsstring jsstring)
  : gmap jsstring jsstring :=
  <[name := value]> o.

(** [o[name] || fallback] *)
Definition propertyOr (o : gmap jsstring jsstring) (name fallback : jsstring)
  : jsstring :=
  match o !! name with
  | Some v => if truthy v then v else fallback
  | None => fallback
  end.

(** *** [parseMultipartMessage] *)

Definition CRLF : jsstring := js "\r\n".
Definition CRLFCRLF : jsstring := js "\r\n\r\n".

(** [s.replace(/<[^>]*>/g, " ").replace(/\s+/g, " ").trim()] *)
Definition stripTags (s : jsstring) : jsstring :=
  trim (replaceAll reSpaces (fun _ => js " ") (replaceAll reTag (fun _ => js " ") s)).

Definition noReadableContent : jsstring :=
  js "No readable content found in the message.".

(** The header loop of a part: one assignment per line that matches. *)
Definition partHeaderLine (headers : gmap jsstring jsstring) (line : jsstring)
  : gmap jsstring jsstring :=
  if negb (truthy (trim line)) then headers
  else
    match exec reHeaderLine line with
    | Some m => setProperty (default [] (group 1 m)) (default [] (group 2 m)) headers
    | None => headers
    end.

Definition partHeaders (headersText : jsstring) : gmap jsstring jsstring :=
  fold_left partHeaderLine (split headersText CRLF) ∅.

(** The two accumulators [textContent] and [htmlContent]. *)
Record accumulators := Accumulators {
  textContent : jsstring;
  htmlContent : jsstring
}.

(** One turn of the loop over the parts. *)
Definition partStep (acc : accumulators) (part : jsstring) : JS accumulators :=
  if negb (truthy (trim part)) || includes part (js "--") then mret acc
  else
    match split part CRLFCRLF with
    | [] => mret acc
    | headersText :: contentParts =>
        if (length contentParts =? 0)%nat then mret acc
        else
          let content := join contentParts CRLFCRLF in
          let headers := partHeaders headersText in
          let contentType := propertyOr headers (js "Content-Type") (js "text/plain") in
          let encoding := propertyOr headers (js "Content-Transfer-Encoding") (js "7bit") in
          decodedContent ← decodeBody content (Some encoding);
          if includes contentType (js "text/plain") then
            mret (Accumulators decodedContent (htmlContent acc))
          else if includes contentType (js "text/html") then
            mret (Accumulators (textContent acc) decodedContent)
          else mret acc
    end.

Fixpoint forOf {S A : Type} (body : S -> A -> JS S) (items : list A) (s : S) : JS S :=
  match items with
  | [] => mret s
  | x :: more => s' ← body s x; forOf body more s'
  end.

Definition partsLoop (body boundary : jsstring) : JS accumulators :=
  forOf partStep (split body (js "--" ++ boundary)) (Accumulators [] []).

Definition selectContent (acc : accumulators) : jsstring :=
  if truthy (textContent acc) then textContent acc
  else if truthy (htmlContent acc) then stripTags (htmlContent acc)
  else noReadableContent.

Definition parseMultipartMessage (body boundary : jsstring) : JS jsstring :=
  acc ← partsLoop body boundary;
  mret (selectContent acc).

(** *** The body display of [main] *)

(** What the body display prints as the message content. *)
Inductive display :=
| Shown (content : jsstring)
| CouldNotExtract
| NoBody.

(** What is done with the body text once [contentInfo] is known. *)
Definition renderBody (contentInfo : contentInfo) (rawBodyText : jsstring)
  : JS display :=
  let single :=
    decodedBody ← decodeBody rawBodyText (Some (encoding contentInfo));
    if includes (contentType contentInfo) (js "html")
    then mret (Shown (stripTags decodedBody))
    else mret (Shown decodedBody) in
  match boundary contentInfo with
  | Some b =>
      if startsWith (contentType contentInfo) (js "multipart/") && truthy b then
        parsedContent ← parseMultipartMessage rawBodyText b;
        mret (Shown parsedContent)
      else single
  | None => single
  end.

(** [contentInfo] as [main] sets it before it looks at the body: from
    [message.headers] when the message has them. *)
Definition messageContentInfo (headers : option (gmap jsstring headerValue))
  : JS contentInfo :=
  match headers with
  | Some h => getContentInfo h
  | None => mret (ContentInfo (js "text/plain") (js "7bit") None)
  end.

(** The structured path: the branch taken when [message.parts.TEXT] is
    there. *)
Definition structuredPath (headers : option (gmap jsstring headerValue))
    (text : list N) : JS display :=
  contentInfo ← messageContentInfo headers;
  renderBody contentInfo (decodeUint8Array text).

(** The header loop of the raw branch: [currentHeader], [currentValue]
    and the object under construction. *)
Record blockState := BlockState {
  currentHeader : jsstring;
  currentValue : jsstring;
  parsed : gmap jsstring jsstring
}.

Definition flush (st : blockState) : gmap jsstring jsstring :=
  if truthy (currentHeader st)
  then setProperty (currentHeader st) (currentValue st) (parsed st)
  else parsed st.

Definition blockLine (st : blockState) (line : jsstring) : blockState :=
  if test reContinuation line then
    BlockState (currentHeader st) (currentValue st ++ js " " ++ trim line) (parsed st)
  else
    let headers := flush st in
    match exec reHeaderLine line with
    | Some m =>
        BlockState (default [] (group 1 m)) (default [] (group 2 m)) headers
    | None => BlockState (currentHeader st) (currentValue st) headers
    end.

Definition parseLines (headerLines : list jsstring) : gmap jsstring jsstring :=
  flush (fold_left blockLine headerLines (BlockState [] [] ∅)).

(** The folding-aware header parser of the raw branch. *)
Definition parseBlock (headerText : jsstring) : gmap jsstring jsstring :=
  parseLines (split headerText CRLF).

(** The branch taken on [message.raw]. *)
Definition rawPath (raw : list N) : JS display :=
  let rawText := decodeUint8Array raw in
  match split rawText CRLFCRLF with
  | headerText :: ((_ :: _) as rest) =>
      let headers := parseBlock headerText in
      let '(contentType, encoding, boundary) :=
        match headers !! js "Content-Type" with
        | Some ct =>
            if truthy ct then
              (ct,
               propertyOr headers (js "Content-Transfer-Encoding") (js "7bit"),
               exec reBoundary ct ≫= group 1)
            else (js "text/plain", js "7bit", None)
        | None => (js "text/plain", js "7bit", None)
        end in
      let bodyText := join rest CRLFCRLF in
      let single :=
        decodedBody ← decodeBody bodyText (Some encoding);
        if includes (toLowerCase contentType) (js "html")
        then mret (Shown (stripTags decodedBody))
        else mret (Shown decodedBody) in
      match boundary with
      | Some b =>
          if includes contentType (js "multipart/") && truthy b then
            parsedContent ← parseMultipartMessage bodyText b;
            mret (Shown parsedContent)
          else single
      | None => single
      end
  | _ => mret CouldNotExtract
  end.

(** A fetched message, as far as the body display reads it. *)
Record message := Message {
  headers : option (gmap jsstring headerValue);
  partsTEXT : option (list N);
  raw : option (list N)
}.

Definition displayBody (m : message) : JS display :=
  contentInfo ← messageContentInfo (headers m);
  match partsTEXT m with
  | Some text => renderBody contentInfo (decodeUint8Array text)
  | None =>
      match raw m with
      | Some bytes => rawPath bytes
      | None => mret NoBody
      end
  end.

(** * Definitions on the side of the specification *)

(** A body that [atob] rejects: once ASCII white space and the padding are
    gone, its length is one more than a multiple of four or it holds a code
    unit outside the base64 alphabet. *)
Definition undecodable (body : jsstring) : Prop :=
  let data := Base64.stripPadding
                (filter (fun c => negb (Base64.isAsciiWhitespace c)) body) in
  (length data mod 4 = 1)%nat ∨ ∃ c, c ∈ data ∧ Base64.sextet c = None.


(** The strings a regular expression matches. *)
Fixpoint lang (r : regex) (s : jsstring) : Prop :=
  match r with
  | Eps => s = []
  | Chr p => ∃ c, s = [c] ∧ p c = true
  | Cat a b => ∃ s1 s2, s = s1 ++ s2 ∧ lang a s1 ∧ lang b s2
  | Star p => forallb p s = true
  | Opt p => s = [] ∨ ∃ c, s = [c] ∧ p c = true
  | Group _ r' => lang r' s
  end.

(** *** Quoted-printable *)

(** Every [=] directly followed by CR LF goes, together with them. *)
Fixpoint dropSoftBreaks (s : jsstring) : jsstring :=
  match s with
  | [] => []
  | c :: rest =>
      match rest with
      | c1 :: c2 :: rest' =>
          if (c =? 61) && (c1 =? 13) && (c2 =? 10)
          then dropSoftBreaks rest'
          else c :: dropSoftBreaks rest
      | _ => c :: dropSoftBreaks rest
      end
  end.

(** From the left, every [=] followed by two digits out of [0-9A-F]
    becomes the code unit of that value; the search goes on behind it. *)
Fixpoint unescapeUpper (s : jsstring) : jsstring :=
  match s with
  | [] => []
  | c :: rest =>
      match rest with
      | h1 :: h2 :: rest' =>
          if (c =? 61) && isHexUpper h1 && isHexUpper h2
          then 16 * Lit.hexval h1 + Lit.hexval h2 :: unescapeUpper rest'
          else c :: unescapeUpper rest
      | _ => c :: unescapeUpper rest
      end
  end.

(** The decoder as the specification words it: a soft line break is [=]
    before a line terminator (CR LF, or a lone LF or CR), and an escape is
    [=] before two hexadecimal digits, in either case of the letters. *)
Definition isHexDigit (c : N) : bool :=
  isHexUpper c || ((97 <=? c) && (c <=? 102)).

Fixpoint dropSoftBreaksClaimed (s : jsstring) : jsstring :=
  match s with
  | [] => []
  | c :: rest =>
      match rest with
      | c1 :: rest1 =>
          if (c =? 61) && ((c1 =? 13) || (c1 =? 10)) then
            match rest1 with
            | c2 :: rest2 =>
                if (c1 =? 13) && (c2 =? 10)
                then dropSoftBreaksClaimed rest2
                else dropSoftBreaksClaimed rest1
            | [] => []
            end
          else c :: dropSoftBreaksClaimed rest
      | [] => [c]
      end
  end.

Fixpoint unescapeClaimed (s : jsstring) : jsstring :=
  match s with
  | [] => []
  | c :: rest =>
      match rest with
      | h1 :: h2 :: rest' =>
          if (c =? 61) && isHexDigit h1 && isHexDigit h2
          then 16 * Lit.hexval h1 + Lit.hexval h2 :: unescapeClaimed rest'
          else c :: unescapeClaimed rest
      | _ => c :: unescapeClaimed rest
      end
  end.

Definition quotedPrintableClaimed (s : jsstring) : jsstring :=
  unescapeClaimed (dropSoftBreaksClaimed s).

(** *** Multipart *)

(** A fragment the loop passes over: nothing but white space, or a [--]
    somewhere in it, or no CR LF CR LF between headers and content. *)
Definition skipped (part : jsstring) : bool :=
  negb (truthy (trim part)) || includes part (js "--")
  || negb (includes part CRLFCRLF).

(** The local header block of a fragment and its content, the text
    before and the text after the first CR LF CR LF. *)
Definition partHeadersText (part : jsstring) : jsstring :=
  hd [] (split part CRLFCRLF).

Definition partContent (part : jsstring) : jsstring :=
  join (tl (split part CRLFCRLF)) CRLFCRLF.

Definition partContentType (part : jsstring) : jsstring :=
  propertyOr (partHeaders (partHeadersText part)) (js "Content-Type") (js "text/plain").

Definition partEncoding (part : jsstring) : jsstring :=
  propertyOr (partHeaders (partHeadersText part))
    (js "Content-Transfer-Encoding") (js "7bit").

Inductive partKind := PlainPart | HtmlPart | OtherPart.

#[export] Instance partKind_eq_dec : EqDecision partKind.
Proof. solve_decision. Defined.

(** A part is text/plain when its content type contains that string, and
    text/html when it contains "text/html" and not "text/plain". *)
Definition classify (contentType : jsstring) : partKind :=
  if includes contentType (js "text/plain") then PlainPart
  else if includes contentType (js "text/html") then HtmlPart
  else OtherPart.

Definition partKindOf (part : jsstring) : partKind :=
  classify (partContentType part).

Definition store (acc : accumulators) (kind : partKind) (decoded : jsstring)
  : accumulators :=
  match kind with
  | PlainPart => Accumulators decoded (htmlContent acc)
  | HtmlPart => Accumulators (textContent acc) decoded
  | OtherPart => acc
  end.

(** A fragment that is not passed over: header-parsed, decoded,
    classified. *)
Definition processPart (acc : accumulators) (part : jsstring) : JS accumulators :=
  decoded ← decodeBody (partContent part) (Some (partEncoding part));
  mret (store acc (partKindOf part) decoded).

Definition fragments (body boundary : jsstring) : list jsstring :=
  split body (js "--" ++ boundary).

(** The loop as the specification words it: the first fragment is the
    preamble and is passed over whatever it holds. *)
Definition partsLoopClaimed (body boundary : jsstring) : JS accumulators :=
  forOf processPart
    (filter (fun part => negb (skipped part)) (tl (fragments body boundary)))
    (Accumulators [] []).

(** The string a computation returns. *)
Definition returned (m : JS jsstring) : jsstring :=
  match m.1 with
  | Normal s => s
  | Throw _ => []
  end.

(** The decoded content of a part. *)
Definition partDecoded (part : jsstring) : jsstring :=
  returned (decodeBody (partContent part) (Some (partEncoding part))).

(** What a processed part does to the accumulators. *)
Definition storePart (acc : accumulators) (part : jsstring) : accumulators :=
  store acc (partKindOf part) (partDecoded part).

(** The decoded content of the last part of a kind, the empty string when
    there is none. *)
Definition lastOfKind (kind : partKind) (parts : list jsstring) : jsstring :=
  default [] (last (partDecoded <$>
                      filter (fun part => bool_decide (partKindOf part = kind)) parts)).

(** *** Tags and white space *)

(** Tags replaced in plain words: a [<] with a [>] somewhere behind it
    opens a tag, which runs up to the first [>]; one space stands for the
    whole tag. *)
Fixpoint untag (inTag : bool) (s : jsstring) : jsstring :=
  match s with
  | [] => []
  | c :: rest =>
      if inTag then untag (negb (c =? 62)) rest
      else if (c =? 60) && existsb (fun d => d =? 62) rest
      then 32 :: untag true rest
      else c :: untag false rest
  end.

(** White space collapsed: one space stands for every run of white
    space. *)
Fixpoint collapse (inRun : bool) (s : jsstring) : jsstring :=
  match s with
  | [] => []
  | c :: rest =>
      if isWhiteSpace c
      then (if inRun then collapse true rest else 32 :: collapse true rest)
      else c :: collapse false rest
  end.

(** *** Content information *)

(** The value the code reads from a header: the string, or the first
    element of the array; nothing when the property is missing or is the
    empty string (and nothing to read in the empty array). *)
Definition headerFirst (v : option headerValue) : option jsstring :=
  match v with
  | Some (Single s) => if truthy s then Some s else None
  | Some (Multiple (s :: _)) => Some s
  | Some (Multiple []) => None
  | None => None
  end.

(** A string in lower case: none of its code points has a lower-case
    mapping. *)
Definition isLowerCase (s : jsstring) : bool :=
  forallb (fun cp => Unicode.simpleLower cp =? cp) (StringToCodePoints s).

(** A string of 16-bit code units. *)
Definition isCodeUnits (s : jsstring) : bool := forallb (fun c => c <? 0x10000) s.

(** The code points of such a string: each is below 0x110000, and a
    leading surrogate never stands directly before a trailing one. *)
Fixpoint isCodePoints (cps : list N) : bool :=
  match cps with
  | [] => true
  | cp :: more =>
      (cp <? 0x110000)
      && negb (isLeadingSurrogate cp
               && match more with
                  | next :: _ => isTrailingSurrogate next
                  | [] => false
                  end)
      && isCodePoints more
  end.

(** The images of the lower-case mappings, entry by entry. *)
Definition lowerImages : list N :=
  flat_map
    (fun '(first, last, step, image) =>
       map (fun k => image + N.of_nat k * step)
         (seq 0 (S (N.to_nat ((last - first) / step)))))
    Unicode.lowerTable.

(** What follows [boundary=] in the pattern: the optional quote, the
    token, the optional quote. *)
Definition afterKey : regex :=
  Cat (Opt (one 34)) (Cat (Group 1 (Plus boundaryUnit)) (Opt (one 34))).

(** The text of a header value before its first [;]. *)
Definition mediaType (v : jsstring) : jsstring := takeWhile (allBut 59) v.

(** The token of a [boundary=] parameter that starts here: after an
    optional double quote, the longest run of code units other than the
    double quote, [;] and white space, when it is not empty. *)
Definition boundaryToken (s : jsstring) : option jsstring :=
  let s := match s with
           | c :: rest => if c =? 34 then rest else s
           | [] => s
           end in
  match takeWhile boundaryUnit s with
  | [] => None
  | token => Some token
  end.

(** The first place of a header value where [boundary=], in any letter
    case, is followed by a token, and that token. *)
Fixpoint boundaryParameter (v : jsstring) : option jsstring :=
  match
    (if startsWith (lowerAscii v) (js "boundary=")
     then boundaryToken (drop 9 v) else None)
  with
  | Some token => Some token
  | None =>
      match v with
      | [] => None
      | _ :: v' => boundaryParameter v'
      end
  end.

(** *** Header blocks *)

(** A physical line that begins with white space continues the header
    before it. *)
Definition beginsWithSpace (line : jsstring) : bool :=
  match line with
  | c :: _ => isWhiteSpace c
  | [] => false
  end.

(** A line [name:value]: the name is the text before the first colon and
    is not empty; the value is what follows the colon and the white space
    after it, up to the end of the line or a line terminator. *)
Definition headerLine (line : jsstring) : option (jsstring * jsstring) :=
  match takeWhile (allBut 58) line with
  | [] => None
  | name =>
      match dropWhile (allBut 58) line with
      | [] => None
      | _ :: rest => Some (name, takeWhile anyUnit (dropWhile isWhiteSpace rest))
      end
  end.

(** The value of a folded header: the value of its first line, then one
    space and the trimmed line for every continuation line. *)
Definition foldedValue (value : jsstring) (continuations : list jsstring) : jsstring :=
  value ++ concat (map (fun line => js " " ++ trim line) continuations).

(** The value as the specification words it: the pieces joined by a
    single space, and trimmed. *)
Definition foldedValueClaimed (value : jsstring) (continuations : list jsstring)
  : jsstring :=
  trim (join (map trim (value :: continuations)) (js " ")).

(** The lines behind a folded header leave its entry alone: while the
    header is still the current one ([attached]) no line continues it, and
    no line declares a header of its name. *)
Fixpoint undisturbed (name : jsstring) (attached : bool) (lines : list jsstring)
  : bool :=
  match lines with
  | [] => true
  | line :: more =>
      if beginsWithSpace line then negb attached && undisturbed name attached more
      else
        match headerLine line with
        | Some (name', _) =>
            negb (bool_decide (name' = name)) && undisturbed name false more
        | None => undisturbed name attached more
        end
  end.

(** The state of the header loop in which the entry of [name] is [value]
    once flushed: it is the current header still ([attached]), or it is in
    the object and the current header is another one. *)
Definition held (name value : jsstring) (attached : bool) (st : blockState) : Prop :=
  if attached then currentHeader st = name ∧ currentValue st = value
  else currentHeader st ≠ name ∧ parsed st !! name = Some value.

(** *** The parts of a multipart body, line by line *)

(** The value of the last line that declares the header [name]. *)
Fixpoint lastDeclared (name : jsstring) (lines : list jsstring) : option jsstring :=
  match lines with
  | [] => None
  | line :: more =>
      match lastDeclared name more with
      | Some value => Some value
      | None =>
          match headerLine line with
          | Some (name', value) =>
              if bool_decide (name' = name) then Some value else None
          | None => None
          end
      end
  end.

(** A header of a part: the value of the last line of the local header
    block that declares it, and the fallback when no line does or the
    value is empty. *)
Definition localHeader (name fallback part : jsstring) : jsstring :=
  match lastDeclared name (split (partHeadersText part) CRLF) with
  | Some value => if truthy value then value else fallback
  | None => fallback
  end.

Definition localContentType (part : jsstring) : jsstring :=
  localHeader (js "Content-Type") (js "text/plain") part.

Definition localEncoding (part : jsstring) : jsstring :=
  localHeader (js "Content-Transfer-Encoding") (js "7bit") part.

(** The content of a part, decoded by its local encoding, and the
    warnings of that decoding. *)
Definition localDecoded (part : jsstring) : jsstring :=
  returned (decodeBody (partContent part) (Some (localEncoding part))).

Definition localWarnings (part : jsstring) : list warning :=
  (decodeBody (partContent part) (Some (localEncoding part))).2.

(** Whether the local content type of a part contains a type string. *)
Definition typeContains (type part : jsstring) : bool :=
  includes (localContentType part) type.

(** The decoded content of the last of the parts that [p] selects, the
    empty string when it selects none. *)
Definition lastWhere (p : jsstring -> bool) (parts : list jsstring) : jsstring :=
  default [] (last (localDecoded <$> filter (fun part => p part = true) parts)).

(** *** Text without tags, white space in normal form *)

(** A text without a tag: no [<] has a [>] anywhere behind it. *)
Fixpoint tagFree (s : jsstring) : bool :=
  match s with
  | [] => true
  | c :: rest =>
      negb ((c =? 60) && existsb (fun d => d =? 62) rest) && tagFree rest
  end.

(** Every white space is a space, and none stands directly before
    another. *)
Fixpoint singleSpaced (s : jsstring) : bool :=
  match s with
  | [] => true
  | c :: rest =>
      (negb (isWhiteSpace c) || ((c =? 32) && negb (beginsWithSpace rest)))
      && singleSpaced rest
  end.

(** *** The two paths of the body display *)

(** The structured path on what the raw path extracts: the header block
    before the first CR LF CR LF parsed by [parseBlock], every header a
    single string, and the text behind it as the body. *)
Definition structuredOnRaw (raw : list N) : JS display :=
  let rawText := decodeUint8Array raw in
  match split rawText CRLFCRLF with
  | headerText :: ((_ :: _) as rest) =>
      contentInfo ← getContentInfo (Single <$> parseBlock headerText);
      renderBody contentInfo (join rest CRLFCRLF)
  | _ => mret CouldNotExtract
  end.

(** *** The reference encoder of the round trip *)

Module Reference.

(** The code points of a string, as an encoder reads it: a surrogate pair
    is one code point, a lone surrogate becomes U+FFFD. *)
Definition isHighSurrogate (c : N) : bool := (55296 <=? c) && (c <=? 56319).
Definition isLowSurrogate (c : N) : bool := (56320 <=? c) && (c <=? 57343).

Fixpoint codePoints (s : jsstring) : list N :=
  match s with
  | [] => []
  | c :: rest =>
      if isHighSurrogate c then
        match rest with
        | d :: rest' =>
            if isLowSurrogate d
            then 65536 + (c - 55296) * 1024 + (d - 56320) :: codePoints rest'
            else 65533 :: codePoints rest
        | [] => [65533]
        end
      else if isLowSurrogate c then 65533 :: codePoints rest
      else c :: codePoints rest
  end.

(** A string of 16-bit code units in which every surrogate is half of a
    pair: the strings that UTF-8 can represent. *)
Fixpoint isWellFormed (s : jsstring) : bool :=
  match s with
  | [] => true
  | c :: rest =>
      if isHighSurrogate c then
        match rest with
        | d :: rest' => isLowSurrogate d && isWellFormed rest'
        | [] => false
        end
      else (c <? 65536) && negb (isLowSurrogate c) && isWellFormed rest
  end.

(** A Unicode scalar value: a code point that is not a surrogate. *)
Definition isScalar (cp : N) : bool :=
  (cp <? 1114112) && negb ((55296 <=? cp) && (cp <=? 57343)).

(** UTF-8 of a code point *)
Definition utf8 (cp : N) : list N :=
  if cp <? 128 then [cp]
  else if cp <? 2048 then [192 + cp / 64; 128 + cp mod 64]
  else if cp <? 65536 then
    [224 + cp / 4096; 128 + (cp / 64) mod 64; 128 + cp mod 64]
  else
    [240 + cp / 262144; 128 + (cp / 4096) mod 64; 128 + (cp / 64) mod 64;
     128 + cp mod 64].

Definition utf8Bytes (s : jsstring) : list N := concat (map utf8 (codePoints s)).

(** The base64 alphabet *)
Definition digit (v : N) : N :=
  if v <? 26 then 65 + v
  else if v <? 52 then 71 + v
  else if v <? 62 then v - 4
  else if v =? 62 then 43
  else 47.

(** The six-bit groups of a byte sequence, the last one filled with zero
    bits. *)
Fixpoint sextets (bytes : list N) : list N :=
  match bytes with
  | [] => []
  | a :: more =>
      match more with
      | [] => [a / 4; (a mod 4) * 16]
      | b :: more' =>
          match more' with
          | [] => [a / 4; (a mod 4) * 16 + b / 16; (b mod 16) * 4]
          | c :: rest =>
              a / 4 :: (a mod 4) * 16 + b / 16 :: (b mod 16) * 4 + c / 64
              :: c mod 64 :: sextets rest
          end
      end
  end.

Definition padding (bytes : list N) : jsstring :=
  match (length bytes mod 3)%nat with
  | 0%nat => []
  | 1%nat => [61; 61]
  | _ => [61]
  end.

(** Standard base64 of a byte sequence *)
Definition base64 (bytes : list N) : jsstring :=
  map digit (sextets bytes) ++ padding bytes.

(** Standard base64 of the UTF-8 bytes of a string *)
Definition encodeBase64 (s : jsstring) : jsstring := base64 (utf8Bytes s).

End Reference.
(** * Examples *)

Example js_literal : js "a\r\n\x22\u00e9" = [97; 13; 10; 34; 233].
Proof. reflexivity. Qed.

Example split_crlf :
  split (js "Subject: Hello\r\n World\r\n") (js "\r\n")
  = [js "Subject: Hello"; js " World"; js ""].
Proof. reflexivity. Qed.

Example split_overlap : split (js "aaaa") (js "aa") = [js ""; js ""; js ""].
Proof. reflexivity. Qed.

Example trim_both : trim (js " \t a b \r\n") = js "a b".
Proof. reflexivity. Qed.

Example exec_boundary :
  (exec reBoundary (js "multipart/mixed; Boundary=\x22abc123\x22; x=y")
     ≫= group 1) = Some (js "abc123").
Proof. reflexivity. Qed.

Example exec_header :
  (fun m => (group 1 m, group 2 m)) <$> exec reHeaderLine (js "Subject:  Hello\nx")
  = Some (Some (js "Subject"), Some (js "Hello")).
Proof. reflexivity. Qed.

Example replace_tags :
  replaceAll reTag (fun _ => js " ") (js "<p>Hi <<b>x</b> > y") = js " Hi  x  > y".
Proof. reflexivity. Qed.

Example decodeBase64_hello :
  decodeBase64 (js "SGVs\r\nbG8=") = (Normal (js "Hello"), []).
Proof. reflexivity. Qed.

Example decodeBase64_bad :
  decodeBase64 (js "SGVsbG8") = (Normal (js "Hello"), []).
Proof. reflexivity. Qed.

Example decodeBase64_fail :
  decodeBase64 (js "SGVsbG8=a") =
  (Normal (js "SGVsbG8=a"), [Warning (js "Failed to decode base64:") InvalidCharacterError]).
Proof. reflexivity. Qed.

Example utf8_euro :
  TextDecoder_decode [226; 130; 172; 240; 159; 152; 128; 255; 237; 160; 128]
  = [8364; 55357; 56832; 65533; 65533; 65533; 65533].
Proof. reflexivity. Qed.

Example qp_example :
  decodeBody (js "caf=C3=A9 =\r\nx=3d") (Some (js "Quoted-Printable"))
  = (Normal (js "caf\xc3\xa9 x=3d"), []).
Proof. reflexivity. Qed.

Example getContentInfo_mixed :
  getContentInfo {[ js "Content-Type" := Single (js "multipart/mixed; boundary=\x22abc123\x22") ]}
  = (Normal (ContentInfo (js "multipart/mixed") (js "7bit") (Some (js "abc123"))), []).
Proof. vm_compute. reflexivity. Qed.

Example parseBlock_subject :
  parseBlock (js "Subject: Hello\r\n World\r\n") = {[ js "Subject" := js "Hello World" ]}.
Proof. vm_compute. reflexivity. Qed.

Example multipart_two :
  parseMultipartMessage
    (js "--b\r\nContent-Type: text/plain\r\n\r\nHello\r\n--b\r\nContent-Type: text/html\r\n\r\n<p>Hi</p>\r\n--b--\r\n")
    (js "b") = (Normal (js "Hello\r\n"), []).
Proof. vm_compute. reflexivity. Qed.

Example rawPath_upper :
  rawPath (js "Content-Type: Multipart/Alternative; boundary=b\r\n\r\n--b\r\nContent-Type: text/plain\r\n\r\nHello\r\n--b--\r\n")
  = (Normal (Shown (js "--b\r\nContent-Type: text/plain\r\n\r\nHello\r\n--b--\r\n")), []).
Proof. vm_compute. reflexivity. Qed.


Example encodeBase64_hello : Reference.encodeBase64 (js "Hello") = js "SGVsbG8=".
Proof. reflexivity. Qed.

Example encodeBase64_euro :
  Reference.encodeBase64 (js "\u20ac \ud83d\ude00") = js "4oKsIPCfmIA=".
Proof. reflexivity. Qed.
(** * Properties *)

(** ** The transfer decoder *)

Lemma mapM_sextet_None (data : jsstring) :
  mapM Base64.sextet data = None ↔ ∃ c, c ∈ data ∧ Base64.sextet c = None.
Proof.
  rewrite eq_None_not_Some, mapM_is_Some. split.
  - intros H. apply not_Forall_Exists in H; [|apply _].
    apply Exists_exists in H as (c & Hin & Hc). exists c. split; [done|].
    simpl in Hc. by apply eq_None_not_Some.
  - intros (c & Hin & Hc) H. rewrite Forall_forall in H.
    specialize (H c Hin). simpl in H. rewrite Hc in H. by destruct H.
Qed.

Lemma forgivingDecode_None (body : jsstring) :
  Base64.forgivingDecode body = None ↔ undecodable body.
Proof.
  unfold Base64.forgivingDecode, undecodable. cbv zeta.
  set (data := Base64.stripPadding _).
  destruct (Nat.eqb_spec (length data mod 4) 1) as [E|E].
  - split; [by left|done].
  - rewrite fmap_None, mapM_sextet_None. split; [by right|].
    by intros [?|?].
Qed.

Lemma decodeBase64_returns (str : jsstring) :
  ∃ s log, decodeBase64 str = (Normal s, log).
Proof.
  unfold decodeBase64, atob.
  destruct (Base64.forgivingDecode str); simpl; eauto.
Qed.

Lemma decodeBody_returns (body : jsstring) (enc : option jsstring) :
  ∃ s log, decodeBody body enc = (Normal s, log).
Proof.
  destruct enc as [enc|]; simpl; [|by eauto].
  destruct (truthy enc); simpl; [|by eauto].
  repeat case_bool_decide; eauto using decodeBase64_returns.
Qed.

Lemma decodeBase64_fallback (str : jsstring) :
  undecodable str →
  decodeBase64 str
  = (Normal str, [Warning (js "Failed to decode base64:") InvalidCharacterError]).
Proof.
  intros H%forgivingDecode_None. unfold decodeBase64, atob. by rewrite H.
Qed.

(** C7. [decodeBody] returns a string for every body and every encoding
    argument, it never throws; and when the encoding is "base64" up to
    letter case and the body is not decodable base64 once white space is
    removed (a code unit outside the alphabet, or a length that no padding
    explains), one warning is logged and the result is the body itself,
    unchanged. *)
Theorem decodeBody_never_throws_base64_fallback
    (body : jsstring) (encoding : option jsstring) :
  (∃ s log, decodeBody body encoding = (Normal s, log)) ∧
  (∀ enc, encoding = Some enc → toLowerCase enc = js "base64" →
     undecodable body →
     decodeBody body encoding
     = (Normal body,
        [Warning (js "Failed to decode base64:") InvalidCharacterError])).
Proof.
  split; [apply decodeBody_returns|].
  intros enc -> Henc Hbad. unfold decodeBody.
  destruct enc as [|c enc]; [done|]. cbn [truthy negb].
  rewrite Henc. rewrite bool_decide_eq_true_2 by done.
  by apply decodeBase64_fallback.
Qed.

Lemma decodeBody_never_throws_base64_fallback_witness :
  (∃ s log, decodeBody (js "SGVsbG8=a") (Some (js "Base64")) = (Normal s, log)) ∧
  decodeBody (js "SGVsbG8=a") (Some (js "Base64"))
  = (Normal (js "SGVsbG8=a"),
     [Warning (js "Failed to decode base64:") InvalidCharacterError]).
Proof.
  destruct (decodeBody_never_throws_base64_fallback
              (js "SGVsbG8=a") (Some (js "Base64"))) as [H1 H2].
  split; [exact H1|].
  apply (H2 (js "Base64")); [reflexivity|reflexivity|].
  right. exists 61. split; [|reflexivity].
  vm_compute. apply list_elem_of_In. simpl. tauto.
Defined.
(** ** The matcher *)

Section Matcher.

Implicit Types (r : regex) (p : charset) (k : cont) (inp s : jsstring)
  (caps : captures).

Lemma dropWhile_takeWhile p s : takeWhile p s ++ dropWhile p s = s.
Proof. induction s as [|c s IH]; simpl; [done|]. destruct (p c); simpl; by f_equal. Qed.

Lemma takeWhile_all p s : forallb p (takeWhile p s) = true.
Proof. induction s as [|c s IH]; simpl; [done|]. destruct (p c) eqn:E; simpl; [|done]. by rewrite E. Qed.

Lemma dropWhile_cons p s c rest : dropWhile p s = c :: rest → p c = false.
Proof.
  induction s as [|d s IH]; simpl; [done|].
  destruct (p d) eqn:E; [done|]. by intros [= <- <-].
Qed.

Lemma matchM_Cat a b k inp caps :
  matchM (Cat a b) k inp caps = matchM a (matchM b k) inp caps.
Proof. reflexivity. Qed.

Lemma matchM_Chr p k inp caps :
  matchM (Chr p) k inp caps
  = match inp with
    | c :: rest => if p c then k rest caps else None
    | [] => None
    end.
Proof. reflexivity. Qed.

Lemma matchM_Group i r k inp caps :
  matchM (Group i r) k inp caps
  = matchM r (fun rest caps' =>
                k rest ((i, take (length inp - length rest) inp) :: caps'))
      inp caps.
Proof. reflexivity. Qed.

Lemma matchM_Star p k inp caps : matchM (Star p) k inp caps = starM p k inp caps.
Proof. reflexivity. Qed.

(** A continuation that always answers gets the longest run. *)
Lemma starM_total (p : charset) (k : cont) (inp : jsstring) (caps : captures) :
  (∀ rest caps', is_Some (k rest caps')) →
  starM p k inp caps = k (dropWhile p inp) caps.
Proof.
  intros Hk. induction inp as [|c inp IH]; simpl; [done|].
  destruct (p c); [|done]. rewrite IH.
  by destruct (Hk (dropWhile p inp) caps) as [res ->].
Qed.

Lemma cut_app (s1 rest : jsstring) :
  take (length (s1 ++ rest) - length rest) (s1 ++ rest) = s1.
Proof. by rewrite length_app, Nat.add_sub, take_app_length. Qed.

Lemma cut_dropWhile (p : charset) (s : jsstring) :
  take (length s - length (dropWhile p s)) s = takeWhile p s.
Proof.
  rewrite <- (dropWhile_takeWhile p s) at 1 3. apply cut_app.
Qed.

(** When what follows cannot begin with a unit of the set, nothing is
    given back: the star is the longest run here too. *)
Lemma starM_longest p k inp caps :
  (∀ c rest caps', p c = true → k (c :: rest) caps' = None) →
  starM p k inp caps = k (dropWhile p inp) caps.
Proof.
  intros Hk. induction inp as [|c inp IH]; simpl; [done|].
  destruct (p c) eqn:E; [|done]. rewrite IH.
  destruct (k (dropWhile p inp) caps) eqn:Ek; [done|]. by apply Hk.
Qed.

Lemma starM_sound p k inp caps res :
  starM p k inp caps = Some res →
  ∃ s1 s2, inp = s1 ++ s2 ∧ forallb p s1 = true ∧ k s2 caps = Some res.
Proof.
  revert res. induction inp as [|c inp IH]; simpl; intros res H.
  - by exists [], [].
  - destruct (p c) eqn:E; [|by exists [], (c :: inp)].
    destruct (starM p k inp caps) as [res'|] eqn:E'.
    + destruct (IH res' eq_refl) as (s1 & s2 & -> & H1 & H2).
      exists (c :: s1), s2. simpl. rewrite E, H1. by simplify_eq.
    + by exists [], (c :: inp).
Qed.

Lemma matchM_sound r : ∀ k inp caps res,
  matchM r k inp caps = Some res →
  ∃ s1 s2 caps', inp = s1 ++ s2 ∧ lang r s1 ∧ k s2 caps' = Some res.
Proof.
  induction r as [|p|a IHa b IHb|p|p|i r IH]; simpl; intros k inp caps res H.
  - by exists [], inp, caps.
  - destruct inp as [|c inp]; [done|]. destruct (p c) eqn:E; [|done].
    exists [c], inp, caps. eauto.
  - apply IHa in H as (s1 & s' & caps1 & -> & H1 & H).
    apply IHb in H as (s2 & s3 & caps2 & -> & H2 & H).
    exists (s1 ++ s2), s3, caps2. rewrite <- (assoc_L (++)). eauto 10.
  - apply starM_sound in H as (s1 & s2 & -> & H1 & H2). eauto 10.
  - destruct inp as [|c inp]; [by exists [], [], caps; eauto|].
    destruct (p c) eqn:E; [|by exists [], (c :: inp), caps; eauto].
    destruct (k inp caps) eqn:Ek.
    + exists [c], inp, caps. simplify_eq. eauto 10.
    + exists [], (c :: inp), caps. eauto.
  - apply IH in H as (s1 & s2 & caps' & -> & H1 & H). eauto 10.
Qed.

Lemma starM_complete p k s1 s2 caps :
  forallb p s1 = true → is_Some (k s2 caps) →
  is_Some (starM p k (s1 ++ s2) caps).
Proof.
  intros H1 Hk. induction s1 as [|c s1 IH]; simpl.
  - destruct s2 as [|c s2]; simpl; [done|].
    destruct (p c); [|done]. by destruct (starM p k s2 caps).
  - simpl in H1. apply andb_prop in H1 as [-> H1].
    destruct (IH H1) as [res ->]. eauto.
Qed.

Lemma matchM_complete r : ∀ k s1 s2 caps,
  lang r s1 → (∀ caps', is_Some (k s2 caps')) →
  is_Some (matchM r k (s1 ++ s2) caps).
Proof.
  induction r as [|p|a IHa b IHb|p|p|i r IH]; simpl; intros k s1 s2 caps H Hk.
  - by subst.
  - destruct H as (c & -> & E). simpl. rewrite E. apply Hk.
  - destruct H as (sa & sb & -> & Ha & Hb). rewrite <- (assoc_L (++)).
    apply IHa; [done|]. intros caps'. by apply IHb.
  - by apply starM_complete.
  - destruct H as [->|(c & -> & E)]; simpl.
    + destruct s2 as [|c s2]; [done|]. destruct (p c); [|done].
      by destruct (k s2 caps).
    + rewrite E. destruct (k s2 caps) eqn:Ek; [done|].
      specialize (Hk caps). rewrite Ek in Hk. by destruct Hk.
  - apply IH; [done|]. intros caps'. apply Hk.
Qed.

(** Whatever the continuation is given is an end piece of the input. *)
Lemma matchAt_Some r inp rest m :
  matchAt r inp = Some (rest, m) →
  inp = matched m ++ rest ∧ lang r (matched m).
Proof.
  unfold matchAt. destruct (matchM r accept inp []) as [[rest' caps]|] eqn:E; [|done].
  intros. simplify_eq. simpl.
  apply matchM_sound in E as (s1 & s2 & caps' & -> & H1 & H2).
  unfold accept in H2. simplify_eq.
  rewrite length_app, Nat.add_sub, take_app_length. done.
Qed.

Lemma matchAt_is_Some r inp :
  is_Some (matchAt r inp) ↔ ∃ s1 s2, inp = s1 ++ s2 ∧ lang r s1.
Proof.
  split.
  - intros [[rest m] H]. apply matchAt_Some in H as [-> H]. eauto.
  - intros (s1 & s2 & -> & H). unfold matchAt.
    destruct (matchM_complete r accept s1 s2 [] H) as [[rest caps] ->]; [|done].
    intros caps'. by eexists.
Qed.

Lemma search_Some r inp m :
  search r inp = Some m →
  ∃ pre rest, inp = pre ++ matched m ++ rest ∧ lang r (matched m)
              ∧ matchAt r (matched m ++ rest) = Some (rest, m).
Proof.
  induction inp as [|c inp IH]; simpl.
  - destruct (matchAt r []) as [[rest m']|] eqn:E; [|done].
    intros. simplify_eq. destruct (matchAt_Some _ _ _ _ E) as [Hinp H].
    exists [], rest. simpl. by rewrite <- Hinp.
  - destruct (matchAt r (c :: inp)) as [[rest m']|] eqn:E.
    + intros. simplify_eq. destruct (matchAt_Some _ _ _ _ E) as [Hinp H].
      exists [], rest. simpl. by rewrite <- Hinp.
    + intros (pre & rest & -> & H)%IH. by exists (c :: pre), rest.
Qed.

Lemma search_is_Some r inp :
  is_Some (search r inp) ↔ ∃ pre s1 post, inp = pre ++ s1 ++ post ∧ lang r s1.
Proof.
  split.
  - intros [m H]. apply search_Some in H as (pre & rest & -> & H & _). eauto.
  - intros (pre & s1 & post & -> & H).
    assert (is_Some (matchAt r (s1 ++ post))) as Hm
      by (apply matchAt_is_Some; eauto).
    clear H. induction pre as [|c pre IH]; simpl.
    + destruct Hm as [[rest m] E]. destruct s1, post; simpl in *; rewrite E; eauto.
    + destruct (matchAt r (c :: pre ++ s1 ++ post)) as [[??]|]; eauto.
Qed.

(** *** Global replacement *)

Lemma replaceGo_skip r f n inp :
  (n ≤ length inp)%nat →
  replaceGo r f n inp = replaceGo r f 0 (drop n inp).
Proof.
  revert inp. induction n as [|n IH]; intros inp Hn; [done|].
  destruct inp as [|c inp]; simpl in *; [lia|]. apply IH. lia.
Qed.

Lemma replaceAll_nil r f :
  replaceAll r f [] = match matchAt r [] with
                      | Some (_, m) => f m
                      | None => []
                      end.
Proof.
  unfold replaceAll. simpl. destruct (matchAt r []) as [[??]|]; [|done].
  by rewrite app_nil_r.
Qed.

(** No match at this place: the code unit is kept. *)
Lemma replaceAll_keep r f c inp :
  matchAt r (c :: inp) = None →
  replaceAll r f (c :: inp) = c :: replaceAll r f inp.
Proof. unfold replaceAll. simpl. by intros ->. Qed.

(** A non-empty match at this place: it is replaced and the search goes
    on behind it. *)
Lemma replaceAll_hit r f inp rest m :
  matchAt r inp = Some (rest, m) → matched m ≠ [] →
  replaceAll r f inp = f m ++ replaceAll r f rest.
Proof.
  intros E Hne. pose proof (matchAt_Some _ _ _ _ E) as [Hinp _].
  unfold replaceAll. destruct inp as [|c inp].
  - by destruct (matched m).
  - simpl. rewrite E. f_equal.
    destruct (matched m) as [|c' s] eqn:Em; [done|]. simpl in *.
    simplify_eq. rewrite replaceGo_skip by (rewrite length_app; lia).
    by rewrite drop_app_length.
Qed.

End Matcher.
(** ** Quoted-printable *)

Lemma sub_length_2 (rest : jsstring) :
  (S (S (length rest)) - length rest = 2)%nat.
Proof. lia. Qed.

Lemma sub_length_3 (rest : jsstring) :
  (S (S (S (length rest))) - length rest = 3)%nat.
Proof. lia. Qed.

Lemma matchAt_softBreak_hit (rest : jsstring) :
  matchAt reSoftBreak (61 :: 13 :: 10 :: rest)
  = Some (rest, Result [61; 13; 10] []).
Proof. unfold matchAt. simpl. by rewrite sub_length_3. Qed.

Lemma matchAt_softBreak_miss (inp : jsstring) :
  (∀ rest, inp ≠ 61 :: 13 :: 10 :: rest) → matchAt reSoftBreak inp = None.
Proof.
  intros H. apply eq_None_not_Some. intros (s1 & s2 & -> & Hl)%matchAt_is_Some.
  simpl in Hl. unfold one in Hl.
  destruct Hl as (? & ? & -> & (c1 & -> & ->%N.eqb_eq) & ? & ? & -> &
                  (c2 & -> & ->%N.eqb_eq) & ? & ? & -> &
                  (c3 & -> & ->%N.eqb_eq) & ->).
  by apply (H s2).
Qed.

Lemma replaceAll_softBreaks (s : jsstring) :
  replaceAll reSoftBreak (fun _ => []) s = dropSoftBreaks s.
Proof.
  remember (length s) as n eqn:Hn. revert s Hn.
  induction n as [n IH] using lt_wf_ind. intros s Hn.
  destruct s as [|c rest].
  { rewrite replaceAll_nil. by rewrite matchAt_softBreak_miss. }
  assert (replaceAll reSoftBreak (λ _, []) rest = dropSoftBreaks rest) as Hrest
    by (apply (IH (length rest)); simpl in *; [lia|done]).
  destruct rest as [|c1 [|c2 rest']].
  1,2: rewrite replaceAll_keep by (by apply matchAt_softBreak_miss);
       simpl; by rewrite Hrest.
  cbn [dropSoftBreaks]. fold (dropSoftBreaks (c1 :: c2 :: rest')).
  destruct ((c =? 61) && (c1 =? 13) && (c2 =? 10)) eqn:E.
  - apply andb_prop in E as [[->%N.eqb_eq ->%N.eqb_eq]%andb_prop ->%N.eqb_eq].
    rewrite (replaceAll_hit _ _ _ _ _ (matchAt_softBreak_hit rest')) by done.
    simpl. apply (IH (length rest')); simpl in *; [lia|done].
  - rewrite replaceAll_keep; [by rewrite Hrest|].
    apply matchAt_softBreak_miss. intros rest0 ?. simplify_eq.
Qed.

Lemma isHexUpper_hexval (h : N) : isHexUpper h = true → Lit.hexval h < 16.
Proof.
  unfold isHexUpper, Lit.hexval. intros H.
  destruct (N.leb_spec 48 h), (N.leb_spec h 57), (N.leb_spec 65 h),
    (N.leb_spec h 70); simpl in *; try lia; done.
Qed.

Lemma matchAt_escape_hit (h1 h2 : N) (rest : jsstring) :
  isHexUpper h1 = true → isHexUpper h2 = true →
  matchAt reEscape (61 :: h1 :: h2 :: rest)
  = Some (rest, Result [61; h1; h2] [(1%nat, [h1; h2])]).
Proof.
  intros E1 E2. unfold matchAt. simpl. rewrite E1, E2. simpl.
  by rewrite sub_length_2, sub_length_3.
Qed.

Lemma matchAt_escape_miss (inp : jsstring) :
  (∀ h1 h2 rest, inp = 61 :: h1 :: h2 :: rest →
     isHexUpper h1 && isHexUpper h2 = false) →
  matchAt reEscape inp = None.
Proof.
  intros H. apply eq_None_not_Some. intros (s1 & s2 & -> & Hl)%matchAt_is_Some.
  simpl in Hl. unfold one in Hl.
  destruct Hl as (? & ? & -> & (c & -> & ->%N.eqb_eq) & ? & ? & -> &
                  (h1 & -> & E1) & (h2 & -> & E2)).
  specialize (H h1 h2 s2 eq_refl). by rewrite E1, E2 in H.
Qed.

Lemma escape_value (h1 h2 : N) :
  isHexUpper h1 = true → isHexUpper h2 = true →
  fromCharCode (parseHex [h1; h2]) = [16 * Lit.hexval h1 + Lit.hexval h2].
Proof.
  intros E1%isHexUpper_hexval E2%isHexUpper_hexval.
  unfold fromCharCode, parseHex. simpl. f_equal.
  rewrite N.mod_small; lia.
Qed.

Lemma replaceAll_escapes (s : jsstring) :
  replaceAll reEscape
    (fun m => fromCharCode (parseHex (default [] (group 1 m)))) s
  = unescapeUpper s.
Proof.
  remember (length s) as n eqn:Hn. revert s Hn.
  induction n as [n IH] using lt_wf_ind. intros s Hn.
  destruct s as [|c rest].
  { rewrite replaceAll_nil. by rewrite matchAt_escape_miss. }
  match goal with |- replaceAll _ ?f _ = _ => set (f0 := f) in * end.
  assert (replaceAll reEscape f0 rest = unescapeUpper rest) as Hrest
    by (apply (IH (length rest)); simpl in *; [lia|done]).
  destruct rest as [|h1 [|h2 rest']].
  1,2: rewrite replaceAll_keep by (by apply matchAt_escape_miss);
       simpl; by rewrite Hrest.
  cbn [unescapeUpper]. fold (unescapeUpper (h1 :: h2 :: rest')).
  destruct ((c =? 61) && isHexUpper h1 && isHexUpper h2) eqn:E.
  - apply andb_prop in E as [[->%N.eqb_eq E1]%andb_prop E2].
    rewrite (replaceAll_hit _ _ _ _ _ (matchAt_escape_hit _ _ rest' E1 E2)) by done.
    unfold f0 at 1. cbn [group groups RegExp.assoc Nat.eqb default from_option id].
    rewrite escape_value by done. simpl. f_equal.
    apply (IH (length rest')); simpl in *; [lia|done].
  - rewrite replaceAll_keep; [by rewrite Hrest|].
    apply matchAt_escape_miss. intros ? ? ? ?. simplify_eq.
    simpl in E. done.
Qed.

Lemma decodeQuotedPrintable_eq (str : jsstring) :
  decodeQuotedPrintable str
  = (Normal
       (replaceAll reEscape
          (fun m => fromCharCode (parseHex (default [] (group 1 m))))
          (replaceAll reSoftBreak (fun _ => []) str)), []).
Proof. reflexivity. Qed.

Lemma decodeBody_as_quoted_printable (body enc : jsstring) :
  toLowerCase enc = js "quoted-printable" →
  decodeBody body (Some enc) = decodeQuotedPrintable body.
Proof.
  intros H. unfold decodeBody. destruct enc as [|c enc]; [done|].
  cbn [truthy negb]. rewrite H.
  rewrite bool_decide_eq_false_2 by (by vm_compute).
  by rewrite bool_decide_eq_true_2.
Qed.

(** C4, as the code has it. For every string [s], decoding it as
    "quoted-printable" returns, without a warning, [s] with every [=]
    that is directly followed by CR LF removed together with the CR LF
    (an [=] before a lone LF or CR stays), and then, from the left, every
    [=XX] whose two digits are out of [0-9A-F] replaced by the code unit of
    that value; an [=] before anything else, lower-case hexadecimal digits
    included, is kept. *)
Theorem decodeBody_quoted_printable (s : jsstring) :
  decodeBody s (Some (js "quoted-printable"))
  = (Normal (unescapeUpper (dropSoftBreaks s)), []).
Proof.
  rewrite (decodeBody_as_quoted_printable s (js "quoted-printable")) by done.
  rewrite decodeQuotedPrintable_eq.
  by rewrite replaceAll_softBreaks, replaceAll_escapes.
Qed.

(** C4 as stated fails: the escape [=c3] is written with hexadecimal
    digits, and the code keeps it. *)
Lemma decodeBody_quoted_printable_lower_case :
  decodeBody (js "=c3") (Some (js "quoted-printable")) = (Normal (js "=c3"), [])
  ∧ quotedPrintableClaimed (js "=c3") = js "\xc3"
  ∧ decodeBody (js "=c3") (Some (js "quoted-printable"))
    ≠ (Normal (quotedPrintableClaimed (js "=c3")), []).
Proof. by vm_compute. Qed.

(** Text without [=] is its own decoding. *)
Lemma dropSoftBreaks_keep (c : N) (rest : jsstring) :
  (c =? 61) = false → dropSoftBreaks (c :: rest) = c :: dropSoftBreaks rest.
Proof. intros H. destruct rest as [|c1 [|c2 rest']]; simpl; by rewrite ?H. Qed.

Lemma unescapeUpper_keep (c : N) (rest : jsstring) :
  (c =? 61) = false → unescapeUpper (c :: rest) = c :: unescapeUpper rest.
Proof. intros H. destruct rest as [|c1 [|c2 rest']]; simpl; by rewrite ?H. Qed.
(** ** [split] and [includes] *)

Lemma startsWith_nil_l (sep : jsstring) : sep ≠ [] → startsWith [] sep = false.
Proof. by destruct sep. Qed.

Lemma splitGo_cons (sep cur s : jsstring) (skip : nat) :
  ∃ piece more, splitGo sep skip cur s = piece :: more.
Proof.
  revert skip cur. induction s as [|c s IH]; intros skip cur; cbn [splitGo];
    [by eauto|].
  destruct skip; [|by apply IH]. destruct (startsWith (c :: s) sep); eauto.
Qed.

Lemma splitGo_without (sep cur s : jsstring) :
  sep ≠ [] → includes s sep = false → splitGo sep 0 cur s = [rev cur ++ s].
Proof.
  intros Hsep. revert cur. induction s as [|c s IH]; intros cur;
    cbn [splitGo includes].
  - by rewrite app_nil_r.
  - intros [-> H]%orb_false_elim. rewrite IH by done.
    simpl. by rewrite <- (assoc_L (++)).
Qed.

Lemma splitGo_with (sep cur s : jsstring) :
  sep ≠ [] → includes s sep = true →
  ∃ piece piece' more, splitGo sep 0 cur s = piece :: piece' :: more.
Proof.
  intros Hsep. revert cur. induction s as [|c s IH]; intros cur;
    cbn [splitGo includes].
  - rewrite startsWith_nil_l by done. done.
  - destruct (startsWith (c :: s) sep) eqn:E; simpl.
    + intros _. destruct (splitGo_cons sep [] s (pred (length sep))) as (p & m & ->).
      eauto.
    + intros H. by apply IH.
Qed.

(** Without the separator in it, a string is its own single piece. *)
Lemma split_without (s sep : jsstring) :
  sep ≠ [] → includes s sep = false → split s sep = [s].
Proof.
  intros Hsep H. unfold split. destruct sep as [|c sep]; [done|].
  by rewrite splitGo_without.
Qed.

(** With the separator in it, there are at least two pieces. *)
Lemma split_with (s sep : jsstring) :
  sep ≠ [] → includes s sep = true →
  ∃ piece piece' more, split s sep = piece :: piece' :: more.
Proof.
  intros Hsep H. unfold split. destruct sep as [|c sep]; [done|].
  by apply splitGo_with.
Qed.

(** ** The loop over the parts *)

Lemma JS_bind_Normal {A B : Type} (a : A) (log : list warning) (f : A → JS B) :
  ((Normal a, log) ≫= f) = ((f a).1, log ++ (f a).2).
Proof. reflexivity. Qed.

Lemma JS_bind_mret {A B : Type} (a : A) (f : A → JS B) : (mret a ≫= f) = f a.
Proof. unfold mret, JS_ret, mbind, JS_bind. simpl. by destruct (f a). Qed.

Lemma decodeBody_returned (body : jsstring) (enc : option jsstring) :
  ∃ log, decodeBody body enc = (Normal (returned (decodeBody body enc)), log).
Proof.
  destruct (decodeBody_returns body enc) as (s & log & E).
  exists log. by rewrite E.
Qed.

Lemma partStep_skipped (acc : accumulators) (part : jsstring) :
  skipped part = true → partStep acc part = mret acc.
Proof.
  unfold skipped, partStep. intros H.
  destruct (negb (truthy (trim part)) || includes part (js "--")); [done|].
  simpl in H. apply negb_true_iff in H.
  by rewrite split_without.
Qed.

Lemma partStep_processed (acc : accumulators) (part : jsstring) :
  skipped part = false → partStep acc part = processPart acc part.
Proof.
  unfold skipped, partStep. intros H.
  apply orb_false_elim in H as [-> H]. apply negb_false_iff in H.
  unfold processPart, partKindOf, classify, partContentType, partEncoding,
    partContent, partHeadersText.
  destruct (split_with part CRLFCRLF) as (h & c & more & ->); [done..|].
  cbn [length Nat.eqb hd tl].
  destruct (decodeBody_returned (join (c :: more) CRLFCRLF)
              (Some (propertyOr (partHeaders h) (js "Content-Transfer-Encoding")
                       (js "7bit")))) as [log ->].
  rewrite !JS_bind_Normal.
  by repeat match goal with |- context [if ?b then _ else _] => destruct b end.
Qed.

Lemma processPart_returns (acc : accumulators) (part : jsstring) :
  ∃ log, processPart acc part
         = (Normal (store acc (partKindOf part) (partDecoded part)), log).
Proof.
  unfold processPart, partDecoded.
  destruct (decodeBody_returned (partContent part) (Some (partEncoding part)))
    as [log ->].
  exists log. rewrite JS_bind_Normal. simpl. by rewrite app_nil_r.
Qed.

Lemma forOf_skip (parts : list jsstring) (acc : accumulators) :
  forOf partStep parts acc
  = forOf processPart (filter (fun part => negb (skipped part)) parts) acc.
Proof.
  revert acc. induction parts as [|part parts IH]; intros acc; [done|].
  cbn [forOf]. destruct (skipped part) eqn:E.
  - rewrite partStep_skipped, JS_bind_mret by done.
    rewrite filter_cons_False by (rewrite E; auto). apply IH.
  - rewrite partStep_processed by done.
    rewrite filter_cons_True by (rewrite E; cbv; tauto). cbn [forOf].
    destruct (processPart_returns acc part) as [log ->].
    rewrite !JS_bind_Normal. by rewrite IH.
Qed.

(** C3, as the code has it. The fragments of the split on [--boundary]
    that [parseMultipartMessage] passes over are exactly those that are
    empty once trimmed, those that contain [--] anywhere, and those
    without CR LF CR LF; such a fragment leaves the accumulators as they
    are and every other fragment is header-parsed, decoded and classified.
    The first fragment is treated like the others. *)
Theorem partsLoop_skips (body boundary : jsstring) :
  partsLoop body boundary
  = forOf processPart
      (filter (fun part => negb (skipped part)) (fragments body boundary))
      (Accumulators [] [])
  ∧ ∀ acc part,
      partStep acc part
      = if skipped part then mret acc else processPart acc part.
Proof.
  split; [apply forOf_skip|]. intros acc part.
  destruct (skipped part) eqn:E;
    [by apply partStep_skipped|by apply partStep_processed].
Qed.

(** C3 as stated fails: a first fragment with headers, CR LF CR LF and
    content is a part like any other. *)
Lemma partsLoop_reads_first_fragment :
  let body := js "Content-Type: text/plain\r\n\r\nHi\r\n--b--" in
  fragments body (js "b") = [js "Content-Type: text/plain\r\n\r\nHi\r\n"; js "--"]
  ∧ partsLoop body (js "b") = (Normal (Accumulators (js "Hi\r\n") []), [])
  ∧ partsLoopClaimed body (js "b") = (Normal (Accumulators [] []), [])
  ∧ partsLoop body (js "b") ≠ partsLoopClaimed body (js "b").
Proof. by vm_compute. Qed.

(** ** The accumulators *)

Lemma default_last_cons {A : Type} (a x : A) (l : list A) :
  default a (last (x :: l)) = default x (last l).
Proof. rewrite last_cons. by destruct (last l). Qed.

Lemma fold_storePart_text (parts : list jsstring) (acc : accumulators) :
  textContent (fold_left storePart parts acc)
  = default (textContent acc)
      (last (partDecoded <$>
               filter (fun part => bool_decide (partKindOf part = PlainPart)) parts)).
Proof.
  revert acc. induction parts as [|part parts IH]; intros acc; [done|].
  cbn [fold_left]. rewrite IH. unfold storePart at 1.
  destruct (partKindOf part) eqn:E.
  - rewrite filter_cons_True by (rewrite E; cbv; tauto).
    rewrite fmap_cons. by rewrite default_last_cons.
  - by rewrite filter_cons_False by (rewrite E; cbv; tauto).
  - by rewrite filter_cons_False by (rewrite E; cbv; tauto).
Qed.

Lemma fold_storePart_html (parts : list jsstring) (acc : accumulators) :
  htmlContent (fold_left storePart parts acc)
  = default (htmlContent acc)
      (last (partDecoded <$>
               filter (fun part => bool_decide (partKindOf part = HtmlPart)) parts)).
Proof.
  revert acc. induction parts as [|part parts IH]; intros acc; [done|].
  cbn [fold_left]. rewrite IH. unfold storePart at 1.
  destruct (partKindOf part) eqn:E.
  - by rewrite filter_cons_False by (rewrite E; cbv; tauto).
  - rewrite filter_cons_True by (rewrite E; cbv; tauto).
    rewrite fmap_cons. by rewrite default_last_cons.
  - by rewrite filter_cons_False by (rewrite E; cbv; tauto).
Qed.

(** Two text/plain parts: the second alone is returned. *)
Example multipart_overwrite :
  parseMultipartMessage
    (js "--b\r\nContent-Type: text/plain\r\n\r\nfirst\r\n--b\r\nContent-Type: text/plain\r\n\r\nsecond\r\n--b--\r\n")
    (js "b") = (Normal (js "second\r\n"), []).
Proof. by vm_compute. Qed.
(** ** Tags and white space *)

Lemma dropWhile_allBut_nil (c : N) (s : jsstring) :
  dropWhile (allBut c) s = [] ↔ existsb (fun d => d =? c) s = false.
Proof.
  unfold allBut. induction s as [|d s IH]; simpl; [done|].
  destruct (d =? c); simpl; [done|]. apply IH.
Qed.

Lemma matchAt_reTag (inp : jsstring) :
  matchAt reTag inp
  = match inp with
    | c :: rest =>
        if c =? 60 then
          match dropWhile (allBut 62) rest with
          | _ :: rest' =>
              Some (rest', Result (take (length inp - length rest') inp) [])
          | [] => None
          end
        else None
    | [] => None
    end.
Proof.
  unfold matchAt, reTag. rewrite matchM_Cat, matchM_Chr.
  destruct inp as [|c rest]; [done|]. unfold one at 1.
  destruct (c =? 60); [|done].
  rewrite matchM_Cat, matchM_Star, starM_longest.
  2:{ intros d rest' caps Hd. rewrite matchM_Chr. unfold allBut in Hd.
      unfold one. by apply negb_true_iff in Hd as ->. }
  rewrite matchM_Chr. destruct (dropWhile (allBut 62) rest) as [|d rest'] eqn:E;
    [done|].
  apply dropWhile_cons in E. unfold allBut in E. apply negb_false_iff in E.
  unfold one. by rewrite E.
Qed.

Lemma untag_inside (s rest : jsstring) :
  dropWhile (allBut 62) s = 62 :: rest → untag true s = untag false rest.
Proof.
  induction s as [|c s IH]; [done|]. cbn [dropWhile untag]. unfold allBut at 1.
  destruct (c =? 62) eqn:E; cbn [negb].
  - by intros [= _ ->].
  - apply IH.
Qed.

Lemma length_dropWhile (p : N → bool) (s : jsstring) :
  (length (dropWhile p s) ≤ length s)%nat.
Proof.
  induction s as [|c s IH]; simpl; [lia|]. destruct (p c); simpl; lia.
Qed.

Lemma replaceAll_reTag (s : jsstring) :
  replaceAll reTag (fun _ => js " ") s = untag false s.
Proof.
  remember (length s) as n eqn:Hn. revert s Hn.
  induction n as [n IH] using lt_wf_ind. intros s Hn.
  destruct s as [|c rest].
  { by rewrite replaceAll_nil, matchAt_reTag. }
  pose proof (matchAt_reTag (c :: rest)) as Hm. cbn iota in Hm. cbn [untag].
  destruct (c =? 60) eqn:Ec; cbn [andb].
  - destruct (dropWhile (allBut 62) rest) as [|d rest'] eqn:E.
    + apply dropWhile_allBut_nil in E as ->.
      rewrite replaceAll_keep by done. f_equal.
      apply (IH (length rest)); simpl in *; [lia|done].
    + assert (existsb (fun d => d =? 62) rest = true) as ->.
      { apply not_false_iff_true. intros H%dropWhile_allBut_nil. by rewrite H in E. }
      pose proof (length_dropWhile (allBut 62) rest) as Hlen. rewrite E in Hlen.
      simpl in Hlen.
      rewrite (replaceAll_hit _ _ _ _ _ Hm).
      2:{ cbn [matched length]. intros H%(f_equal length).
          rewrite length_take in H. simpl in H. lia. }
      change (js " ") with [32]. cbn [app]. f_equal.
      assert (d = 62) as ->.
      { apply dropWhile_cons in E. unfold allBut in E.
        by apply negb_false_iff, N.eqb_eq in E. }
      rewrite (untag_inside rest rest' E).
      apply (IH (length rest')); simpl in *; [lia|done].
  - rewrite replaceAll_keep by done. f_equal.
    apply (IH (length rest)); simpl in *; [lia|done].
Qed.

Lemma matchAt_reSpaces (inp : jsstring) :
  matchAt reSpaces inp
  = match inp with
    | c :: rest =>
        if isWhiteSpace c then
          Some (dropWhile isWhiteSpace rest,
                Result (take (length inp - length (dropWhile isWhiteSpace rest)) inp) [])
        else None
    | [] => None
    end.
Proof.
  unfold matchAt, reSpaces, Plus. rewrite matchM_Cat, matchM_Chr.
  destruct inp as [|c rest]; [done|]. destruct (isWhiteSpace c); [|done].
  by rewrite matchM_Star, starM_total by (intros; by eexists).
Qed.

Lemma collapse_inside (s : jsstring) :
  collapse true s = collapse false (dropWhile isWhiteSpace s).
Proof.
  induction s as [|c s IH]; [done|]. cbn [collapse dropWhile].
  destruct (isWhiteSpace c) eqn:E; [done|]. cbn [collapse]. by rewrite E.
Qed.

Lemma replaceAll_reSpaces (s : jsstring) :
  replaceAll reSpaces (fun _ => js " ") s = collapse false s.
Proof.
  remember (length s) as n eqn:Hn. revert s Hn.
  induction n as [n IH] using lt_wf_ind. intros s Hn.
  destruct s as [|c rest].
  { by rewrite replaceAll_nil, matchAt_reSpaces. }
  pose proof (matchAt_reSpaces (c :: rest)) as Hm. cbn iota in Hm. cbn [collapse].
  pose proof (length_dropWhile isWhiteSpace rest) as Hlen.
  destruct (isWhiteSpace c).
  - rewrite (replaceAll_hit _ _ _ _ _ Hm).
    2:{ cbn [matched length]. intros H%(f_equal length).
        rewrite length_take in H. simpl in H. lia. }
    change (js " ") with [32]. cbn [app]. f_equal. rewrite collapse_inside.
    apply (IH (length (dropWhile isWhiteSpace rest))); simpl in *; [lia|done].
  - rewrite replaceAll_keep by done. f_equal.
    apply (IH (length rest)); simpl in *; [lia|done].
Qed.

(** What the tag stripping of the source comes to: every tag, from a [<]
    to the first [>] behind it, becomes a space; every run of white space
    becomes one space; the white space at both ends goes. *)
Lemma stripTags_plain (s : jsstring) :
  stripTags s = trim (collapse false (untag false s)).
Proof. unfold stripTags. by rewrite replaceAll_reTag, replaceAll_reSpaces. Qed.

Example stripTags_bold : stripTags (js "<b>Bold</b> text") = js "Bold text".
Proof. reflexivity. Qed.

Example stripTags_div : stripTags (js "<div>  a   <span>b</span>  </div>") = js "a b".
Proof. reflexivity. Qed.

(** A part of text/html alone: its content, stripped. *)
Example multipart_html_only :
  parseMultipartMessage
    (js "--b\r\nContent-Type: text/html\r\n\r\n<b>Bold</b> text\r\n--b--\r\n")
    (js "b") = (Normal (js "Bold text"), []).
Proof. by vm_compute. Qed.

(** No part of a recognised type: the fixed string. *)
Example multipart_nothing_readable :
  parseMultipartMessage
    (js "--b\r\nContent-Type: image/png\r\n\r\nxyz\r\n--b--\r\n") (js "b")
  = (Normal (js "No readable content found in the message."), []).
Proof. by vm_compute. Qed.
(** ** Lower case *)

(** A property checked on every number below a bound holds below it. *)
Lemma below_forallb (p : N → bool) (n : nat) :
  forallb p (map N.of_nat (seq 0 n)) = true →
  ∀ c, c < N.of_nat n → p c = true.
Proof.
  intros H c Hc. rewrite forallb_forall in H. apply H.
  apply in_map_iff. exists (N.to_nat c). split; [apply N2Nat.id|].
  apply in_seq. lia.
Qed.

(** On ASCII the mapping moves the letters A to Z and nothing else. *)
Lemma simpleLower_ascii (c : N) : c < 128 → Unicode.simpleLower c = lowerUnit c.
Proof.
  intros Hc.
  apply N.eqb_eq.
  apply (below_forallb (fun c => Unicode.simpleLower c =? lowerUnit c) 128);
    [by vm_compute|done].
Qed.

Lemma StringToCodePoints_ascii (s : jsstring) :
  Forall (fun c => c < 128) s → StringToCodePoints s = s.
Proof.
  induction 1 as [|c s Hc _ IH]; [done|]. cbn [StringToCodePoints].
  unfold isLeadingSurrogate. rewrite (proj2 (N.leb_gt _ _)) by lia.
  cbn [andb]. by rewrite IH.
Qed.

Lemma lowerGo_ascii (before cps : list N) :
  Forall (fun c => c < 128) cps → Unicode.lowerGo before cps = lowerAscii cps.
Proof.
  intros H. revert before. induction H as [|c cps Hc _ IH]; intros before; [done|].
  cbn [Unicode.lowerGo lowerAscii map].
  rewrite (proj2 (N.eqb_neq c 0x3A3)) by lia.
  rewrite (proj2 (N.eqb_neq c 0x130)) by lia.
  rewrite simpleLower_ascii by done. cbn [app]. f_equal. apply IH.
Qed.

Lemma toString_units (cps : list N) :
  Forall (fun c => c < 0x10000) cps → Utf8.toString cps = cps.
Proof.
  induction 1 as [|c cps Hc _ IH]; [done|].
  unfold Utf8.toString in *. cbn [map concat]. rewrite IH.
  unfold Utf8.units. by rewrite (proj2 (N.ltb_lt _ _)) by done.
Qed.

Lemma lowerUnit_ascii (c : N) : c < 128 → lowerUnit c < 128.
Proof.
  unfold lowerUnit, isUpperAscii. intros Hc.
  destruct (N.leb_spec 65 c), (N.leb_spec c 90); cbn [andb]; lia.
Qed.

(** [toLowerCase] on a string of ASCII characters. *)
Lemma toLowerCase_ascii (s : jsstring) :
  Forall (fun c => c < 128) s → toLowerCase s = lowerAscii s.
Proof.
  intros H. unfold toLowerCase, CodePointsToString, Unicode.toLowercase.
  rewrite StringToCodePoints_ascii, lowerGo_ascii by done.
  apply toString_units. unfold lowerAscii. apply Forall_map.
  eapply Forall_impl; [exact H|]. intros c Hc. simpl.
  pose proof (lowerUnit_ascii c Hc). lia.
Qed.

(** A string whose letters in lower case are ASCII is ASCII. *)
Lemma lowerAscii_ascii (s t : jsstring) :
  lowerAscii s = t → Forall (fun c => c < 128) t → Forall (fun c => c < 128) s.
Proof.
  intros <- H. unfold lowerAscii in H. apply Forall_map in H.
  eapply Forall_impl; [exact H|]. intros c. simpl.
  unfold lowerUnit. destruct (isUpperAscii c); lia.
Qed.

Lemma StringToCodePoints_nil (s : jsstring) : StringToCodePoints s = [] ↔ s = [].
Proof.
  split; [|by intros ->]. destruct s as [|c [|d rest]]; [done|..];
    cbn [StringToCodePoints]; destruct (isLeadingSurrogate c); try done.
  by destruct (isTrailingSurrogate d).
Qed.

Lemma toLowerCase_nil (s : jsstring) : toLowerCase s = [] ↔ s = [].
Proof.
  split; [|by intros ->]. unfold toLowerCase, CodePointsToString, Unicode.toLowercase.
  intros H. apply StringToCodePoints_nil.
  destruct (StringToCodePoints s) as [|cp cps]; [done|]. exfalso. revert H.
  cbn [Unicode.lowerGo].
  assert (∀ c l, Utf8.toString (c :: l) ≠ []) as Hne.
  { intros c l. unfold Utf8.toString, Utf8.units. cbn [map concat].
    by destruct (c <? 65536). }
  destruct (cp =? 0x3A3); [destruct (_ && _)|destruct (cp =? 0x130)];
    cbn [app]; apply Hne.
Qed.

(** *** The images of the mapping *)

Lemma simpleLower_cases (cp : N) :
  Unicode.simpleLower cp = cp ∨ In (Unicode.simpleLower cp) lowerImages.
Proof.
  unfold Unicode.simpleLower.
  destruct (find (Unicode.covers cp) Unicode.lowerTable)
    as [[[[first last] step] image]|] eqn:E; [right|by left].
  apply find_some in E as [Hin Hc]. unfold lowerImages.
  apply in_flat_map. eexists. split; [exact Hin|]. cbn beta iota.
  unfold Unicode.covers in Hc.
  apply andb_prop in Hc as [[Hf%N.leb_le Hl%N.leb_le]%andb_prop Hm%N.eqb_eq].
  apply in_map_iff. exists (N.to_nat ((cp - first) / step)). split.
  - rewrite N2Nat.id. f_equal.
    destruct (N.eq_dec step 0) as [->|Hs].
    + rewrite N.mod_0_r in Hm. rewrite N.mul_0_r. lia.
    + pose proof (N.div_mod (cp - first) step Hs) as Hd.
      rewrite Hm, N.add_0_r, N.mul_comm in Hd. symmetry. exact Hd.
  - apply in_seq. split; [apply Nat.le_0_l|].
    assert ((cp - first) / step ≤ (last - first) / step) as Hq.
    { apply N.Div0.div_le_mono. lia. }
    revert Hq. generalize ((cp - first) / step), ((last - first) / step). lia.
Qed.

(** What holds of every image and of every code point left alone holds
    of every value of the mapping. *)
Lemma simpleLower_ind (p : N → bool) :
  forallb p lowerImages = true →
  ∀ cp, p cp = true → p (Unicode.simpleLower cp) = true.
Proof.
  intros H cp Hcp. destruct (simpleLower_cases cp) as [->|Hin]; [done|].
  rewrite forallb_forall in H. by apply H.
Qed.

(** No image has an image of its own. *)
Lemma simpleLower_idemp (cp : N) :
  Unicode.simpleLower (Unicode.simpleLower cp) = Unicode.simpleLower cp.
Proof.
  destruct (simpleLower_cases cp) as [E|Hin]; [by rewrite !E|].
  apply N.eqb_eq.
  assert (forallb (fun c => Unicode.simpleLower c =? c) lowerImages = true) as H
    by (vm_compute; reflexivity).
  rewrite forallb_forall in H. by apply H.
Qed.

Lemma isSurrogate_tests (c : N) :
  (isLeadingSurrogate c = true ↔ 0xD800 ≤ c ≤ 0xDBFF)
  ∧ (isTrailingSurrogate c = true ↔ 0xDC00 ≤ c ≤ 0xDFFF).
Proof.
  unfold isLeadingSurrogate, isTrailingSurrogate.
  rewrite !andb_true_iff, !N.leb_le. done.
Qed.

Lemma isLeadingSurrogate_false (c : N) :
  c < 0xD800 ∨ 0xDBFF < c → isLeadingSurrogate c = false.
Proof.
  intros H. apply not_true_is_false. rewrite (proj1 (isSurrogate_tests c)). lia.
Qed.

Lemma isTrailingSurrogate_false (c : N) :
  c < 0xDC00 ∨ 0xDFFF < c → isTrailingSurrogate c = false.
Proof.
  intros H. apply not_true_is_false. rewrite (proj2 (isSurrogate_tests c)). lia.
Qed.

(** The mapping leaves the surrogates alone. *)
Lemma simpleLower_surrogate (c : N) :
  0xD800 ≤ c ≤ 0xDFFF → Unicode.simpleLower c = c.
Proof.
  intros Hc. unfold Unicode.simpleLower.
  destruct (find (Unicode.covers c) Unicode.lowerTable)
    as [[[[first last] step] image]|] eqn:E; [|done].
  apply find_some in E as [Hin Hcov].
  assert (forallb (fun '(first, last, _, _) => (last <? 0xD800) || (0xDFFF <? first))
            Unicode.lowerTable = true) as H by (vm_compute; reflexivity).
  rewrite forallb_forall in H. specialize (H _ Hin). cbn beta iota in H.
  unfold Unicode.covers in Hcov.
  apply andb_prop in Hcov as [[Hf%N.leb_le Hl%N.leb_le]%andb_prop _].
  apply orb_prop in H as [H%N.ltb_lt|H%N.ltb_lt]; lia.
Qed.

(** A code point that is not a surrogate: its image is none either, and
    is below 0x110000 when it is. *)
Lemma simpleLower_scalar (c : N) :
  c < 0xD800 ∨ 0xDFFF < c →
  (Unicode.simpleLower c < 0xD800 ∨ 0xDFFF < Unicode.simpleLower c)
  ∧ (c < 0x110000 → Unicode.simpleLower c < 0x110000).
Proof.
  intros Hc. destruct (simpleLower_cases c) as [->|Hin]; [done|].
  assert (forallb (fun c => (c <? 0xD800) || ((0xDFFF <? c) && (c <? 0x110000)))
            lowerImages = true) as H by (vm_compute; reflexivity).
  rewrite forallb_forall in H. specialize (H _ Hin). cbn beta in H.
  apply orb_prop in H as [H%N.ltb_lt|[H1%N.ltb_lt H2%N.ltb_lt]%andb_prop]; lia.
Qed.

(** What one code point becomes. *)
Lemma lowerGo_cons (before after : list N) (cp : N) :
  ∃ piece,
    Unicode.lowerGo before (cp :: after)
    = piece ++ Unicode.lowerGo (cp :: before) after
    ∧ Forall (fun c => Unicode.simpleLower c = c) piece
    ∧ (piece = [Unicode.simpleLower cp]
       ∨ (cp < 0xD800 ∧ (piece = [0x3C2] ∨ piece = [0x3C3] ∨ piece = [0x69; 0x307]))).
Proof.
  cbn [Unicode.lowerGo].
  destruct (N.eqb_spec cp 0x3A3) as [->|_].
  { destruct (_ && _); eexists; (split; [done|]); split;
      [repeat constructor|right; split; [lia|auto]
      |repeat constructor|right; split; [lia|auto]]. }
  destruct (N.eqb_spec cp 0x130) as [->|_].
  { eexists; split; [done|]. split; [repeat constructor|right; split; [lia|auto]]. }
  eexists. split; [done|]. split; [|by left].
  constructor; [apply simpleLower_idemp|constructor].
Qed.

(** Every code point of the result is its own image. *)
Lemma lowerGo_stable (before cps : list N) :
  Forall (fun c => Unicode.simpleLower c = c) (Unicode.lowerGo before cps).
Proof.
  revert before. induction cps as [|cp cps IH]; intros before; [constructor|].
  destruct (lowerGo_cons before cps cp) as (piece & -> & Hp & _).
  apply Forall_app. by split.
Qed.

(** Code points that are their own images are left as they are. *)
Lemma lowerGo_fixed (before cps : list N) :
  Forall (fun c => Unicode.simpleLower c = c) cps → Unicode.lowerGo before cps = cps.
Proof.
  intros H. revert before. induction H as [|cp cps Hc _ IH]; intros before; [done|].
  cbn [Unicode.lowerGo].
  destruct (N.eqb_spec cp 0x3A3) as [->|_]; [by vm_compute in Hc|].
  destruct (N.eqb_spec cp 0x130) as [->|_]; [by vm_compute in Hc|].
  rewrite Hc, IH. done.
Qed.

Lemma isCodePoints_cons (cp : N) (more : list N) :
  isCodePoints (cp :: more)
  = (cp <? 0x110000)
    && negb (isLeadingSurrogate cp && isTrailingSurrogate (hd 0 more))
    && isCodePoints more.
Proof. by destruct more. Qed.

Lemma hd_lowerGo (before cps : list N) :
  isTrailingSurrogate (hd 0 (Unicode.lowerGo before cps))
  = isTrailingSurrogate (hd 0 cps).
Proof.
  destruct cps as [|cp cps]; [done|].
  destruct (lowerGo_cons before cps cp) as (piece & -> & _ & [->|[Hcp Hp]]).
  - cbn [app hd].
    destruct (N.lt_ge_cases cp 0xD800) as [H|H];
      [|destruct (N.lt_ge_cases 0xDFFF cp) as [H'|H']].
    + rewrite !isTrailingSurrogate_false; [done|lia|].
      pose proof (simpleLower_scalar cp). lia.
    + rewrite !isTrailingSurrogate_false; [done|lia|].
      pose proof (simpleLower_scalar cp). lia.
    + by rewrite simpleLower_surrogate by lia.
  - destruct Hp as [-> | [-> | ->]]; cbn [app hd];
      by rewrite (isTrailingSurrogate_false cp) by lia.
Qed.

(** Lower-casing keeps a sequence of code points one. *)
Lemma lowerGo_isCodePoints (before cps : list N) :
  isCodePoints cps = true → isCodePoints (Unicode.lowerGo before cps) = true.
Proof.
  revert before. induction cps as [|cp cps IH]; intros before; [done|].
  rewrite isCodePoints_cons.
  intros [[Hlt%N.ltb_lt Hpair%negb_true_iff]%andb_prop Hmore]%andb_prop.
  specialize (IH (cp :: before) Hmore).
  pose proof (hd_lowerGo (cp :: before) cps) as Hhd.
  destruct (lowerGo_cons before cps cp) as (piece & -> & _ & [->|[Hcp Hp]]).
  - cbn [app]. rewrite isCodePoints_cons, IH, Hhd.
    destruct (N.lt_ge_cases cp 0xD800) as [H|H];
      [|destruct (N.lt_ge_cases 0xDFFF cp) as [H'|H']].
    + pose proof (simpleLower_scalar cp) as Hs.
      rewrite (isLeadingSurrogate_false (Unicode.simpleLower cp)) by lia.
      rewrite (proj2 (N.ltb_lt _ _)) by lia. done.
    + pose proof (simpleLower_scalar cp) as Hs.
      rewrite (isLeadingSurrogate_false (Unicode.simpleLower cp)) by lia.
      rewrite (proj2 (N.ltb_lt _ _)) by lia. done.
    + rewrite simpleLower_surrogate by lia. rewrite Hpair.
      by rewrite (proj2 (N.ltb_lt _ _)) by lia.
  - destruct Hp as [-> | [-> | ->]]; cbn [app]; rewrite !isCodePoints_cons, IH;
      cbn [hd]; by vm_compute.
Qed.

Lemma hd_StringToCodePoints (s : jsstring) :
  isTrailingSurrogate (hd 0 (StringToCodePoints s)) = isTrailingSurrogate (hd 0 s).
Proof.
  destruct s as [|c [|d rest]]; [done|..]; cbn [StringToCodePoints];
    destruct (isLeadingSurrogate c) eqn:E; try done.
  destruct (isTrailingSurrogate d); [|done]. cbn [hd].
  apply isSurrogate_tests in E.
  rewrite !isTrailingSurrogate_false; [done|lia..].
Qed.

Lemma StringToCodePoints_isCodePoints (s : jsstring) :
  isCodeUnits s = true → isCodePoints (StringToCodePoints s) = true.
Proof.
  remember (length s) as n eqn:Hn. revert s Hn.
  induction n as [n IH] using lt_wf_ind. intros s -> Hs.
  destruct s as [|c rest]; [done|].
  cbn [isCodeUnits forallb] in Hs. apply andb_prop in Hs as [Hc%N.ltb_lt Hrest].
  assert (isCodePoints (StringToCodePoints rest) = true) as IHrest.
  { apply (IH (length rest)); [simpl; lia|done|done]. }
  cbn [StringToCodePoints]. destruct (isLeadingSurrogate c) eqn:E.
  - destruct rest as [|d rest'].
    { rewrite isCodePoints_cons. cbn [hd isCodePoints].
      change (isTrailingSurrogate 0) with false. rewrite andb_false_r.
      by rewrite (proj2 (N.ltb_lt _ _)) by lia. }
    destruct (isTrailingSurrogate d) eqn:Ed.
    + cbn [forallb] in Hrest. apply andb_prop in Hrest as [_ Hrest'].
      rewrite isCodePoints_cons. rewrite (IH (length rest')); [|simpl; lia|done|done].
      apply isSurrogate_tests in E, Ed.
      rewrite isLeadingSurrogate_false by lia.
      by rewrite (proj2 (N.ltb_lt _ _)) by lia.
    + rewrite isCodePoints_cons, IHrest, hd_StringToCodePoints. cbn [hd].
      rewrite Ed, andb_false_r. by rewrite (proj2 (N.ltb_lt _ _)) by lia.
  - rewrite isCodePoints_cons, IHrest, E.
    by rewrite (proj2 (N.ltb_lt _ _)) by lia.
Qed.

Lemma hd_toString (cps : list N) :
  isCodePoints cps = true →
  isTrailingSurrogate (hd 0 (CodePointsToString cps)) = isTrailingSurrogate (hd 0 cps).
Proof.
  destruct cps as [|cp more]; [done|]. rewrite isCodePoints_cons.
  intros [[Hlt%N.ltb_lt _]%andb_prop _]%andb_prop.
  unfold CodePointsToString, Utf8.toString, Utf8.units. cbn [map concat].
  destruct (N.ltb_spec cp 65536); [done|]. cbn [app hd].
  rewrite (isTrailingSurrogate_false cp) by lia.
  apply isTrailingSurrogate_false. left.
  assert ((cp - 65536) / 1024 < 1024); [|lia].
  apply N.Div0.div_lt_upper_bound. lia.
Qed.

(** Written as code units and read again, a sequence of code points is
    as it was. *)
Lemma StringToCodePoints_toString (cps : list N) :
  isCodePoints cps = true → StringToCodePoints (CodePointsToString cps) = cps.
Proof.
  induction cps as [|cp more IH]; [done|]. intros H.
  pose proof H as H'. rewrite isCodePoints_cons in H'.
  apply andb_prop in H' as [[Hlt%N.ltb_lt Hpair%negb_true_iff]%andb_prop Hmore].
  specialize (IH Hmore). pose proof (hd_toString more Hmore) as Hhd.
  unfold CodePointsToString, Utf8.toString in *. cbn [map concat].
  unfold Utf8.units at 1. destruct (N.ltb_spec cp 65536) as [Hs|Hs].
  - cbn [app StringToCodePoints]. destruct (isLeadingSurrogate cp) eqn:E.
    + cbn [andb] in Hpair. rewrite <- Hhd in Hpair.
      destruct (concat (map Utf8.units more)) as [|d rest] eqn:Ec.
      * rewrite <- IH. done.
      * cbn [hd] in Hpair. rewrite Hpair. by rewrite IH.
    + by rewrite IH.
  - cbn [app].
    pose proof (N.div_mod (cp - 65536) 1024 ltac:(done)) as Hd.
    pose proof (N.mod_lt (cp - 65536) 1024 ltac:(done)) as Hr.
    assert ((cp - 65536) / 1024 < 1024) as Hq
      by (apply N.Div0.div_lt_upper_bound; lia).
    revert Hd Hr Hq.
    generalize ((cp - 65536) / 1024), ((cp - 65536) mod 1024). intros q r Hd Hr Hq.
    cbn [StringToCodePoints].
    rewrite (proj2 (proj1 (isSurrogate_tests (55296 + q)))) by lia.
    rewrite (proj2 (proj2 (isSurrogate_tests (56320 + r)))) by lia.
    rewrite IH. f_equal. lia.
Qed.

(** *** [toLowerCase] *)

(** The result of [toLowerCase] is in lower case: no code point of it has
    a lower-case mapping. *)
Lemma toLowerCase_isLowerCase (s : jsstring) :
  isCodeUnits s = true → isLowerCase (toLowerCase s) = true.
Proof.
  intros Hs. unfold isLowerCase, toLowerCase, Unicode.toLowercase.
  rewrite StringToCodePoints_toString
    by (apply lowerGo_isCodePoints; by apply StringToCodePoints_isCodePoints).
  apply forallb_forall. intros c Hc. apply N.eqb_eq.
  pose proof (lowerGo_stable [] (StringToCodePoints s)) as H.
  rewrite Forall_forall in H. apply H. by apply list_elem_of_In.
Qed.

(** [toLowerCase] leaves its own results as they are. *)
Lemma toLowerCase_idemp (s : jsstring) :
  isCodeUnits s = true → toLowerCase (toLowerCase s) = toLowerCase s.
Proof.
  intros Hs. unfold toLowerCase at 1 2. unfold Unicode.toLowercase at 1.
  unfold Unicode.toLowercase.
  rewrite StringToCodePoints_toString
    by (apply lowerGo_isCodePoints; by apply StringToCodePoints_isCodePoints).
  by rewrite lowerGo_fixed by apply lowerGo_stable.
Qed.

(** No letter A to Z is in a result of [toLowerCase]. *)
Lemma toLowerCase_no_upper (s : jsstring) :
  Forall (fun c => isUpperAscii c = false) (toLowerCase s).
Proof.
  unfold toLowerCase, CodePointsToString, Utf8.toString, Unicode.toLowercase.
  pose proof (lowerGo_stable [] (StringToCodePoints s)) as H.
  induction H as [|c cps Hc _ IH]; [constructor|].
  cbn [map concat]. apply Forall_app. split; [|exact IH].
  unfold Utf8.units. destruct (N.ltb_spec c 65536).
  - constructor; [|constructor]. unfold isUpperAscii.
    destruct (N.leb_spec 65 c), (N.leb_spec c 90); cbn [andb]; try done.
    rewrite simpleLower_ascii in Hc by lia. unfold lowerUnit, isUpperAscii in Hc.
    rewrite (proj2 (N.leb_le 65 c)), (proj2 (N.leb_le c 90)) in Hc by done.
    cbn [andb] in Hc. lia.
  - generalize ((c - 65536) / 1024), ((c - 65536) mod 1024). intros q r.
    apply Forall_cons_2; [|apply Forall_cons_2; [|apply Forall_nil_2]];
      unfold isUpperAscii; apply andb_false_iff; right; apply N.leb_gt; lia.
Qed.

Lemma isCodeUnits_takeWhile (p : N → bool) (s : jsstring) :
  isCodeUnits s = true → isCodeUnits (takeWhile p s) = true.
Proof.
  unfold isCodeUnits. induction s as [|c s IH]; [done|]. cbn [forallb takeWhile].
  intros [Hc Hs]%andb_prop. destruct (p c); [|done].
  cbn [forallb]. by rewrite Hc, IH.
Qed.

Lemma isCodeUnits_dropWhile (p : N → bool) (s : jsstring) :
  isCodeUnits s = true → isCodeUnits (dropWhile p s) = true.
Proof.
  unfold isCodeUnits. induction s as [|c s IH]; [done|]. cbn [forallb dropWhile].
  intros [Hc Hs]%andb_prop. destruct (p c); [by apply IH|].
  cbn [forallb]. by rewrite Hc, Hs.
Qed.

Lemma isCodeUnits_rev (s : jsstring) : isCodeUnits (rev s) = isCodeUnits s.
Proof.
  unfold isCodeUnits. induction s as [|c s IH]; [done|]. cbn [rev forallb].
  rewrite forallb_app, IH. cbn [forallb]. by destruct (c <? 0x10000), (forallb _ s).
Qed.

Lemma isCodeUnits_trim (s : jsstring) :
  isCodeUnits s = true → isCodeUnits (trim s) = true.
Proof.
  intros H. unfold trim, trimEnd, trimStart. rewrite isCodeUnits_rev.
  apply isCodeUnits_dropWhile. rewrite isCodeUnits_rev.
  by apply isCodeUnits_dropWhile.
Qed.
(** ** The patterns of [getContentInfo] *)

Lemma exec_reMediaType (v : jsstring) :
  exec reMediaType v
  = match mediaType v with
    | [] => None
    | t => Some (Result t [(1%nat, t)])
    end.
Proof.
  unfold exec, reMediaType, mediaType, matchAt. cbn [anchored body matchM Plus].
  destruct v as [|c v]; [done|]. cbn [takeWhile].
  destruct (allBut 59 c) eqn:E; [|done].
  rewrite starM_total by (intros; by eexists).
  unfold accept. cbn [fmap option_fmap option_map snd].
  pose proof (cut_dropWhile (allBut 59) (c :: v)) as H.
  simpl in H. rewrite E in H. simpl. by rewrite !H.
Qed.

Lemma matchM_lit_ci (s0 : jsstring) (k : cont) (inp : jsstring) (caps : captures) :
  matchM (lit true s0) k inp caps
  = if startsWith (lowerAscii inp) (lowerAscii s0)
    then k (drop (length s0) inp) caps else None.
Proof.
  revert inp. induction s0 as [|c0 s0 IH]; intros inp; [done|].
  cbn [lit matchM]. destruct inp as [|c inp]; [done|].
  cbn [lowerAscii map startsWith length drop]. unfold oneCI at 1.
  destruct (lowerUnit c =? lowerUnit c0); [|done]. apply IH.
Qed.

Lemma matchM_token (inp : jsstring) (caps : captures) :
  matchM (Cat (Group 1 (Plus boundaryUnit)) (Opt (one 34))) accept inp caps
  = match takeWhile boundaryUnit inp with
    | [] => None
    | token =>
        Some (match dropWhile boundaryUnit inp with
              | c :: rest => if c =? 34 then rest else c :: rest
              | [] => []
              end, (1%nat, token) :: caps)
    end.
Proof.
  cbn [matchM Plus]. destruct inp as [|c inp]; [done|].
  cbn [takeWhile dropWhile].
  destruct (boundaryUnit c) eqn:E; [|done].
  rewrite starM_total.
  2:{ intros rest caps'. destruct rest as [|c' rest]; [by eexists|].
      unfold one. destruct (c' =? 34); by eexists. }
  pose proof (cut_dropWhile boundaryUnit (c :: inp)) as H.
  cbn [takeWhile dropWhile] in H. rewrite E in H. rewrite H.
  unfold one, accept.
  destruct (dropWhile boundaryUnit inp) as [|c' rest]; [done|].
  by destruct (c' =? 34).
Qed.

Lemma matchM_Opt (p : charset) (k : cont) (inp : jsstring) (caps : captures) :
  matchM (Opt p) k inp caps
  = match inp with
    | c :: rest =>
        if p c then
          match k rest caps with
          | Some res => Some res
          | None => k inp caps
          end
        else k inp caps
    | [] => k [] caps
    end.
Proof. reflexivity. Qed.

Lemma matchM_afterKey (inp : jsstring) :
  snd <$> matchM afterKey accept inp []
  = (fun token => [(1%nat, token)]) <$> boundaryToken inp.
Proof.
  unfold afterKey, boundaryToken.
  change (matchM (Cat (Opt (one 34)) ?r) accept inp [])
    with (matchM (Opt (one 34)) (matchM r accept) inp []).
  rewrite matchM_Opt. destruct inp as [|c inp].
  { by rewrite matchM_token. }
  unfold one at 1. destruct (c =? 34) eqn:E.
  - apply N.eqb_eq in E as ->.
    rewrite !matchM_token. cbn [takeWhile].
    change (boundaryUnit 34) with false. cbn iota.
    by destruct (takeWhile boundaryUnit inp).
  - rewrite matchM_token. by destruct (takeWhile boundaryUnit (c :: inp)).
Qed.

Lemma matchAt_reBoundary (inp : jsstring) :
  (fun '(_, m) => group 1 m) <$> matchAt (body reBoundary) inp
  = Some <$> (if startsWith (lowerAscii inp) (js "boundary=")
              then boundaryToken (drop 9 inp) else None).
Proof.
  unfold matchAt. cbn [body reBoundary].
  fold afterKey.
  change (matchM (Cat ?a afterKey) accept inp [])
    with (matchM a (matchM afterKey accept) inp []).
  rewrite matchM_lit_ci.
  change (lowerAscii (js "boundary=")) with (js "boundary=").
  change (length (js "boundary=")) with 9%nat.
  destruct (startsWith (lowerAscii inp) (js "boundary=")); [|done].
  pose proof (matchM_afterKey (drop 9 inp)) as H.
  destruct (matchM afterKey accept (drop 9 inp) []) as [[rest caps]|];
    destruct (boundaryToken (drop 9 inp)); simpl in H; simplify_eq; done.
Qed.

(** The boundary that the pattern captures. *)
Lemma exec_reBoundary (v : jsstring) :
  (exec reBoundary v ≫= group 1) = boundaryParameter v.
Proof.
  unfold exec. change (anchored reBoundary) with false. cbn iota.
  induction v as [|c v IH]; cbn [search boundaryParameter].
  - pose proof (matchAt_reBoundary []) as H.
    destruct (matchAt (body reBoundary) []) as [[rest m]|];
      destruct (if startsWith (lowerAscii []) (js "boundary=")
                then boundaryToken (drop 9 []) else None);
      simpl in H; by simplify_eq.
  - pose proof (matchAt_reBoundary (c :: v)) as H.
    destruct (matchAt (body reBoundary) (c :: v)) as [[rest m]|];
      destruct (if startsWith (lowerAscii (c :: v)) (js "boundary=")
                then boundaryToken (drop 9 (c :: v)) else None);
      simpl in H; simplify_eq; [done|apply IH].
Qed.

(** ** [getContentInfo] *)

Lemma dropWhile_nil (p : N → bool) (s : jsstring) :
  dropWhile p s = [] ↔ forallb p s = true.
Proof.
  induction s as [|c s IH]; simpl; [done|]. destruct (p c); simpl; [done|].
  split; done.
Qed.

Lemma forallb_rev (p : N → bool) (s : jsstring) :
  forallb p (rev s) = forallb p s.
Proof.
  induction s as [|c s IH]; simpl; [done|].
  rewrite forallb_app. simpl. rewrite IH. by destruct (p c), (forallb p s).
Qed.

Lemma dropWhile_head (p : N → bool) (s : jsstring) :
  forallb p (dropWhile p s) = true → dropWhile p s = [].
Proof.
  induction s as [|c s IH]; simpl; [done|]. destruct (p c) eqn:E; [done|].
  simpl. by rewrite E.
Qed.

(** Trimming leaves nothing exactly when there was only white space. *)
Lemma trim_nil (s : jsstring) : trim s = [] ↔ forallb isWhiteSpace s = true.
Proof.
  unfold trim, trimEnd, trimStart. split.
  - intros H. apply (f_equal (@rev N)) in H. rewrite rev_involutive in H. simpl in H.
    apply dropWhile_nil in H. rewrite forallb_rev in H.
    by apply dropWhile_nil, dropWhile_head.
  - intros H%dropWhile_nil. by rewrite H.
Qed.

(** What [getContentInfo] returns when it returns. *)
Lemma getContentInfo_Normal (h : gmap jsstring headerValue) (ci : contentInfo)
    (log : list warning) :
  getContentInfo h = (Normal ci, log) →
  contentType ci
  = match headerFirst (h !! js "Content-Type") with
    | Some v =>
        match mediaType v with
        | [] => js "text/plain"
        | t => toLowerCase (trim t)
        end
    | None => js "text/plain"
    end
  ∧ encoding ci
    = match headerFirst (h !! js "Content-Transfer-Encoding") with
      | Some v => toLowerCase (trim v)
      | None => js "7bit"
      end
  ∧ boundary ci = headerFirst (h !! js "Content-Type") ≫= boundaryParameter.
Proof.
  unfold getContentInfo.
  assert (∀ v : jsstring,
    match exec reMediaType v with
    | Some m => toLowerCase (trim (default [] (group 1 m)))
    | None => js "text/plain"
    end
    = match mediaType v with
      | [] => js "text/plain"
      | t => toLowerCase (trim t)
      end) as Hm.
  { intros v. rewrite exec_reMediaType. by destruct (mediaType v). }
  assert (∀ v : jsstring,
    match exec reBoundary v with
    | Some m => group 1 m
    | None => None
    end = boundaryParameter v) as Hb.
  { intros v. rewrite <- exec_reBoundary. by destruct (exec reBoundary v). }
  destruct (h !! js "Content-Type") as [[s|[|s l]]|];
    cbn [truthyValue firstValue headerFirst].
  1: destruct (truthy s).
  all: destruct (h !! js "Content-Transfer-Encoding") as [[s'|[|s' l']]|];
    cbn [truthyValue firstValue headerFirst];
    try destruct (truthy s').
  all: rewrite ?JS_bind_mret, ?Hm, ?Hb.
  all: try (intros [= <- <-]; done).
  all: try (intros [=]; done).
Qed.

(** [getContentInfo] throws on an empty array of header values only. *)
Lemma getContentInfo_returns (h : gmap jsstring headerValue) :
  h !! js "Content-Type" ≠ Some (Multiple []) →
  h !! js "Content-Transfer-Encoding" ≠ Some (Multiple []) →
  ∃ ci, getContentInfo h = (Normal ci, []).
Proof.
  unfold getContentInfo. intros Hct Hcte.
  destruct (h !! js "Content-Type") as [[s|[|s l]]|];
    cbn [truthyValue firstValue]; [destruct (truthy s)|done| |].
  all: destruct (h !! js "Content-Transfer-Encoding") as [[s'|[|s' l']]|];
    cbn [truthyValue firstValue]; try done;
    try destruct (truthy s'); rewrite ?JS_bind_mret; by eexists.
Qed.

Example getContentInfo_empty_array :
  getContentInfo {[ js "Content-Type" := Multiple [] ]} = (Throw TypeError, []).
Proof. by vm_compute. Qed.

Lemma startsWith_take (s prefix : jsstring) :
  startsWith s prefix = true → take (length prefix) s = prefix.
Proof.
  revert s. induction prefix as [|p prefix IH]; intros s; [done|].
  destruct s as [|c s]; [done|]. cbn [startsWith length take].
  intros [->%N.eqb_eq H]%andb_prop. by rewrite IH.
Qed.

Lemma boundaryToken_Some (s token : jsstring) :
  boundaryToken s = Some token →
  token ≠ [] ∧ forallb boundaryUnit token = true
  ∧ ∃ q post, s = q ++ token ++ post ∧ (q = [] ∨ q = [34]).
Proof.
  unfold boundaryToken.
  set (s' := match s with
             | c :: rest => if c =? 34 then rest else s
             | [] => s
             end).
  assert (∃ q, s = q ++ s' ∧ (q = [] ∨ q = [34])) as (q & Hs & Hq).
  { subst s'. destruct s as [|c rest]; [by exists []; auto|].
    destruct (N.eqb_spec c 34) as [->|]; [exists [34]|exists []]; auto. }
  pose proof (takeWhile_all boundaryUnit s') as Hall.
  pose proof (dropWhile_takeWhile boundaryUnit s') as Hsplit.
  destruct (takeWhile boundaryUnit s') as [|c t] eqn:E; [done|].
  intros [= <-]. split_and!; [done|done|].
  exists q, (dropWhile boundaryUnit s'). by rewrite Hsplit.
Qed.

Lemma boundaryParameter_Some (v token : jsstring) :
  boundaryParameter v = Some token →
  token ≠ [] ∧ forallb boundaryUnit token = true
  ∧ ∃ pre key q post,
      v = pre ++ key ++ q ++ token ++ post
      ∧ toLowerCase key = js "boundary=" ∧ (q = [] ∨ q = [34]).
Proof.
  induction v as [|c v IH]; cbn [boundaryParameter].
  - change (startsWith (lowerAscii []) (js "boundary=")) with false. done.
  - destruct (startsWith (lowerAscii (c :: v)) (js "boundary=")) eqn:E.
    + destruct (boundaryToken (drop 9 (c :: v))) as [t|] eqn:Et.
      * intros [= ->].
        apply boundaryToken_Some in Et as (Hne & Hall & q & post & Hd & Hq).
        split_and!; [done..|].
        exists [], (take 9 (c :: v)), q, post. split_and!; [|  |done].
        -- rewrite <- Hd. simpl app. by rewrite take_drop.
        -- apply startsWith_take in E. change (length (js "boundary=")) with 9%nat in E.
           assert (lowerAscii (take 9 (c :: v)) = js "boundary=") as Hkey
             by (unfold lowerAscii in *; by rewrite <- firstn_map).
           rewrite toLowerCase_ascii; [done|].
           apply (lowerAscii_ascii _ _ Hkey). repeat constructor.
      * intros (Hne & Hall & pre & key & q & post & -> & H)%IH.
        split_and!; [done..|]. by exists (c :: pre), key, q, post.
    + intros (Hne & Hall & pre & key & q & post & -> & H)%IH.
      split_and!; [done..|]. by exists (c :: pre), key, q, post.
Qed.

(** The body display asks for "multipart/" at the start of the content
    type before it uses the boundary. *)
Lemma renderBody_gate (ci : contentInfo) :
  startsWith (contentType ci) (js "multipart/") = false →
  ∀ text, renderBody ci text
          = renderBody (ContentInfo (contentType ci) (encoding ci) None) text.
Proof.
  intros H text. unfold renderBody. cbn [boundary contentType encoding].
  destruct (boundary ci); [by rewrite H|done].
Qed.

(** C1, as the code has it. On every header mapping for which
    [getContentInfo] returns, the boundary of the record is absent unless
    the Content-Type header, in its first value, holds [boundary=] in some
    letter case followed, after an optional double quote, by a token of
    code units other than the double quote, [;] and white space; it is then
    the token at the first such place. The content type plays no part in
    it: a header of a type that is not multipart yields the boundary of its
    [boundary=] parameter as well. It is the body display that leaves the
    boundary aside when the content type does not start with "multipart/":
    the record then serves it as the same record without a boundary. *)
Theorem getContentInfo_boundary (h : gmap jsstring headerValue)
    (ci : contentInfo) (log : list warning) :
  getContentInfo h = (Normal ci, log) →
  boundary ci = headerFirst (h !! js "Content-Type") ≫= boundaryParameter
  ∧ (∀ token, boundary ci = Some token →
       token ≠ [] ∧ forallb boundaryUnit token = true
       ∧ ∃ v pre key q post,
           headerFirst (h !! js "Content-Type") = Some v
           ∧ v = pre ++ key ++ q ++ token ++ post
           ∧ toLowerCase key = js "boundary=" ∧ (q = [] ∨ q = [34]))
  ∧ (startsWith (contentType ci) (js "multipart/") = false →
     ∀ text, renderBody ci text
             = renderBody (ContentInfo (contentType ci) (encoding ci) None) text).
Proof.
  intros (_ & _ & Hb)%getContentInfo_Normal.
  split; [done|]. split; [|apply renderBody_gate].
  intros token Ht. rewrite Hb in Ht.
  destruct (headerFirst (h !! js "Content-Type")) as [v|]; [|done].
  apply boundaryParameter_Some in Ht as (? & ? & pre & key & q & post & ?).
  split_and!; [done..|]. by exists v, pre, key, q, post.
Qed.

Lemma getContentInfo_boundary_witness :
  let h : gmap jsstring headerValue :=
    {[ js "Content-Type" := Single (js "text/plain; Boundary=\x22abc\x22") ]} in
  let ci := ContentInfo (js "text/plain") (js "7bit") (Some (js "abc")) in
  getContentInfo h = (Normal ci, [])
  ∧ boundary ci = headerFirst (h !! js "Content-Type") ≫= boundaryParameter
  ∧ (∀ token, boundary ci = Some token →
       token ≠ [] ∧ forallb boundaryUnit token = true
       ∧ ∃ v pre key q post,
           headerFirst (h !! js "Content-Type") = Some v
           ∧ v = pre ++ key ++ q ++ token ++ post
           ∧ toLowerCase key = js "boundary=" ∧ (q = [] ∨ q = [34]))
  ∧ (startsWith (contentType ci) (js "multipart/") = false →
     ∀ text, renderBody ci text
             = renderBody (ContentInfo (contentType ci) (encoding ci) None) text).
Proof.
  intros h ci.
  assert (getContentInfo h = (Normal ci, [])) as H by (vm_compute; reflexivity).
  split; [exact H|]. exact (getContentInfo_boundary h ci [] H).
Defined.

(** C1 as stated fails: a text/plain header with a [boundary=] parameter
    yields that boundary. *)
Lemma getContentInfo_boundary_without_multipart :
  getContentInfo {[ js "Content-Type" := Single (js "text/plain; boundary=abc") ]}
  = (Normal (ContentInfo (js "text/plain") (js "7bit") (Some (js "abc"))), [])
  ∧ startsWith (js "text/plain") (js "multipart/") = false.
Proof. by vm_compute. Qed.

Lemma text_plain_lower :
  isLowerCase (js "text/plain") = true
  ∧ toLowerCase (js "text/plain") = js "text/plain"
  ∧ Forall (fun c => isUpperAscii c = false) (js "text/plain").
Proof. split_and!; [by vm_compute..|]. repeat constructor. Qed.

(** C9, as the code has it. On every header mapping for which
    [getContentInfo] returns, the content type of the record is in lower
    case: no code point of it has a lower-case mapping, in ASCII or beyond,
    and [toLowerCase] leaves it as it is (the header value being a string
    of 16-bit code units); in particular no letter A to Z is in it. It is
    the text of the header before its first [;], trimmed and in lower case;
    it is "text/plain" whenever the Content-Type header is absent or empty
    or has nothing before its first [;]; and it is the empty string exactly
    when the header has text before its first [;] and that text is white
    space only, so it is not empty in every other case. *)
Theorem getContentInfo_contentType (h : gmap jsstring headerValue)
    (ci : contentInfo) (log : list warning) :
  getContentInfo h = (Normal ci, log) →
  ((∀ v, headerFirst (h !! js "Content-Type") = Some v → isCodeUnits v = true) →
   isLowerCase (contentType ci) = true
   ∧ toLowerCase (contentType ci) = contentType ci)
  ∧ Forall (fun c => isUpperAscii c = false) (contentType ci)
  ∧ (∀ v, headerFirst (h !! js "Content-Type") = Some v → mediaType v ≠ [] →
       contentType ci = toLowerCase (trim (mediaType v)))
  ∧ ((headerFirst (h !! js "Content-Type") = None
      ∨ ∃ v, headerFirst (h !! js "Content-Type") = Some v ∧ mediaType v = []) →
     contentType ci = js "text/plain")
  ∧ (contentType ci = [] ↔
     ∃ v, headerFirst (h !! js "Content-Type") = Some v
          ∧ mediaType v ≠ [] ∧ forallb isWhiteSpace (mediaType v) = true).
Proof.
  intros (Hc & _ & _)%getContentInfo_Normal. rewrite Hc. clear Hc.
  destruct text_plain_lower as (Hp1 & Hp2 & Hp3).
  destruct (headerFirst (h !! js "Content-Type")) as [v|].
  - destruct (mediaType v) as [|c t] eqn:E.
    + split_and!; [done|done| |done|].
      * intros v' [= <-] Hne. by rewrite E in Hne.
      * split; [done|]. intros (v' & [= <-] & Hne & _). by rewrite E in Hne.
    + split_and!.
      * intros Hv.
        assert (isCodeUnits (trim (c :: t)) = true) as Hu.
        { apply isCodeUnits_trim. rewrite <- E. unfold mediaType.
          apply isCodeUnits_takeWhile. by apply Hv. }
        split; [by apply toLowerCase_isLowerCase|by apply toLowerCase_idemp].
      * apply toLowerCase_no_upper.
      * intros v' [= <-] _. by rewrite E.
      * intros [|(v' & [= <-] & H)]; [done|]. by rewrite E in H.
      * rewrite toLowerCase_nil, trim_nil. split.
        -- intros H. exists v. by rewrite E.
        -- intros (v' & [= <-] & _ & H). by rewrite E in H.
  - split_and!; [done|done|done|done|]. split; [done|].
    by intros (v' & [=] & _).
Qed.

Lemma getContentInfo_contentType_witness :
  let h : gmap jsstring headerValue :=
    {[ js "Content-Type" := Multiple [js " Text/HTML\u00c9 ; charset=utf-8"] ]} in
  let ci := ContentInfo (js "text/html\u00e9") (js "7bit") None in
  getContentInfo h = (Normal ci, [])
  ∧ (isLowerCase (contentType ci) = true
     ∧ toLowerCase (contentType ci) = contentType ci)
  ∧ Forall (fun c => isUpperAscii c = false) (contentType ci)
  ∧ (∀ v, headerFirst (h !! js "Content-Type") = Some v → mediaType v ≠ [] →
       contentType ci = toLowerCase (trim (mediaType v)))
  ∧ ((headerFirst (h !! js "Content-Type") = None
      ∨ ∃ v, headerFirst (h !! js "Content-Type") = Some v ∧ mediaType v = []) →
     contentType ci = js "text/plain")
  ∧ (contentType ci = [] ↔
     ∃ v, headerFirst (h !! js "Content-Type") = Some v
          ∧ mediaType v ≠ [] ∧ forallb isWhiteSpace (mediaType v) = true).
Proof.
  intros h ci.
  assert (getContentInfo h = (Normal ci, [])) as H by (vm_compute; reflexivity).
  split; [exact H|].
  destruct (getContentInfo_contentType h ci [] H) as (H1 & H2).
  split; [|exact H2]. apply H1.
  intros v Hv. vm_compute in Hv. injection Hv as <-. reflexivity.
Defined.

(** Letters beyond ASCII are put in lower case too. *)
Example getContentInfo_lowers_beyond_ascii :
  getContentInfo {[ js "Content-Type" := Single (js "TEXT/\u00c9; x") ]}
  = (Normal (ContentInfo (js "text/\u00e9") (js "7bit") None), []).
Proof. by vm_compute. Qed.

(** C9 as stated fails: a Content-Type header of white space gives the
    empty content type. *)
Lemma getContentInfo_empty_contentType :
  getContentInfo {[ js "Content-Type" := Single (js " ") ]}
  = (Normal (ContentInfo [] (js "7bit") None), []).
Proof. by vm_compute. Qed.
(** ** The header parser of the raw branch *)

Lemma test_reContinuation (line : jsstring) :
  test reContinuation line = beginsWithSpace line.
Proof.
  unfold test, exec, reContinuation, matchAt. cbn [anchored body matchM].
  destruct line as [|c line]; [done|]. cbn [beginsWithSpace].
  by destruct (isWhiteSpace c).
Qed.

Lemma matchM_value (inp : jsstring) (caps : captures) :
  matchM (Cat (Star isWhiteSpace) (Group 2 (Star anyUnit))) accept inp caps
  = Some (dropWhile anyUnit (dropWhile isWhiteSpace inp),
          (2%nat, takeWhile anyUnit (dropWhile isWhiteSpace inp)) :: caps).
Proof.
  rewrite matchM_Cat, matchM_Star, starM_total.
  2:{ intros rest caps'. rewrite matchM_Group, matchM_Star.
      rewrite starM_total by (intros; by eexists). by eexists. }
  rewrite matchM_Group, matchM_Star.
  rewrite starM_total by (intros; by eexists).
  by rewrite cut_dropWhile.
Qed.

Lemma exec_reHeaderLine (line : jsstring) :
  (fun m => (default [] (group 1 m), default [] (group 2 m))) <$> exec reHeaderLine line
  = headerLine line.
Proof.
  unfold exec, reHeaderLine, headerLine, matchAt. cbn [anchored body].
  rewrite matchM_Cat, matchM_Group. unfold Plus.
  rewrite matchM_Cat, matchM_Chr. destruct line as [|c line]; [done|].
  cbn [takeWhile dropWhile]. destruct (allBut 58 c) eqn:E; [|done].
  rewrite matchM_Star, starM_longest.
  2:{ intros c' rest caps' Hc'. rewrite matchM_Cat, matchM_Chr.
      unfold allBut in Hc'. unfold one.
      by apply negb_true_iff in Hc' as ->. }
  pose proof (cut_dropWhile (allBut 58) (c :: line)) as Hcut.
  cbn [takeWhile dropWhile] in Hcut. rewrite E in Hcut. rewrite Hcut.
  rewrite matchM_Cat, matchM_Chr.
  destruct (dropWhile (allBut 58) line) as [|c' rest] eqn:Ed; [done|].
  apply dropWhile_cons in Ed. unfold allBut in Ed. unfold one.
  apply negb_false_iff in Ed. rewrite Ed.
  by rewrite matchM_value.
Qed.

Lemma blockLine_continuation (st : blockState) (line : jsstring) :
  beginsWithSpace line = true →
  blockLine st line
  = BlockState (currentHeader st) (currentValue st ++ js " " ++ trim line) (parsed st).
Proof. intros H. unfold blockLine. by rewrite test_reContinuation, H. Qed.

Lemma blockLine_header (st : blockState) (line name value : jsstring) :
  beginsWithSpace line = false → headerLine line = Some (name, value) →
  blockLine st line = BlockState name value (flush st).
Proof.
  intros H Hl. unfold blockLine. rewrite test_reContinuation, H.
  rewrite <- exec_reHeaderLine in Hl.
  destruct (exec reHeaderLine line) as [m|]; [|done].
  by injection Hl as -> ->.
Qed.

Lemma blockLine_other (st : blockState) (line : jsstring) :
  beginsWithSpace line = false → headerLine line = None →
  blockLine st line = BlockState (currentHeader st) (currentValue st) (flush st).
Proof.
  intros H Hl. unfold blockLine. rewrite test_reContinuation, H.
  rewrite <- exec_reHeaderLine in Hl.
  by destruct (exec reHeaderLine line) as [m|].
Qed.

Lemma headerLine_name (line name value : jsstring) :
  headerLine line = Some (name, value) → name ≠ [].
Proof.
  unfold headerLine. destruct (takeWhile (allBut 58) line); [done|].
  destruct (dropWhile (allBut 58) line); [done|]. by intros [= <- _].
Qed.

Lemma fold_continuations (conts : list jsstring) (name value : jsstring)
    (o : gmap jsstring jsstring) :
  Forall (fun line => beginsWithSpace line = true) conts →
  fold_left blockLine conts (BlockState name value o)
  = BlockState name (foldedValue value conts) o.
Proof.
  intros H. revert value. induction H as [|line conts Hl _ IH]; intros value.
  - unfold foldedValue. simpl. by rewrite app_nil_r.
  - cbn [fold_left]. rewrite blockLine_continuation by done. cbn [currentHeader
      currentValue parsed]. rewrite IH. f_equal. unfold foldedValue.
    cbn [map concat]. by rewrite <- !(assoc_L (++)).
Qed.

Section Entry.

Variables name value : jsstring.
Hypothesis name_ok : name ≠ [].

Lemma flush_held (attached : bool) (st : blockState) :
  held name value attached st → flush st !! name = Some value.
Proof.
  pose proof name_ok as Hne.
  unfold held, flush, setProperty. destruct attached.
  - intros [-> ->]. destruct name as [|c n]; [done|]. cbn [truthy].
    apply lookup_insert_eq.
  - intros [Hcur Hp]. destruct (truthy (currentHeader st)); [|done].
    by rewrite lookup_insert_ne.
Qed.

Lemma undisturbed_held (lines : list jsstring) (attached : bool) (st : blockState) :
  undisturbed name attached lines = true → held name value attached st →
  flush (fold_left blockLine lines st) !! name = Some value.
Proof.
  revert attached st. induction lines as [|line more IH]; intros attached st.
  - intros _. apply flush_held.
  - cbn [undisturbed fold_left]. destruct (beginsWithSpace line) eqn:Ews.
    + intros [->%negb_true_iff Hu]%andb_prop Hst.
      apply (IH false); [done|]. by rewrite blockLine_continuation.
    + destruct (headerLine line) as [[name' value']|] eqn:Eh.
      * intros [Hn%negb_true_iff Hu]%andb_prop Hst.
        apply bool_decide_eq_false in Hn.
        apply (IH false); [done|]. rewrite (blockLine_header _ _ name' value') by done.
        split; [done|]. by apply (flush_held attached).
      * intros Hu Hst. apply (IH attached); [done|].
        rewrite blockLine_other by done. destruct attached.
        -- done.
        -- destruct Hst as [Hcur Hp]. split; [done|].
           by apply (flush_held false).
Qed.

End Entry.

(** C8, as the code has it. Take a header block whose physical lines
    hold a header line [name: value] that does not begin with white space,
    then continuation lines, each beginning with white space, then lines
    that neither continue this header while it is the current one nor
    declare its name again. The object that
    [parseBlock] builds has one entry for the name: the value of the first
    line (the text behind the colon and the white space after it, white
    space at its end kept) followed, for every continuation line in order,
    by one space and the trimmed line. The value as a whole is not trimmed.
    In particular the block "Subject: Hello\r\n World\r\n" gives the object
    with the single entry Subject, "Hello World". *)
Theorem parseBlock_folded (block : jsstring) (before conts after : list jsstring)
    (first name value : jsstring) :
  split block CRLF = before ++ first :: conts ++ after →
  beginsWithSpace first = false →
  headerLine first = Some (name, value) →
  Forall (fun line => beginsWithSpace line = true) conts →
  undisturbed name true after = true →
  parseBlock block !! name = Some (foldedValue value conts)
  ∧ parseBlock (js "Subject: Hello\r\n World\r\n")
    = {[ js "Subject" := js "Hello World" ]}.
Proof.
  intros Hsplit Hfirst Hline Hconts Hafter. split; [|by vm_compute].
  unfold parseBlock, parseLines. rewrite Hsplit.
  rewrite fold_left_app. cbn [fold_left].
  set (st0 := fold_left blockLine before _).
  rewrite (blockLine_header st0 first name value) by done.
  rewrite fold_left_app, fold_continuations by done.
  apply (undisturbed_held name (foldedValue value conts)) with (attached := true);
    [|done|done].
  by eapply headerLine_name.
Qed.

Lemma parseBlock_folded_witness :
  parseBlock (js "Subject: Hello\r\n World\r\n") !! js "Subject"
  = Some (foldedValue (js "Hello") [js " World"])
  ∧ parseBlock (js "Subject: Hello\r\n World\r\n")
    = {[ js "Subject" := js "Hello World" ]}.
Proof.
  apply (parseBlock_folded (js "Subject: Hello\r\n World\r\n")
           [] [js " World"] [js ""] (js "Subject: Hello") (js "Subject") (js "Hello")).
  - reflexivity.
  - reflexivity.
  - reflexivity.
  - repeat constructor.
  - reflexivity.
Defined.

(** The name [__proto__] is a name like any other. *)
Example parseBlock_proto :
  parseBlock (js "__proto__: a\r\n b") = {[ js "__proto__" := js "a b" ]}.
Proof. by vm_compute. Qed.

(** C8 as stated fails: white space at the end of the first line stays
    in the value, which then has two spaces where the fold was. *)
Lemma parseBlock_keeps_trailing_space :
  parseBlock (js "Subject: Hello \r\n World") = {[ js "Subject" := js "Hello  World" ]}
  ∧ foldedValueClaimed (js "Hello ") [js " World"] = js "Hello World"
  ∧ parseBlock (js "Subject: Hello \r\n World") !! js "Subject"
    ≠ Some (foldedValueClaimed (js "Hello ") [js " World"]).
Proof. by vm_compute. Qed.
(** ** The headers of a part *)

Lemma forallb_Forall_true (p : N → bool) (s : jsstring) :
  forallb p s = true → Forall (fun c => p c = true) s.
Proof.
  induction s as [|c s IH]; simpl; [constructor|].
  intros [Hc Hs]%andb_prop. constructor; auto.
Qed.

(** The shape of a line that declares a header. *)
Lemma headerLine_shape (line k v : jsstring) :
  headerLine line = Some (k, v) →
  k ≠ []
  ∧ Forall (fun c => c ≠ 58) k
  ∧ Forall (fun c => isLineTerminator c = false) v
  ∧ beginsWithSpace v = false
  ∧ ∃ rest, line = k ++ 58 :: rest.
Proof.
  intros H. pose proof (headerLine_name _ _ _ H) as Hk. revert H.
  unfold headerLine.
  pose proof (takeWhile_all (allBut 58) line) as Hall.
  pose proof (dropWhile_takeWhile (allBut 58) line) as Hcut.
  destruct (takeWhile (allBut 58) line) as [|n name]; [done|].
  destruct (dropWhile (allBut 58) line) as [|c rest] eqn:Hd; [done|].
  intros [= <- <-]. split; [done|]. split; [|split; [|split]].
  - eapply Forall_impl; [exact (forallb_Forall_true _ _ Hall)|].
    intros d Hd'. unfold allBut in Hd'. by apply negb_true_iff, N.eqb_neq in Hd'.
  - eapply Forall_impl;
      [exact (forallb_Forall_true _ _ (takeWhile_all anyUnit _))|].
    intros d Hd'. by apply negb_true_iff in Hd'.
  - destruct (dropWhile isWhiteSpace rest) as [|d rest'] eqn:E; [done|].
    cbn [takeWhile]. destruct (anyUnit d); [|done]. cbn [beginsWithSpace].
    exact (dropWhile_cons _ _ _ _ E).
  - exists rest. apply dropWhile_cons in Hd as Hc. unfold allBut in Hc.
    apply negb_false_iff, N.eqb_eq in Hc. by subst c.
Qed.

(** A line with a colon is not blank. *)
Lemma headerLine_trim (line k v : jsstring) :
  headerLine line = Some (k, v) → truthy (trim line) = true.
Proof.
  intros (_ & _ & _ & _ & rest & ->)%headerLine_shape.
  destruct (trim (k ++ 58 :: rest)) eqn:E; [|done].
  apply trim_nil in E. rewrite forallb_app in E.
  by apply andb_prop in E as [_ E].
Qed.

(** The test for a blank line changes nothing: a blank line does not
    match the pattern either. *)
Lemma partHeaderLine_eq (o : gmap jsstring jsstring) (line : jsstring) :
  partHeaderLine o line
  = match headerLine line with
    | Some (k, v) => <[k := v]> o
    | None => o
    end.
Proof.
  unfold partHeaderLine, setProperty. destruct (headerLine line) as [[k v]|] eqn:E.
  - rewrite (headerLine_trim _ _ _ E). cbn [negb].
    rewrite <- exec_reHeaderLine in E.
    destruct (exec reHeaderLine line) as [m|]; [|done]. by injection E as -> ->.
  - rewrite <- exec_reHeaderLine in E.
    destruct (exec reHeaderLine line) as [m|]; [done|]. by destruct (negb _).
Qed.

Lemma fold_partHeaderLine_lookup (lines : list jsstring)
    (o : gmap jsstring jsstring) (name : jsstring) :
  fold_left partHeaderLine lines o !! name
  = match lastDeclared name lines with
    | Some value => Some value
    | None => o !! name
    end.
Proof.
  revert o. induction lines as [|line more IH]; intros o; [done|].
  cbn [fold_left lastDeclared]. rewrite IH.
  destruct (lastDeclared name more); [done|]. rewrite partHeaderLine_eq.
  destruct (headerLine line) as [[k v]|]; [|done].
  case_bool_decide as Hk.
  - subst k. apply lookup_insert_eq.
  - by apply lookup_insert_ne.
Qed.

(** The entry of a name in the header object of a part is the value of
    the last line that declares the name. *)
Lemma partHeaders_lookup (headersText name : jsstring) :
  partHeaders headersText !! name = lastDeclared name (split headersText CRLF).
Proof.
  unfold partHeaders. rewrite fold_partHeaderLine_lookup.
  by destruct (lastDeclared name _).
Qed.

Lemma propertyOr_partHeaders (part name fallback : jsstring) :
  propertyOr (partHeaders (partHeadersText part)) name fallback
  = localHeader name fallback part.
Proof. unfold propertyOr, localHeader. by rewrite partHeaders_lookup. Qed.

Lemma partDecoded_local (part : jsstring) : partDecoded part = localDecoded part.
Proof.
  unfold partDecoded, localDecoded, partEncoding, localEncoding.
  by rewrite propertyOr_partHeaders.
Qed.

Lemma partKindOf_local (part : jsstring) :
  partKindOf part
  = if typeContains (js "text/plain") part then PlainPart
    else if typeContains (js "text/html") part then HtmlPart
    else OtherPart.
Proof.
  unfold partKindOf, classify, partContentType, typeContains, localContentType.
  by rewrite propertyOr_partHeaders.
Qed.

(** ** The accumulators *)

Lemma processPart_local (acc : accumulators) (part : jsstring) :
  processPart acc part = (Normal (storePart acc part), localWarnings part).
Proof.
  unfold processPart, storePart, partDecoded, localWarnings, partEncoding,
    localEncoding.
  rewrite propertyOr_partHeaders.
  destruct (decodeBody_returns (partContent part)
              (Some (localHeader (js "Content-Transfer-Encoding") (js "7bit") part)))
    as (s & log & E).
  rewrite E, JS_bind_Normal. unfold returned. cbn [fst snd mret JS_ret].
  by rewrite app_nil_r.
Qed.

Lemma forOf_processPart_local (parts : list jsstring) (acc : accumulators) :
  forOf processPart parts acc
  = (Normal (fold_left storePart parts acc), concat (localWarnings <$> parts)).
Proof.
  revert acc. induction parts as [|part parts IH]; intros acc; [done|].
  cbn [forOf fold_left]. rewrite processPart_local, JS_bind_Normal, IH. done.
Qed.

Lemma lastOfKind_plain (parts : list jsstring) :
  lastOfKind PlainPart parts = lastWhere (typeContains (js "text/plain")) parts.
Proof.
  unfold lastOfKind, lastWhere. do 2 f_equal.
  rewrite (list_fmap_ext partDecoded localDecoded) by (intros; apply partDecoded_local).
  f_equal. apply list_filter_iff. intros part.
  rewrite bool_decide_spec, partKindOf_local.
  destruct (typeContains (js "text/plain") part),
    (typeContains (js "text/html") part); cbn [andb negb];
    split; intros H; try reflexivity; try discriminate H.
Qed.

Lemma lastOfKind_html (parts : list jsstring) :
  lastOfKind HtmlPart parts
  = lastWhere (fun part => typeContains (js "text/html") part
                           && negb (typeContains (js "text/plain") part)) parts.
Proof.
  unfold lastOfKind, lastWhere. do 2 f_equal.
  rewrite (list_fmap_ext partDecoded localDecoded) by (intros; apply partDecoded_local).
  f_equal. apply list_filter_iff. intros part.
  rewrite bool_decide_spec, partKindOf_local.
  destruct (typeContains (js "text/plain") part),
    (typeContains (js "text/html") part); cbn [andb negb];
    split; intros H; try reflexivity; try discriminate H.
Qed.

(** The loop ends with the decoded content of the last part of each kind,
    and with the warnings of the decoding of every part it processed. *)
Lemma partsLoop_accumulators (body boundary : jsstring) :
  let processed :=
    filter (fun part => negb (skipped part)) (fragments body boundary) in
  partsLoop body boundary
  = (Normal
       (Accumulators
          (lastWhere (typeContains (js "text/plain")) processed)
          (lastWhere (fun part => typeContains (js "text/html") part
                                  && negb (typeContains (js "text/plain") part))
             processed)),
     concat (localWarnings <$> processed)).
Proof.
  intros processed. unfold partsLoop. rewrite forOf_skip.
  fold (fragments body boundary). fold processed.
  rewrite forOf_processPart_local. do 2 f_equal.
  pose proof (fold_storePart_text processed (Accumulators [] [])) as Ht.
  pose proof (fold_storePart_html processed (Accumulators [] [])) as Hh.
  destruct (fold_left storePart processed (Accumulators [] [])) as [t h].
  cbn [textContent htmlContent] in Ht, Hh. fold (lastOfKind PlainPart processed) in Ht.
  fold (lastOfKind HtmlPart processed) in Hh.
  by rewrite Ht, Hh, lastOfKind_plain, lastOfKind_html.
Qed.

(** C6, as the code has it. A fragment that is not passed over has as
    local content type the value of the last Content-Type line of its header
    block ("text/plain" when there is none or the value is empty). When the
    loop is done, [textContent] is the decoded content of the last such
    fragment whose content type contains "text/plain", and [htmlContent]
    that of the last one whose content type contains "text/html" and does
    not contain "text/plain": the test for "text/plain" comes first, so a
    part whose type contains both strings goes to [textContent] alone. Each
    one is the empty string when there is no such part. Every part of a kind
    overwrites what the earlier ones of that kind left: nothing is appended
    and the first does not win. The warnings are those of the decoding of
    the fragments not passed over, in order. *)
Theorem partsLoop_last_part_wins (body boundary : jsstring) :
  let processed :=
    filter (fun part => negb (skipped part)) (fragments body boundary) in
  partsLoop body boundary
  = (Normal
       (Accumulators
          (lastWhere (typeContains (js "text/plain")) processed)
          (lastWhere (fun part => typeContains (js "text/html") part
                                  && negb (typeContains (js "text/plain") part))
             processed)),
     concat (localWarnings <$> processed)).
Proof. apply partsLoop_accumulators. Qed.

(** C6 as stated fails: a part whose content type contains "text/html"
    and, in a parameter, "text/plain" does not overwrite [htmlContent]; it
    overwrites [textContent]. *)
Lemma partsLoop_html_part_stored_as_plain :
  let body :=
    js "--b\r\nContent-Type: text/html\r\n\r\nA\r\n--b\r\nContent-Type: text/html; x=text/plain\r\n\r\nB\r\n--b--\r\n" in
  let processed :=
    filter (fun part => negb (skipped part)) (fragments body (js "b")) in
  partsLoop body (js "b") = (Normal (Accumulators (js "B\r\n") (js "A\r\n")), [])
  ∧ localContentType <$> processed
    = [js "text/html"; js "text/html; x=text/plain"]
  ∧ lastWhere (typeContains (js "text/html")) processed = js "B\r\n"
  ∧ js "A\r\n" ≠ lastWhere (typeContains (js "text/html")) processed.
Proof. by vm_compute. Qed.


(** A tag between two words leaves a space between them. *)
Example multipart_tag_between_words :
  parseMultipartMessage
    (js "--b\r\nContent-Type: text/html\r\n\r\none<br>two\r\n--b--\r\n") (js "b")
  = (Normal (js "one two"), []).
Proof. by vm_compute. Qed.
(** ** The two paths of the body display *)

(** C2 fails on the code. The raw path tests the header value as it is
    written for "multipart/", the structured path tests the lower-case
    content type: a message whose Content-Type is written Multipart/... is
    shown undecoded by the raw path and decoded into its text part by the
    structured path on the same headers and body. *)
Lemma rawPath_misses_upper_case_multipart :
  let raw :=
    js "Content-Type: Multipart/Alternative; boundary=b\r\n\r\n--b\r\nContent-Type: text/plain\r\n\r\nHello\r\n--b--\r\n" in
  rawPath raw
  = (Normal (Shown (js "--b\r\nContent-Type: text/plain\r\n\r\nHello\r\n--b--\r\n")), [])
  ∧ structuredOnRaw raw = (Normal (Shown (js "Hello\r\n")), [])
  ∧ rawPath raw ≠ structuredOnRaw raw.
Proof. by vm_compute. Qed.

(** The raw path reads the transfer encoding only next to a Content-Type
    header, and untrimmed. *)
Example rawPath_encoding_without_type :
  let raw := js "Content-Transfer-Encoding: base64\r\n\r\nSGVsbG8=" in
  rawPath raw = (Normal (Shown (js "SGVsbG8=")), [])
  ∧ structuredOnRaw raw = (Normal (Shown (js "Hello")), []).
Proof. by vm_compute. Qed.

(** A parameter that holds "html" makes the raw path strip tags from a
    text/plain body. *)
Example rawPath_html_in_parameter :
  let raw := js "Content-Type: text/plain; name=a.html\r\n\r\n1 <2> 3" in
  rawPath raw = (Normal (Shown (js "1 3")), [])
  ∧ structuredOnRaw raw = (Normal (Shown (js "1 <2> 3")), []).
Proof. by vm_compute. Qed.
(** ** The base64 round trip *)

Import Reference.

(** *** Arithmetic *)

Lemma div_add_l (q r d : N) : r < d → (q * d + r) / d = q.
Proof. intros H. symmetry. apply (N.div_unique _ d q r); lia. Qed.

Lemma mod_add_l (q r d : N) : r < d → (q * d + r) mod d = r.
Proof. intros H. symmetry. apply (N.mod_unique _ d q r); lia. Qed.

(** [a = d * (a / d) + a mod d], with the bound on the remainder. *)
Ltac euclid a d :=
  let q := fresh "q" in
  let r := fresh "r" in
  let Hq := fresh "Hq" in
  let Hr := fresh "Hr" in
  pose proof (N.div_mod a d ltac:(lia)) as Hq;
  pose proof (N.mod_lt a d ltac:(lia)) as Hr;
  set (q := a / d) in *; set (r := a mod d) in *;
  clearbody q r.

(** *** The alphabet *)

Lemma sextet_digit (v : N) : v < 64 → Base64.sextet (digit v) = Some v.
Proof.
  intros Hv.
  pose proof (below_forallb
                (fun v => bool_decide (Base64.sextet (digit v) = Some v)) 64
                ltac:(by vm_compute) v Hv) as H.
  by apply bool_decide_eq_true in H.
Qed.

Lemma digit_plain (v : N) :
  Base64.isAsciiWhitespace (digit v) = false ∧ (digit v =? 61) = false.
Proof.
  unfold digit.
  repeat match goal with
         | |- context [if ?b then _ else _] => destruct b eqn:?
         end;
    repeat match goal with
           | H : (_ <? _) = true |- _ => apply N.ltb_lt in H
           | H : (_ <? _) = false |- _ => apply N.ltb_ge in H
           | H : (_ =? _) = true |- _ => apply N.eqb_eq in H
           | H : (_ =? _) = false |- _ => apply N.eqb_neq in H
           end;
    unfold Base64.isAsciiWhitespace;
    (split; [repeat (apply orb_false_intro)|]; apply N.eqb_neq; lia).
Qed.

(** *** Sextets *)

Lemma list_ind3 (P : list N → Prop) :
  P [] → (∀ a, P [a]) → (∀ a b, P [a; b]) →
  (∀ a b c rest, P rest → P (a :: b :: c :: rest)) → ∀ l, P l.
Proof.
  intros H0 H1 H2 H3. fix IH 1. intros [|a [|b [|c rest]]]; [done..|].
  apply H3, IH.
Qed.

Lemma sextets_below (bytes : list N) :
  Forall (fun b => b < 256) bytes → Forall (fun v => v < 64) (sextets bytes).
Proof.
  induction bytes as [|a|a b|a b c rest IH] using list_ind3; intros H.
  - constructor.
  - apply Forall_cons in H as [Ha _]. cbn [sextets].
    euclid a 4. repeat constructor; lia.
  - apply Forall_cons in H as [Ha [Hb _]%Forall_cons]. cbn [sextets].
    euclid a 4. euclid b 16. repeat constructor; lia.
  - apply Forall_cons in H as [Ha [Hb [Hc H]%Forall_cons]%Forall_cons].
    cbn [sextets]. euclid a 4. euclid b 16. euclid c 64.
    repeat (constructor; [lia|]). by apply IH.
Qed.

Lemma drain_sextets (bytes : list N) :
  Forall (fun b => b < 256) bytes → Base64.drain 0 0 (sextets bytes) = bytes.
Proof.
  induction bytes as [|a|a b|a b c rest IH] using list_ind3; intros H.
  - done.
  - apply Forall_cons in H as [Ha _]. cbn. f_equal.
    euclid a 4.
    replace ((0 * 64 + q) * 64 + r * 16) with ((4 * q + r) * 16 + 0) by lia.
    rewrite div_add_l; lia.
  - apply Forall_cons in H as [Ha [Hb _]%Forall_cons]. cbn.
    euclid a 4. euclid b 16.
    replace (((0 * 64 + q) * 64 + (r * 16 + q0)) * 64 + r0 * 4)
      with ((a * 256 + b) * 4 + 0) by lia.
    rewrite div_add_l by lia. rewrite div_add_l, mod_add_l by lia. done.
  - apply Forall_cons in H as [Ha [Hb [Hc H]%Forall_cons]%Forall_cons].
    cbn [sextets]. cbn. rewrite (IH H).
    euclid a 4. euclid b 16. euclid c 64.
    replace ((((0 * 64 + q) * 64 + (r * 16 + q0)) * 64 + (r0 * 4 + q1)) * 64 + r1)
      with ((a * 256 + b) * 256 + c) by lia.
    rewrite mod_add_l by lia. rewrite (div_add_l _ c) by lia.
    rewrite mod_add_l by lia.
    replace ((a * 256 + b) * 256 + c) with (a * 65536 + (b * 256 + c)) by lia.
    rewrite div_add_l by lia. done.
Qed.

Lemma padding_cons3 (a b c : N) (rest : list N) :
  padding (a :: b :: c :: rest) = padding rest.
Proof.
  unfold padding. cbn [length].
  replace (S (S (S (length rest)))) with (length rest + 1 * 3)%nat by lia.
  by rewrite Nat.Div0.mod_add.
Qed.

Lemma padding_cases (bytes : list N) :
  padding bytes = [] ∨ padding bytes = [61] ∨ padding bytes = [61; 61].
Proof. unfold padding. destruct (length bytes mod 3)%nat as [|[|n]]; auto. Qed.

Lemma length_base64 (bytes : list N) :
  (length (sextets bytes) mod 4 ≠ 1)%nat
  ∧ (length (map digit (sextets bytes) ++ padding bytes) mod 4 = 0)%nat.
Proof.
  rewrite length_app, length_map.
  induction bytes as [|a|a b|a b c rest IH] using list_ind3; try (by vm_compute).
  rewrite padding_cons3. cbn [sextets length].
  replace (S (S (S (S (length (sextets rest))))))
    with (length (sextets rest) + 1 * 4)%nat by lia.
  replace (length (sextets rest) + 1 * 4 + length (padding rest))%nat
    with (length (sextets rest) + length (padding rest) + 1 * 4)%nat by lia.
  by rewrite !Nat.Div0.mod_add.
Qed.

Lemma filter_all (P : N → bool) (l : list N) :
  Forall (fun c => P c = true) l → filter (fun c => P c) l = l.
Proof.
  induction 1 as [|c l Hc _ IH]; [done|].
  rewrite filter_cons_True by (by rewrite Hc). by rewrite IH.
Qed.

Lemma stripPadding_padded (digits pad : jsstring) :
  (length (digits ++ pad) mod 4 = 0)%nat →
  pad = [] ∨ pad = [61] ∨ pad = [61; 61] →
  Forall (fun c => (c =? 61) = false) digits →
  Base64.stripPadding (digits ++ pad) = digits.
Proof.
  intros Hlen Hpad Hd. unfold Base64.stripPadding. rewrite Hlen. cbn [Nat.eqb].
  rewrite rev_app_distr.
  assert (∀ c r, rev digits = c :: r → (c =? 61) = false) as Hlast.
  { intros c r Hr. rewrite Forall_forall in Hd. apply Hd.
    apply list_elem_of_In, in_rev. rewrite Hr. by left. }
  destruct Hpad as [->|[->| ->]]; cbn [rev app].
  - rewrite app_nil_r. destruct (rev digits) as [|c r] eqn:E; [done|].
    by rewrite (Hlast c r).
  - cbn [N.eqb Pos.eqb]. destruct (rev digits) as [|c r] eqn:E.
    + apply (f_equal (@rev N)) in E. by rewrite rev_involutive in E.
    + rewrite (Hlast c r) by done. by rewrite <- E, rev_involutive.
  - cbn [N.eqb Pos.eqb]. by rewrite rev_involutive.
Qed.

Lemma mapM_sextet_digit (vs : list N) :
  Forall (fun v => v < 64) vs → mapM Base64.sextet (map digit vs) = Some vs.
Proof.
  intros H. apply mapM_Some. induction H as [|v vs Hv _ IH]; constructor; [|done].
  by apply sextet_digit.
Qed.

(** Forgiving decoding undoes standard base64. *)
Lemma forgivingDecode_base64 (bytes : list N) :
  Forall (fun b => b < 256) bytes →
  Base64.forgivingDecode (base64 bytes) = Some bytes.
Proof.
  intros H. unfold Base64.forgivingDecode, base64.
  destruct (length_base64 bytes) as [Hlen1 Hlen0].
  rewrite (filter_all (fun c => negb (Base64.isAsciiWhitespace c))).
  2:{ apply Forall_app. split.
      - apply Forall_forall. intros c (v & <- & _)%list_elem_of_In%in_map_iff.
        by rewrite (proj1 (digit_plain v)).
      - destruct (padding_cases bytes) as [->|[->| ->]]; repeat constructor. }
  rewrite stripPadding_padded; [|done|apply padding_cases|].
  2:{ apply Forall_forall. intros c (v & <- & _)%list_elem_of_In%in_map_iff.
      apply digit_plain. }
  rewrite length_map. apply Nat.eqb_neq in Hlen1. rewrite Hlen1.
  rewrite mapM_sextet_digit by (by apply sextets_below).
  cbn [fmap option_fmap option_map]. by rewrite drain_sextets.
Qed.

Lemma Uint8Array_from_bytes (bytes : list N) :
  Forall (fun b => b < 256) bytes → Uint8Array_from bytes charCodeAt0 = bytes.
Proof.
  unfold Uint8Array_from, charCodeAt0. induction 1 as [|b bytes Hb _ IH]; [done|].
  cbn [map]. rewrite IH. by rewrite N.mod_small.
Qed.

Lemma decodeBase64_base64 (bytes : list N) :
  Forall (fun b => b < 256) bytes →
  decodeBase64 (base64 bytes) = (Normal (TextDecoder_decode bytes), []).
Proof.
  intros H. unfold decodeBase64, atob. rewrite forgivingDecode_base64 by done.
  rewrite JS_bind_mret. by rewrite Uint8Array_from_bytes.
Qed.

(** ** The UTF-8 round trip *)

Ltac decide_tests :=
  repeat match goal with
         | |- context [?a <=? ?b] =>
             first [rewrite (proj2 (N.leb_le a b)) by lia
                   |rewrite (proj2 (N.leb_gt a b)) by lia]
         | |- context [?a <? ?b] =>
             first [rewrite (proj2 (N.ltb_lt a b)) by lia
                   |rewrite (proj2 (N.ltb_ge a b)) by lia]
         | |- context [?a =? ?b] =>
             first [rewrite (proj2 (N.eqb_eq a b)) by lia
                   |rewrite (proj2 (N.eqb_neq a b)) by lia]
         end;
  cbn [andb orb negb].

Lemma lor_shiftl_6 (x y : N) :
  N.lor (N.shiftl x 6) (N.land y 63) = x * 64 + y mod 64.
Proof.
  change 63 with (N.ones 6). rewrite N.land_ones.
  rewrite <- N.lxor_lor, <- N.add_nocarry_lxor.
  - by rewrite N.shiftl_mul_pow2.
  - apply N.bits_inj_0. intros n. rewrite N.land_spec.
    destruct (N.lt_ge_cases n 6) as [Hn|Hn].
    + by rewrite N.shiftl_spec_low.
    + rewrite N.mod_pow2_bits_high by done. apply andb_false_r.
  - apply N.bits_inj_0. intros n. rewrite N.land_spec.
    destruct (N.lt_ge_cases n 6) as [Hn|Hn].
    + by rewrite N.shiftl_spec_low.
    + rewrite N.mod_pow2_bits_high by done. apply andb_false_r.
Qed.

Section Decoder.

Variable rest : list N.

Let go := fun n c l u => Utf8.decodeGo n c l u rest.

Lemma decodeGo_lead (b cp lower upper : N) :
  Utf8.decodeGo 0 cp lower upper (b :: rest) = Utf8.onLead b go.
Proof. reflexivity. Qed.

Lemma decodeGo_last (b cp lower upper : N) :
  lower ≤ b → b ≤ upper →
  Utf8.decodeGo 1 cp lower upper (b :: rest)
  = cp * 64 + b mod 64 :: Utf8.decodeGo 0 0 128 191 rest.
Proof.
  intros Hl Hu. cbn [Utf8.decodeGo]. decide_tests. by rewrite lor_shiftl_6.
Qed.

Lemma decodeGo_more (n : nat) (b cp lower upper : N) :
  lower ≤ b → b ≤ upper →
  Utf8.decodeGo (S (S n)) cp lower upper (b :: rest)
  = Utf8.decodeGo (S n) (cp * 64 + b mod 64) 128 191 rest.
Proof.
  intros Hl Hu. cbn [Utf8.decodeGo]. decide_tests. by rewrite lor_shiftl_6.
Qed.

Lemma onLead_1 (b : N) :
  b ≤ 127 → Utf8.onLead b go = b :: Utf8.decodeGo 0 0 128 191 rest.
Proof. intros H. unfold Utf8.onLead. by decide_tests. Qed.

Lemma onLead_2 (b : N) :
  194 ≤ b → b ≤ 223 →
  Utf8.onLead b go = Utf8.decodeGo 1 (b mod 32) 128 191 rest.
Proof.
  intros Hl Hu. unfold Utf8.onLead. decide_tests.
  change 31 with (N.ones 5). by rewrite N.land_ones.
Qed.

Lemma onLead_3 (b : N) :
  224 ≤ b → b ≤ 239 →
  Utf8.onLead b go
  = Utf8.decodeGo 2 (b mod 16) (if b =? 224 then 160 else 128)
      (if b =? 237 then 159 else 191) rest.
Proof.
  intros Hl Hu. unfold Utf8.onLead.
  rewrite (proj2 (N.leb_gt b 127)) by lia.
  rewrite (proj2 (N.leb_le 194 b)) by lia.
  rewrite (proj2 (N.leb_gt b 223)) by lia.
  rewrite (proj2 (N.leb_le 224 b)) by lia.
  rewrite (proj2 (N.leb_le b 239)) by lia. cbn [andb].
  change 15 with (N.ones 4). by rewrite N.land_ones.
Qed.

Lemma onLead_4 (b : N) :
  240 ≤ b → b ≤ 244 →
  Utf8.onLead b go
  = Utf8.decodeGo 3 (b mod 8) (if b =? 240 then 144 else 128)
      (if b =? 244 then 143 else 191) rest.
Proof.
  intros Hl Hu. unfold Utf8.onLead.
  rewrite (proj2 (N.leb_gt b 127)) by lia.
  rewrite (proj2 (N.leb_le 194 b)) by lia.
  rewrite (proj2 (N.leb_gt b 223)) by lia.
  rewrite (proj2 (N.leb_le 224 b)) by lia.
  rewrite (proj2 (N.leb_gt b 239)) by lia.
  rewrite (proj2 (N.leb_le 240 b)) by lia.
  rewrite (proj2 (N.leb_le b 244)) by lia. cbn [andb].
  change 7 with (N.ones 3). by rewrite N.land_ones.
Qed.

End Decoder.

Lemma isScalar_bounds (cp : N) :
  isScalar cp = true → cp < 1114112 ∧ (cp < 55296 ∨ 57343 < cp).
Proof.
  unfold isScalar. intros [H1%N.ltb_lt H2%negb_true_iff]%andb_prop.
  split; [done|]. apply andb_false_iff in H2 as [H%N.leb_gt|H%N.leb_gt]; lia.
Qed.

(** The decoder reads the UTF-8 of a scalar value back. *)
Lemma decodeGo_utf8 (cp : N) (rest : list N) :
  isScalar cp = true →
  Utf8.decodeGo 0 0 128 191 (utf8 cp ++ rest)
  = cp :: Utf8.decodeGo 0 0 128 191 rest.
Proof.
  intros [Hmax Hsur]%isScalar_bounds. unfold utf8.
  destruct (N.ltb_spec cp 128) as [H1|H1];
    [|destruct (N.ltb_spec cp 2048) as [H2|H2];
      [|destruct (N.ltb_spec cp 65536) as [H3|H3]]]; cbn [app].
  - rewrite decodeGo_lead, onLead_1 by lia. done.
  - euclid cp 64.
    rewrite decodeGo_lead, onLead_2 by lia.
    replace (192 + q) with (6 * 32 + q) by lia. rewrite mod_add_l by lia.
    rewrite decodeGo_last by lia.
    replace (128 + r) with (2 * 64 + r) by lia. rewrite mod_add_l by lia.
    f_equal. lia.
  - change 4096 with (64 * 64). rewrite <- N.Div0.div_div.
    euclid cp 64. euclid q 64.
    rewrite decodeGo_lead, onLead_3 by lia.
    replace (224 + q0) with (14 * 16 + q0) at 1 by lia. rewrite mod_add_l by lia.
    assert ((if 224 + q0 =? 224 then 160 else 128) ≤ 128 + r0) as Hlow.
    { destruct (N.eqb_spec (224 + q0) 224); lia. }
    assert (128 + r0 ≤ (if 224 + q0 =? 237 then 159 else 191)) as Hup.
    { destruct (N.eqb_spec (224 + q0) 237); lia. }
    rewrite decodeGo_more by done.
    replace (128 + r0) with (2 * 64 + r0) by lia. rewrite mod_add_l by lia.
    rewrite decodeGo_last by lia.
    replace (128 + r) with (2 * 64 + r) by lia. rewrite mod_add_l by lia.
    f_equal. lia.
  - change 262144 with (64 * (64 * 64)). change 4096 with (64 * 64).
    rewrite <- !N.Div0.div_div.
    euclid cp 64. euclid q 64. euclid q0 64.
    rewrite decodeGo_lead, onLead_4 by lia.
    replace (240 + q1) with (30 * 8 + q1) at 1 by lia. rewrite mod_add_l by lia.
    assert ((if 240 + q1 =? 240 then 144 else 128) ≤ 128 + r1) as Hlow.
    { destruct (N.eqb_spec (240 + q1) 240); lia. }
    assert (128 + r1 ≤ (if 240 + q1 =? 244 then 143 else 191)) as Hup.
    { destruct (N.eqb_spec (240 + q1) 244); lia. }
    rewrite decodeGo_more by done.
    replace (128 + r1) with (2 * 64 + r1) by lia. rewrite mod_add_l by lia.
    rewrite decodeGo_more by lia.
    replace (128 + r0) with (2 * 64 + r0) by lia. rewrite mod_add_l by lia.
    rewrite decodeGo_last by lia.
    replace (128 + r) with (2 * 64 + r) by lia. rewrite mod_add_l by lia.
    f_equal. lia.
Qed.

Lemma utf8_below (cp : N) :
  isScalar cp = true → Forall (fun b => b < 256) (utf8 cp).
Proof.
  intros [Hmax Hsur]%isScalar_bounds. unfold utf8.
  destruct (N.ltb_spec cp 128) as [H1|H1];
    [|destruct (N.ltb_spec cp 2048) as [H2|H2];
      [|destruct (N.ltb_spec cp 65536) as [H3|H3]]].
  - repeat constructor. lia.
  - euclid cp 64. repeat constructor; lia.
  - change 4096 with (64 * 64). rewrite <- N.Div0.div_div.
    euclid cp 64. euclid q 64. repeat constructor; lia.
  - change 262144 with (64 * (64 * 64)). change 4096 with (64 * 64).
    rewrite <- !N.Div0.div_div.
    euclid cp 64. euclid q 64. euclid q0 64. repeat constructor; lia.
Qed.

Lemma decodeBytes_utf8 (cps : list N) :
  Forall (fun cp => isScalar cp = true) cps →
  Utf8.decodeBytes (concat (map utf8 cps)) = cps
  ∧ Forall (fun b => b < 256) (concat (map utf8 cps)).
Proof.
  unfold Utf8.decodeBytes. induction 1 as [|cp cps Hcp _ [IH1 IH2]]; [done|].
  cbn [map concat]. split.
  - rewrite decodeGo_utf8 by done. by rewrite IH1.
  - apply Forall_app. split; [by apply utf8_below|done].
Qed.

(** ** Strings and code points *)

Lemma surrogate_tests (c : N) :
  (isHighSurrogate c = true ↔ 55296 ≤ c ∧ c ≤ 56319)
  ∧ (isLowSurrogate c = true ↔ 56320 ≤ c ∧ c ≤ 57343).
Proof.
  unfold isHighSurrogate, isLowSurrogate.
  rewrite !andb_true_iff, !N.leb_le. done.
Qed.

Lemma units_pair (c d : N) :
  isHighSurrogate c = true → isLowSurrogate d = true →
  Utf8.units (65536 + (c - 55296) * 1024 + (d - 56320)) = [c; d]
  ∧ isScalar (65536 + (c - 55296) * 1024 + (d - 56320)) = true.
Proof.
  intros Hc%surrogate_tests Hd%surrogate_tests. unfold Utf8.units, isScalar.
  split.
  - rewrite (proj2 (N.ltb_ge _ _)) by lia.
    replace (65536 + (c - 55296) * 1024 + (d - 56320) - 65536)
      with ((c - 55296) * 1024 + (d - 56320)) by lia.
    rewrite div_add_l, mod_add_l by lia. f_equal; [lia|f_equal; lia].
  - apply andb_true_iff. split; [apply N.ltb_lt; lia|].
    apply negb_true_iff, andb_false_iff. right. apply N.leb_gt. lia.
Qed.

Lemma units_single (c : N) :
  c < 65536 → isHighSurrogate c = false → isLowSurrogate c = false →
  Utf8.units c = [c] ∧ isScalar c = true.
Proof.
  intros Hc Hh Hl. unfold Utf8.units, isScalar.
  rewrite (proj2 (N.ltb_lt _ _)) by lia. split; [done|].
  apply andb_true_iff. split; [apply N.ltb_lt; lia|]. apply negb_true_iff.
  unfold isHighSurrogate, isLowSurrogate in *.
  apply andb_false_iff in Hh as [Hh%N.leb_gt|Hh%N.leb_gt];
    apply andb_false_iff in Hl as [Hl%N.leb_gt|Hl%N.leb_gt];
    apply andb_false_iff; rewrite !N.leb_gt; lia.
Qed.

(** A well-formed string is the UTF-16 of its code points, which are
    scalar values. *)
Lemma codePoints_wellFormed (s : jsstring) :
  isWellFormed s = true →
  Utf8.toString (codePoints s) = s
  ∧ Forall (fun cp => isScalar cp = true) (codePoints s).
Proof.
  remember (length s) as n eqn:Hn. revert s Hn.
  induction n as [n IH] using lt_wf_ind. intros s Hn.
  destruct s as [|c rest]; [done|]. cbn [isWellFormed codePoints].
  destruct (isHighSurrogate c) eqn:Hh.
  - destruct rest as [|d rest']; [done|].
    intros [Hd Hwf]%andb_prop. rewrite Hd.
    destruct (IH (length rest')) with (s := rest') as [IH1 IH2];
      [simpl in Hn; lia|done|done|].
    destruct (units_pair c d Hh Hd) as [Hu Hs].
    unfold Utf8.toString in *. cbn [map concat]. rewrite Hu, IH1.
    split; [done|by constructor].
  - intros [[Hc%N.ltb_lt Hl%negb_true_iff]%andb_prop Hwf]%andb_prop. rewrite Hl.
    destruct (IH (length rest)) with (s := rest) as [IH1 IH2];
      [simpl in Hn; lia|done|done|].
    destruct (units_single c Hc Hh Hl) as [Hu Hs].
    unfold Utf8.toString in *. cbn [map concat]. rewrite Hu, IH1.
    split; [done|by constructor].
Qed.

Lemma decodeBody_as_base64 (body enc : jsstring) :
  toLowerCase enc = js "base64" →
  decodeBody body (Some enc) = decodeBase64 body.
Proof.
  intros H. unfold decodeBody. destruct enc as [|c enc]; [done|].
  cbn [truthy negb]. rewrite H. by rewrite bool_decide_eq_true_2.
Qed.

(** What comes back from the base64 of a well-formed string. *)
Lemma decodeBase64_encodeBase64 (s : jsstring) :
  isWellFormed s = true →
  decodeBase64 (encodeBase64 s)
  = (Normal (Utf8.toString (Utf8.dropBOM (codePoints s))), []).
Proof.
  intros [_ Hs]%codePoints_wellFormed. unfold encodeBase64, utf8Bytes.
  destruct (decodeBytes_utf8 (codePoints s) Hs) as [Hdec Hbytes].
  rewrite decodeBase64_base64 by done.
  unfold TextDecoder_decode. by rewrite Hdec.
Qed.

(** C10, as the code has it. For every well-formed string [s] (16-bit
    code units, every surrogate half of a pair: the strings UTF-8 can
    represent), decoding the standard base64 of its UTF-8 bytes as
    "base64" returns [s] itself, without a warning, when [s] does not
    begin with U+FEFF; when it does, the decoder takes that first code
    unit for a byte order mark and returns [s] without it. *)
Theorem decodeBody_base64_round_trip (s : jsstring) :
  isWellFormed s = true →
  (hd_error s ≠ Some 65279 →
   decodeBody (encodeBase64 s) (Some (js "base64")) = (Normal s, []))
  ∧ (∀ s', s = 65279 :: s' →
     decodeBody (encodeBase64 s) (Some (js "base64")) = (Normal s', [])).
Proof.
  intros Hwf. rewrite decodeBody_as_base64 by done.
  rewrite decodeBase64_encodeBase64 by done.
  split.
  - intros Hhd. destruct (codePoints_wellFormed s Hwf) as [Hs _].
    enough (Utf8.dropBOM (codePoints s) = codePoints s) as -> by by rewrite Hs.
    destruct s as [|c rest]; [done|]. cbn [codePoints] in *.
    destruct (isHighSurrogate c) eqn:Hh.
    + destruct rest as [|d rest']; [done|]. cbn [isWellFormed] in Hwf.
      rewrite Hh in Hwf. apply andb_prop in Hwf as [Hd _]. rewrite Hd.
      unfold Utf8.dropBOM. apply surrogate_tests in Hh, Hd.
      by rewrite (proj2 (N.eqb_neq _ _)) by lia.
    + cbn [isWellFormed] in Hwf. rewrite Hh in Hwf.
      apply andb_prop in Hwf as [[_ Hl%negb_true_iff]%andb_prop _]. rewrite Hl.
      unfold Utf8.dropBOM. destruct (N.eqb_spec c 65279) as [->|]; [|done].
      by destruct Hhd.
  - intros s' ->. cbn [isWellFormed] in Hwf.
    change (isHighSurrogate 65279) with false in Hwf. cbn iota in Hwf.
    apply andb_prop in Hwf as [_ Hwf].
    destruct (codePoints_wellFormed s' Hwf) as [Hs _].
    change (codePoints (65279 :: s')) with (65279 :: codePoints s').
    change (Utf8.dropBOM (65279 :: codePoints s')) with (codePoints s'). by rewrite Hs.
Qed.

Lemma decodeBody_base64_round_trip_witness :
  let s := js "caf\u00e9 \ud83d\ude00" in
  isWellFormed s = true ∧ hd_error s ≠ Some 65279
  ∧ decodeBody (encodeBase64 s) (Some (js "base64")) = (Normal s, []).
Proof.
  intros s.
  assert (isWellFormed s = true) as Hwf by reflexivity.
  assert (hd_error s ≠ Some 65279) as Hhd by (by vm_compute).
  split; [exact Hwf|]. split; [exact Hhd|].
  exact (proj1 (decodeBody_base64_round_trip s Hwf) Hhd).
Defined.

(** C10 as stated fails: a string that begins with U+FEFF comes back
    without it. *)
Lemma decodeBody_base64_drops_BOM :
  isWellFormed (js "\ufeffhi") = true
  ∧ encodeBase64 (js "\ufeffhi") = js "77u/aGk="
  ∧ decodeBody (encodeBase64 (js "\ufeffhi")) (Some (js "base64"))
    = (Normal (js "hi"), [])
  ∧ decodeBody (encodeBase64 (js "\ufeffhi")) (Some (js "base64"))
    ≠ (Normal (js "\ufeffhi"), []).
Proof. by vm_compute. Qed.
(** * Further properties *)

(** ** The transfer decoder *)

(** X1. [decodeBody] returns the body as it is, without a warning, when no
    encoding is given and when the name given is, in lower case, neither
    "base64" nor "quoted-printable": "7bit", "8bit", "binary", the empty
    string and every unknown name, a name with white space around it
    included. *)
Theorem decodeBody_other_encodings (body : jsstring) (encoding : option jsstring) :
  (∀ enc, encoding = Some enc →
     toLowerCase enc ≠ js "base64" ∧ toLowerCase enc ≠ js "quoted-printable") →
  decodeBody body encoding = (Normal body, []).
Proof.
  intros H. destruct encoding as [enc|]; [|done].
  destruct (H enc eq_refl) as [H1 H2]. unfold decodeBody.
  destruct (truthy enc); [|done]. cbn [negb].
  by rewrite !bool_decide_eq_false_2.
Qed.

Lemma decodeBody_other_encodings_witness :
  decodeBody (js "SGk=") (Some (js "base64 ")) = (Normal (js "SGk="), []).
Proof.
  apply decodeBody_other_encodings.
  intros enc [= <-]. split; by vm_compute.
Defined.

(** X2. The name of the encoding counts without regard to the case of
    its letters: [decodeBody] does with a name what it does with the name in
    lower case. *)
Theorem decodeBody_ignores_case (body enc : jsstring) :
  isCodeUnits enc = true →
  decodeBody body (Some enc) = decodeBody body (Some (toLowerCase enc)).
Proof.
  intros Henc. unfold decodeBody. rewrite toLowerCase_idemp by done.
  destruct enc as [|c enc]; [done|].
  destruct (toLowerCase (c :: enc)) eqn:E; [by apply toLowerCase_nil in E|done].
Qed.

Lemma decodeBody_ignores_case_witness :
  decodeBody (js "SGk=") (Some (js "Base64"))
  = decodeBody (js "SGk=") (Some (toLowerCase (js "Base64"))).
Proof. by apply decodeBody_ignores_case. Defined.

(** X3. Text without [=] is its own quoted-printable decoding. *)
Theorem decodeBody_quoted_printable_plain (s : jsstring) :
  Forall (fun c => (c =? 61) = false) s →
  decodeBody s (Some (js "quoted-printable")) = (Normal s, []).
Proof.
  intros H. rewrite (decodeBody_as_quoted_printable s (js "quoted-printable")) by done.
  rewrite decodeQuotedPrintable_eq, replaceAll_softBreaks, replaceAll_escapes.
  do 2 f_equal. induction H as [|c s Hc _ IH]; [done|].
  rewrite dropSoftBreaks_keep by done. rewrite unescapeUpper_keep by done.
  by f_equal.
Qed.

Lemma decodeBody_quoted_printable_plain_witness :
  decodeBody (js "Hello,\r\nworld") (Some (js "quoted-printable"))
  = (Normal (js "Hello,\r\nworld"), []).
Proof.
  apply (decodeBody_quoted_printable_plain (js "Hello,\r\nworld")).
  vm_compute. repeat (apply Forall_cons_2; [reflexivity|]). apply Forall_nil_2.
Defined.

Lemma dropSoftBreaks_shape (s : jsstring) :
  (length (dropSoftBreaks s) ≤ length s)%nat
  ∧ Forall (fun c => c ∈ s) (dropSoftBreaks s).
Proof.
  remember (length s) as n eqn:Hn. revert s Hn.
  induction n as [n IH] using lt_wf_ind. intros s Hn. subst n.
  destruct s as [|c rest]; [split; [simpl; lia|constructor]|].
  destruct (IH (length rest)) with (s := rest) as [IHl IHu];
    [simpl; lia|done|].
  assert ((length (c :: dropSoftBreaks rest) ≤ length (c :: rest))%nat
          ∧ Forall (fun d => d ∈ c :: rest) (c :: dropSoftBreaks rest))
    as Hkeep.
  { split; [simpl; lia|]. constructor; [by left|].
    eapply Forall_impl; [exact IHu|]. intros d Hd. by right. }
  destruct rest as [|c1 [|c2 rest']]; [exact Hkeep..|].
  cbn [dropSoftBreaks]. fold (dropSoftBreaks (c1 :: c2 :: rest')).
  destruct ((c =? 61) && (c1 =? 13) && (c2 =? 10)); [|exact Hkeep].
  destruct (IH (length rest')) with (s := rest') as [IHl' IHu'];
    [simpl; lia|done|].
  split; [simpl; lia|].
  eapply Forall_impl; [exact IHu'|]. intros d Hd. by do 3 right.
Qed.

Lemma unescapeUpper_shape (s : jsstring) :
  (length (unescapeUpper s) ≤ length s)%nat
  ∧ Forall (fun c => c ∈ s ∨ c < 256) (unescapeUpper s).
Proof.
  remember (length s) as n eqn:Hn. revert s Hn.
  induction n as [n IH] using lt_wf_ind. intros s Hn. subst n.
  destruct s as [|c rest]; [split; [simpl; lia|constructor]|].
  destruct (IH (length rest)) with (s := rest) as [IHl IHu];
    [simpl; lia|done|].
  assert ((length (c :: unescapeUpper rest) ≤ length (c :: rest))%nat
          ∧ Forall (fun d => d ∈ c :: rest ∨ d < 256) (c :: unescapeUpper rest))
    as Hkeep.
  { split; [simpl; lia|]. constructor; [left; by left|].
    eapply Forall_impl; [exact IHu|]. intros d [Hd|Hd]; [left; by right|by right]. }
  destruct rest as [|h1 [|h2 rest']]; [exact Hkeep..|].
  cbn [unescapeUpper]. fold (unescapeUpper (h1 :: h2 :: rest')).
  destruct ((c =? 61) && isHexUpper h1 && isHexUpper h2) eqn:E; [|exact Hkeep].
  apply andb_prop in E as [[_ E1%isHexUpper_hexval]%andb_prop E2%isHexUpper_hexval].
  destruct (IH (length rest')) with (s := rest') as [IHl' IHu'];
    [simpl; lia|done|].
  split; [simpl; lia|]. constructor; [right; lia|].
  eapply Forall_impl; [exact IHu'|].
  intros d [Hd|Hd]; [left; by do 3 right|by right].
Qed.

(** X4. Quoted-printable decoding never makes a text longer, and every
    code unit of the result is a code unit of the input or the value of an
    escape, below 256: the bytes of the escapes are taken for characters
    one by one and are not read as UTF-8. *)
Theorem decodeBody_quoted_printable_shape (s : jsstring) :
  ∃ decoded,
    decodeBody s (Some (js "quoted-printable")) = (Normal decoded, [])
    ∧ (length decoded ≤ length s)%nat
    ∧ Forall (fun c => c ∈ s ∨ c < 256) decoded.
Proof.
  rewrite (decodeBody_as_quoted_printable s (js "quoted-printable")) by done.
  rewrite decodeQuotedPrintable_eq, replaceAll_softBreaks, replaceAll_escapes.
  eexists. split; [done|].
  destruct (dropSoftBreaks_shape s) as [Hl1 Hu1].
  destruct (unescapeUpper_shape (dropSoftBreaks s)) as [Hl2 Hu2].
  split; [lia|]. eapply Forall_impl; [exact Hu2|].
  intros c [Hc|Hc]; [left|by right].
  rewrite Forall_forall in Hu1. by apply Hu1.
Qed.

(** The two bytes of an e-acute in UTF-8 come out as two characters. *)
Example quoted_printable_bytes :
  decodeBody (js "=C3=A9") (Some (js "quoted-printable")) = (Normal (js "\xc3\xa9"), []).
Proof. by vm_compute. Qed.

(** X5. Decoding the standard base64 of a byte sequence as "base64"
    gives, without a warning, what [decodeUint8Array] gives on the bytes
    themselves, whatever the bytes are. *)
Theorem decodeBody_base64_bytes (bytes : list N) :
  Forall (fun b => b < 256) bytes →
  decodeBody (base64 bytes) (Some (js "base64"))
  = (Normal (decodeUint8Array bytes), []).
Proof.
  intros H. rewrite decodeBody_as_base64 by done.
  by rewrite decodeBase64_base64.
Qed.

Lemma decodeBody_base64_bytes_witness :
  decodeBody (base64 [255; 72; 105]) (Some (js "base64"))
  = (Normal (decodeUint8Array [255; 72; 105]), []).
Proof.
  apply (decodeBody_base64_bytes [255; 72; 105]).
  repeat (apply Forall_cons_2; [reflexivity|]). apply Forall_nil_2.
Defined.

Lemma dropBOM_codePoints (s : jsstring) :
  isWellFormed s = true → hd_error s ≠ Some 65279 →
  Utf8.dropBOM (codePoints s) = codePoints s.
Proof.
  intros Hwf Hhd. destruct s as [|c rest]; [done|].
  cbn [codePoints isWellFormed] in *. destruct (isHighSurrogate c) eqn:Hh.
  - destruct rest as [|d rest']; [done|].
    apply andb_prop in Hwf as [Hd _]. rewrite Hd.
    unfold Utf8.dropBOM. apply surrogate_tests in Hh, Hd.
    by rewrite (proj2 (N.eqb_neq _ _)) by lia.
  - apply andb_prop in Hwf as [[_ Hl%negb_true_iff]%andb_prop _]. rewrite Hl.
    unfold Utf8.dropBOM. destruct (N.eqb_spec c 65279) as [->|]; [|done].
    by destruct Hhd.
Qed.

(** X6. [decodeUint8Array] reads the UTF-8 bytes of a well-formed string
    back into that string, when the string does not begin with U+FEFF. *)
Theorem decodeUint8Array_utf8 (s : jsstring) :
  isWellFormed s = true → hd_error s ≠ Some 65279 →
  decodeUint8Array (utf8Bytes s) = s.
Proof.
  intros Hwf Hhd. destruct (codePoints_wellFormed s Hwf) as [Hs Hsc].
  unfold decodeUint8Array, TextDecoder_decode, utf8Bytes.
  rewrite (proj1 (decodeBytes_utf8 (codePoints s) Hsc)).
  by rewrite dropBOM_codePoints.
Qed.

Lemma decodeUint8Array_utf8_witness :
  decodeUint8Array (utf8Bytes (js "na\u00efve \ud83d\ude00"))
  = js "na\u00efve \ud83d\ude00".
Proof.
  apply decodeUint8Array_utf8; [reflexivity|by vm_compute].
Defined.
(** ** [getContentInfo], further *)

Lemma getContentInfo_throws (h : gmap jsstring headerValue) :
  h !! js "Content-Type" = Some (Multiple [])
  ∨ h !! js "Content-Transfer-Encoding" = Some (Multiple []) →
  getContentInfo h = (Throw TypeError, []).
Proof.
  unfold getContentInfo. intros [Hct|Hcte].
  - by rewrite Hct.
  - rewrite Hcte.
    destruct (h !! js "Content-Type") as [[s|[|s l]]|];
      cbn [truthyValue firstValue]; [destruct (truthy s)|done| |];
      by rewrite ?JS_bind_mret.
Qed.

Lemma empty_array_dec (o : option headerValue) :
  o = Some (Multiple []) ∨ o ≠ Some (Multiple []).
Proof. destruct o as [[s|[|s l]]|]; by (left + right). Qed.

(** X7. [getContentInfo] throws a [TypeError] exactly when the
    Content-Type header or the Content-Transfer-Encoding header is the
    empty array; on every other header mapping it returns a record. It
    never writes a warning. *)
Theorem getContentInfo_throws_iff (h : gmap jsstring headerValue) :
  ((getContentInfo h).1 = Throw TypeError ↔
   h !! js "Content-Type" = Some (Multiple [])
   ∨ h !! js "Content-Transfer-Encoding" = Some (Multiple []))
  ∧ ((∃ ci, (getContentInfo h).1 = Normal ci) ↔
     h !! js "Content-Type" ≠ Some (Multiple [])
     ∧ h !! js "Content-Transfer-Encoding" ≠ Some (Multiple []))
  ∧ (getContentInfo h).2 = [].
Proof.
  destruct (empty_array_dec (h !! js "Content-Type")) as [Hct|Hct].
  { rewrite getContentInfo_throws by auto. split_and!; [|split|done].
    - split; auto.
    - by intros [ci ?].
    - by intros [? _]. }
  destruct (empty_array_dec (h !! js "Content-Transfer-Encoding")) as [Hcte|Hcte].
  { rewrite getContentInfo_throws by auto. split_and!; [|split|done].
    - split; auto.
    - by intros [ci ?].
    - by intros [_ ?]. }
  destruct (getContentInfo_returns h Hct Hcte) as [ci ->].
  split_and!; [split| |done].
  - done.
  - by intros [?|?].
  - split; [done|]. intros _. by exists ci.
Qed.

(** X8. The encoding of the record that [getContentInfo] returns is the
    first value of the Content-Transfer-Encoding header, trimmed and in
    lower case, and "7bit" when the header is absent or the empty string.
    In either case it is in lower case: no letter A to Z is in it, and no
    code point of it has a lower-case mapping. *)
Theorem getContentInfo_encoding (h : gmap jsstring headerValue)
    (ci : contentInfo) (log : list warning) :
  getContentInfo h = (Normal ci, log) →
  encoding ci
  = match headerFirst (h !! js "Content-Transfer-Encoding") with
    | Some v => toLowerCase (trim v)
    | None => js "7bit"
    end
  ∧ Forall (fun c => isUpperAscii c = false) (encoding ci)
  ∧ ((∀ v, headerFirst (h !! js "Content-Transfer-Encoding") = Some v →
           isCodeUnits v = true) →
     isLowerCase (encoding ci) = true).
Proof.
  intros (_ & He & _)%getContentInfo_Normal. split; [done|]. rewrite He.
  destruct (headerFirst (h !! js "Content-Transfer-Encoding")) as [v|].
  - split; [apply toLowerCase_no_upper|]. intros Hv.
    apply toLowerCase_isLowerCase, isCodeUnits_trim. by apply Hv.
  - split; [repeat constructor|]. intros _. by vm_compute.
Qed.

Lemma getContentInfo_encoding_witness :
  let h : gmap jsstring headerValue :=
    {[ js "Content-Transfer-Encoding" := Multiple [js " Base64\r\n"; js "8bit"] ]} in
  let ci := ContentInfo (js "text/plain") (js "base64") None in
  getContentInfo h = (Normal ci, [])
  ∧ encoding ci
    = match headerFirst (h !! js "Content-Transfer-Encoding") with
      | Some v => toLowerCase (trim v)
      | None => js "7bit"
      end
  ∧ Forall (fun c => isUpperAscii c = false) (encoding ci)
  ∧ ((∀ v, headerFirst (h !! js "Content-Transfer-Encoding") = Some v →
           isCodeUnits v = true) →
     isLowerCase (encoding ci) = true).
Proof.
  intros h ci.
  assert (getContentInfo h = (Normal ci, [])) as H by (vm_compute; reflexivity).
  split; [exact H|]. exact (getContentInfo_encoding h ci [] H).
Defined.

(** X9. Of a header given as an array only the first element counts:
    with a first element that is not the empty string, the array and the
    element alone give the same result. *)
Theorem getContentInfo_first_element (h : gmap jsstring headerValue)
    (name s : jsstring) (l : list jsstring) :
  s ≠ [] →
  getContentInfo (<[name := Multiple (s :: l)]> h)
  = getContentInfo (<[name := Single s]> h).
Proof.
  intros Hs. assert (truthy s = true) as Ht by (by destruct s).
  unfold getContentInfo.
  destruct (decide (name = js "Content-Type")) as [->|Hct].
  - rewrite !lookup_insert_eq. rewrite !lookup_insert_ne by done.
    cbn [truthyValue firstValue]. by rewrite Ht.
  - rewrite !(lookup_insert_ne _ name (js "Content-Type")) by done.
    destruct (decide (name = js "Content-Transfer-Encoding")) as [->|Hcte].
    + rewrite !lookup_insert_eq. cbn [truthyValue firstValue]. by rewrite Ht.
    + by rewrite !(lookup_insert_ne _ name (js "Content-Transfer-Encoding")).
Qed.

Lemma getContentInfo_first_element_witness :
  getContentInfo (<[js "Content-Type" := Multiple [js "text/html"; js "text/plain"]]> ∅)
  = getContentInfo (<[js "Content-Type" := Single (js "text/html")]> ∅).
Proof. by apply getContentInfo_first_element. Defined.

(** The empty string as first element is read, where the empty string
    alone counts as no header. *)
Example getContentInfo_empty_first_element :
  getContentInfo {[ js "Content-Transfer-Encoding" := Multiple [js ""] ]}
  = (Normal (ContentInfo (js "text/plain") [] None), [])
  ∧ getContentInfo {[ js "Content-Transfer-Encoding" := Single (js "") ]}
    = (Normal (ContentInfo (js "text/plain") (js "7bit") None), []).
Proof. by vm_compute. Qed.
(** ** The two header parsers *)

Lemma lastDeclared_Some (name value : jsstring) (lines : list jsstring) :
  lastDeclared name lines = Some value →
  ∃ line, line ∈ lines ∧ headerLine line = Some (name, value).
Proof.
  induction lines as [|line more IH]; [done|]. cbn [lastDeclared].
  destruct (lastDeclared name more) as [v|].
  - intros [= ->]. destruct IH as (l & Hl & Hh); [done|].
    exists l. split; [by right|done].
  - destruct (headerLine line) as [[k v]|] eqn:E; [|done].
    case_bool_decide as Hk; [|done]. intros [= ->]. subst k.
    exists line. split; [by left|done].
Qed.

(** X10. Every entry of the header object of a part comes from a line of
    the header text that reads name, colon, value. So the name is not empty
    and holds no colon; the value holds no line terminator and does not
    begin with white space. *)
Theorem partHeaders_entry (headersText k v : jsstring) :
  partHeaders headersText !! k = Some v →
  (∃ line, line ∈ split headersText CRLF ∧ headerLine line = Some (k, v))
  ∧ k ≠ []
  ∧ Forall (fun c => c ≠ 58) k
  ∧ Forall (fun c => isLineTerminator c = false) v
  ∧ beginsWithSpace v = false.
Proof.
  rewrite partHeaders_lookup. intros (line & Hl & Hh)%lastDeclared_Some.
  destruct (headerLine_shape _ _ _ Hh) as (H1 & H2 & H3 & H4 & _).
  split; [by exists line|done].
Qed.

Lemma partHeaders_entry_witness :
  let text := js "Content-Type:  text/html; charset=utf-8\r\nX-Note: a:b" in
  partHeaders text !! js "Content-Type" = Some (js "text/html; charset=utf-8")
  ∧ ∃ line, line ∈ split text CRLF
      ∧ headerLine line = Some (js "Content-Type", js "text/html; charset=utf-8").
Proof.
  intros text.
  assert (partHeaders text !! js "Content-Type" = Some (js "text/html; charset=utf-8"))
    as H by (vm_compute; reflexivity).
  split; [exact H|].
  exact (proj1 (partHeaders_entry text (js "Content-Type")
                  (js "text/html; charset=utf-8") H)).
Defined.

Lemma lastDeclared_None (name : jsstring) (lines : list jsstring) :
  Forall (fun line => fst <$> headerLine line ≠ Some name) lines →
  lastDeclared name lines = None.
Proof.
  induction 1 as [|line more Hl _ IH]; [done|]. cbn [lastDeclared]. rewrite IH.
  destruct (headerLine line) as [[k v]|]; [|done].
  case_bool_decide as Hk; [|done]. subst k. by destruct Hl.
Qed.

(** X11. When several lines of a part declare the same header the last
    one counts: the entry of a name is the value of the last line that
    declares the name, whatever stands before it. *)
Theorem partHeaders_last_wins (headersText : jsstring)
    (before after : list jsstring) (line k v : jsstring) :
  split headersText CRLF = before ++ line :: after →
  headerLine line = Some (k, v) →
  Forall (fun later => fst <$> headerLine later ≠ Some k) after →
  partHeaders headersText !! k = Some v.
Proof.
  intros Hsplit Hh Hafter. rewrite partHeaders_lookup, Hsplit. clear Hsplit.
  induction before as [|b before IH]; cbn [app lastDeclared].
  - rewrite lastDeclared_None by done. rewrite Hh.
    by rewrite bool_decide_eq_true_2.
  - by rewrite IH.
Qed.

Lemma partHeaders_last_wins_witness :
  partHeaders (js "Content-Type: text/plain\r\nContent-Type: text/html\r\nX-A: b")
    !! js "Content-Type" = Some (js "text/html").
Proof.
  apply (partHeaders_last_wins _ [js "Content-Type: text/plain"] [js "X-A: b"]
           (js "Content-Type: text/html")).
  - reflexivity.
  - reflexivity.
  - apply Forall_cons_2; [by vm_compute|apply Forall_nil_2].
Defined.

Lemma flush_blockLine (st : blockState) (line : jsstring) :
  beginsWithSpace line = false →
  flush (blockLine st line) = partHeaderLine (flush st) line.
Proof.
  intros Hws. rewrite partHeaderLine_eq.
  destruct (headerLine line) as [[k v]|] eqn:E.
  - rewrite (blockLine_header st line k v) by done.
    unfold flush at 1. cbn [currentHeader currentValue parsed].
    apply headerLine_name in E. by destruct k.
  - rewrite blockLine_other by done.
    unfold flush at 1. cbn [currentHeader currentValue parsed].
    destruct (truthy (currentHeader st)) eqn:Et; [|done].
    unfold flush. rewrite Et. unfold setProperty. apply insert_insert_eq.
Qed.

Lemma flush_fold_blockLine (lines : list jsstring) (st : blockState) :
  Forall (fun line => beginsWithSpace line = false) lines →
  flush (fold_left blockLine lines st) = fold_left partHeaderLine lines (flush st).
Proof.
  intros H. revert st. induction H as [|line more Hl _ IH]; intros st; [done|].
  cbn [fold_left]. by rewrite IH, flush_blockLine.
Qed.

(** X12. On a header text none of whose lines begins with white space the
    folding-aware parser of the raw branch and the parser of the parts of a
    multipart body build the same object. *)
Theorem parseBlock_partHeaders (headerText : jsstring) :
  Forall (fun line => beginsWithSpace line = false) (split headerText CRLF) →
  parseBlock headerText = partHeaders headerText.
Proof.
  intros H. unfold parseBlock, parseLines, partHeaders.
  by rewrite flush_fold_blockLine.
Qed.

Lemma parseBlock_partHeaders_witness :
  parseBlock (js "Subject: Hi\r\nnot a header\r\n\r\nSubject: Ho")
  = partHeaders (js "Subject: Hi\r\nnot a header\r\n\r\nSubject: Ho").
Proof.
  apply (parseBlock_partHeaders (js "Subject: Hi\r\nnot a header\r\n\r\nSubject: Ho")).
  vm_compute. repeat (apply Forall_cons_2; [reflexivity|]). apply Forall_nil_2.
Defined.

(** With a folded line the two differ: the part parser reads it as a
    header of its own when it holds a colon, and drops it otherwise. *)
Example partHeaders_no_folding :
  partHeaders (js "Content-Type: multipart/mixed;\r\n boundary=b")
  = {[ js "Content-Type" := js "multipart/mixed;" ]}
  ∧ parseBlock (js "Content-Type: multipart/mixed;\r\n boundary=b")
    = {[ js "Content-Type" := js "multipart/mixed; boundary=b" ]}
  ∧ partHeaders (js "Subject: a\r\n b: c")
    = {[ js "Subject" := js "a"; js " b" := js "c" ]}.
Proof. split_and!; vm_compute; reflexivity. Qed.

Lemma flush_fold_no_header (lines : list jsstring) (v v' : jsstring)
    (o : gmap jsstring jsstring) :
  flush (fold_left blockLine lines (BlockState [] v o))
  = flush (fold_left blockLine lines (BlockState [] v' o)).
Proof.
  revert v v'. induction lines as [|line more IH]; intros v v'; [reflexivity|].
  cbn [fold_left]. destruct (beginsWithSpace line) eqn:Ews.
  - rewrite (blockLine_continuation (BlockState [] v o)) by exact Ews.
    rewrite (blockLine_continuation (BlockState [] v' o)) by exact Ews.
    cbn [currentHeader currentValue parsed]. apply IH.
  - destruct (headerLine line) as [[k value]|] eqn:E.
    + rewrite (blockLine_header (BlockState [] v o) line k value Ews E).
      rewrite (blockLine_header (BlockState [] v' o) line k value Ews E).
      change (flush (BlockState [] v o)) with o.
      change (flush (BlockState [] v' o)) with o. reflexivity.
    + rewrite (blockLine_other (BlockState [] v o) line Ews E).
      rewrite (blockLine_other (BlockState [] v' o) line Ews E).
      cbn [currentHeader currentValue].
      change (flush (BlockState [] v o)) with o.
      change (flush (BlockState [] v' o)) with o. apply IH.
Qed.

(** X13. Lines that begin with white space and stand before the first
    header line leave no trace: the object is the one of the lines after
    them. *)
Theorem parseBlock_leading_continuations (headerText : jsstring)
    (conts lines : list jsstring) :
  split headerText CRLF = conts ++ lines →
  Forall (fun line => beginsWithSpace line = true) conts →
  parseBlock headerText = parseLines lines.
Proof.
  intros Hsplit Hc. unfold parseBlock, parseLines.
  rewrite Hsplit, fold_left_app, fold_continuations by done.
  apply flush_fold_no_header.
Qed.

Lemma parseBlock_leading_continuations_witness :
  parseBlock (js " lost: 1\r\n\tlost\r\nSubject: Hi")
  = parseLines [js "Subject: Hi"].
Proof.
  apply (parseBlock_leading_continuations _ [js " lost: 1"; js "\tlost"]).
  - reflexivity.
  - vm_compute. repeat (apply Forall_cons_2; [reflexivity|]). apply Forall_nil_2.
Defined.

Section Entries.

Variable lines : list jsstring.
Variable P : jsstring → jsstring → Prop.
Hypothesis P_declared : ∀ line k v,
  line ∈ lines → beginsWithSpace line = false → headerLine line = Some (k, v) → P k v.
Hypothesis P_extended : ∀ k v more, P k v → P k (v ++ more).

Lemma flush_entries (st : blockState) :
  (currentHeader st = [] ∨ P (currentHeader st) (currentValue st)) →
  (∀ k v, parsed st !! k = Some v → P k v) →
  ∀ k v, flush st !! k = Some v → P k v.
Proof.
  intros Hcur Hp k v. unfold flush.
  destruct Hcur as [->|Hcur]; [apply Hp|].
  destruct (truthy (currentHeader st)); [|apply Hp].
  unfold setProperty.
  destruct (decide (currentHeader st = k)) as [<-|Hne].
  - rewrite lookup_insert_eq. by intros [= <-].
  - rewrite lookup_insert_ne by done. apply Hp.
Qed.

Lemma fold_blockLine_entries (seen : list jsstring) (st : blockState) :
  (∀ line, line ∈ seen → line ∈ lines) →
  (currentHeader st = [] ∨ P (currentHeader st) (currentValue st)) →
  (∀ k v, parsed st !! k = Some v → P k v) →
  ∀ k v, flush (fold_left blockLine seen st) !! k = Some v → P k v.
Proof.
  revert st. induction seen as [|line more IH]; intros st Hin Hcur Hp.
  { by apply flush_entries. }
  cbn [fold_left].
  assert (∀ l, l ∈ more → l ∈ lines) as Hin' by (intros l Hl; apply Hin; by right).
  assert (line ∈ lines) as Hline by (apply Hin; by left).
  pose proof (flush_entries st Hcur Hp) as Hflush.
  destruct (beginsWithSpace line) eqn:Ews.
  - rewrite blockLine_continuation by done. apply IH; [done| |done].
    cbn [currentHeader currentValue]. destruct Hcur as [?|Hcur]; [by left|right].
    by apply P_extended.
  - destruct (headerLine line) as [[k v]|] eqn:E.
    + rewrite (blockLine_header st line k v) by done. apply IH; [done| |done].
      right. cbn [currentHeader currentValue]. by apply (P_declared line).
    + rewrite blockLine_other by done. by apply IH.
Qed.

End Entries.

(** X14. Every entry of the header object of the raw branch comes from a
    line that does not begin with white space and reads name, colon, value:
    the entry has that name, and its value begins with that value. *)
Theorem parseBlock_entry (headerText k v : jsstring) :
  parseBlock headerText !! k = Some v →
  ∃ line v0 more,
    line ∈ split headerText CRLF ∧ beginsWithSpace line = false
    ∧ headerLine line = Some (k, v0) ∧ v = v0 ++ more.
Proof.
  unfold parseBlock, parseLines.
  apply (fold_blockLine_entries (split headerText CRLF)
           (fun k v => ∃ line v0 more,
              line ∈ split headerText CRLF ∧ beginsWithSpace line = false
              ∧ headerLine line = Some (k, v0) ∧ v = v0 ++ more)).
  - intros line k' v' Hl Hws Hh. exists line, v', []. by rewrite app_nil_r.
  - intros k' v' more (line & v0 & more0 & Hl & Hws & Hh & ->).
    exists line, v0, (more0 ++ more). by rewrite app_assoc.
  - done.
  - by left.
  - intros k' v'. cbn [parsed]. by rewrite lookup_empty.
Qed.

Lemma parseBlock_entry_witness :
  let text := js "Subject: Hello\r\n World" in
  parseBlock text !! js "Subject" = Some (js "Hello World")
  ∧ ∃ line v0 more,
      line ∈ split text CRLF ∧ beginsWithSpace line = false
      ∧ headerLine line = Some (js "Subject", v0) ∧ js "Hello World" = v0 ++ more.
Proof.
  intros text.
  assert (parseBlock text !! js "Subject" = Some (js "Hello World"))
    as H by (vm_compute; reflexivity).
  split; [exact H|].
  exact (parseBlock_entry text (js "Subject") (js "Hello World") H).
Defined.
(** ** Tags stripped *)

Lemma existsb_untag (inTag : bool) (s : jsstring) :
  existsb (fun d => d =? 62) s = false →
  existsb (fun d => d =? 62) (untag inTag s) = false.
Proof.
  revert inTag. induction s as [|c s IH]; intros inTag; [done|].
  cbn [existsb untag]. intros [Hc Hs]%orb_false_elim. destruct inTag.
  - by apply IH.
  - rewrite Hs, andb_false_r. cbn [existsb]. by rewrite Hc, IH.
Qed.

Lemma tagFree_untag (inTag : bool) (s : jsstring) : tagFree (untag inTag s) = true.
Proof.
  revert inTag. induction s as [|c s IH]; intros inTag; [done|].
  cbn [untag]. destruct inTag; [apply IH|].
  destruct ((c =? 60) && existsb (fun d => d =? 62) s) eqn:E.
  - cbn [tagFree]. by rewrite IH.
  - cbn [tagFree]. rewrite IH, andb_true_r. apply negb_true_iff.
    apply andb_false_iff in E as [E|E]; [by rewrite E|].
    by rewrite existsb_untag, andb_false_r.
Qed.

Lemma isWhiteSpace_angle (c : N) :
  isWhiteSpace c = true → (c =? 60) = false ∧ (c =? 62) = false.
Proof.
  intros H. split; apply N.eqb_neq; intros ->; by vm_compute in H.
Qed.

Lemma existsb_collapse (inRun : bool) (s : jsstring) :
  existsb (fun d => d =? 62) (collapse inRun s) = existsb (fun d => d =? 62) s.
Proof.
  revert inRun. induction s as [|c s IH]; intros inRun; [done|].
  cbn [collapse existsb]. destruct (isWhiteSpace c) eqn:E.
  - destruct (isWhiteSpace_angle c E) as [_ ->].
    destruct inRun; cbn [existsb orb]; by rewrite IH.
  - cbn [existsb]. by rewrite IH.
Qed.

Lemma tagFree_collapse (inRun : bool) (s : jsstring) :
  tagFree (collapse inRun s) = tagFree s.
Proof.
  revert inRun. induction s as [|c s IH]; intros inRun; [done|].
  cbn [collapse tagFree]. destruct (isWhiteSpace c) eqn:E.
  - destruct (isWhiteSpace_angle c E) as [-> _].
    destruct inRun; cbn [tagFree andb negb]; by rewrite IH.
  - cbn [tagFree]. by rewrite IH, existsb_collapse.
Qed.

Lemma tagFree_app (a b : jsstring) :
  tagFree (a ++ b) = true → tagFree a = true ∧ tagFree b = true.
Proof.
  induction a as [|c a IH]; [done|]. cbn [app tagFree].
  intros [Hc [Ha Hb]%IH]%andb_prop. split; [|done]. rewrite Ha, andb_true_r.
  apply negb_true_iff. apply negb_true_iff in Hc.
  apply andb_false_iff in Hc as [Hc|Hc]; [by rewrite Hc|].
  rewrite existsb_app in Hc. apply orb_false_elim in Hc as [-> _].
  by rewrite andb_false_r.
Qed.

(** What [trim] leaves is a piece of the text. *)
Lemma trim_piece (s : jsstring) : ∃ a b, s = a ++ trim s ++ b.
Proof.
  unfold trim, trimEnd, trimStart.
  exists (takeWhile isWhiteSpace s),
    (rev (takeWhile isWhiteSpace (rev (dropWhile isWhiteSpace s)))).
  rewrite <- rev_app_distr, dropWhile_takeWhile, rev_involutive.
  by rewrite dropWhile_takeWhile.
Qed.

Lemma tagFree_trim (s : jsstring) : tagFree s = true → tagFree (trim s) = true.
Proof.
  destruct (trim_piece s) as (a & b & E). rewrite E at 1.
  intros [_ [H _]%tagFree_app]%tagFree_app. done.
Qed.

(** X15. What [stripTags] returns holds no tag: no [<] of it has a [>]
    anywhere behind it. *)
Theorem stripTags_no_tag (s : jsstring) :
  tagFree (stripTags s) = true
  ∧ ∀ a b c, stripTags s ≠ a ++ 60 :: b ++ 62 :: c.
Proof.
  assert (tagFree (stripTags s) = true) as H.
  { rewrite stripTags_plain. apply tagFree_trim.
    rewrite tagFree_collapse. apply tagFree_untag. }
  split; [done|]. intros a b c E. rewrite E in H.
  apply tagFree_app in H as [_ H]. cbn [tagFree] in H.
  rewrite N.eqb_refl, existsb_app in H. cbn [existsb] in H.
  rewrite N.eqb_refl in H. cbn [orb andb negb] in H.
  by rewrite orb_true_r in H.
Qed.

(** ** White space collapsed *)

Lemma beginsWithSpace_collapse (s : jsstring) :
  beginsWithSpace (collapse true s) = false.
Proof.
  induction s as [|c s IH]; [done|]. cbn [collapse].
  destruct (isWhiteSpace c) eqn:E; [done|]. cbn [beginsWithSpace]. done.
Qed.

Lemma singleSpaced_collapse (inRun : bool) (s : jsstring) :
  singleSpaced (collapse inRun s) = true.
Proof.
  revert inRun. induction s as [|c s IH]; intros inRun; [done|].
  cbn [collapse]. destruct (isWhiteSpace c) eqn:E.
  - destruct inRun; [apply IH|]. cbn [singleSpaced].
    by rewrite beginsWithSpace_collapse, IH.
  - cbn [singleSpaced]. by rewrite E, IH.
Qed.

Lemma singleSpaced_app (a b : jsstring) :
  singleSpaced (a ++ b) = true → singleSpaced a = true ∧ singleSpaced b = true.
Proof.
  induction a as [|c a IH]; [done|]. cbn [app singleSpaced].
  intros [Hc [Ha Hb]%IH]%andb_prop. split; [|done]. rewrite Ha, andb_true_r.
  destruct (isWhiteSpace c); [|done]. cbn [negb orb] in *.
  apply andb_prop in Hc as [-> Hc]. cbn [andb].
  destruct a as [|d a]; [done|]. done.
Qed.

Lemma beginsWithSpace_dropWhile (s : jsstring) :
  beginsWithSpace (dropWhile isWhiteSpace s) = false.
Proof.
  destruct (dropWhile isWhiteSpace s) as [|c rest] eqn:E; [done|].
  exact (dropWhile_cons _ _ _ _ E).
Qed.

Lemma dropWhile_keep (s : jsstring) :
  beginsWithSpace s = false → dropWhile isWhiteSpace s = s.
Proof. destruct s as [|c s]; [done|]. cbn [beginsWithSpace dropWhile]. by intros ->. Qed.

Lemma trim_ends (s : jsstring) :
  beginsWithSpace (trim s) = false ∧ beginsWithSpace (rev (trim s)) = false.
Proof.
  unfold trim, trimEnd, trimStart. rewrite rev_involutive. split.
  - pose proof (beginsWithSpace_dropWhile s) as H.
    pose proof (dropWhile_takeWhile isWhiteSpace (rev (dropWhile isWhiteSpace s)))
      as Hcut.
    apply (f_equal (@rev N)) in Hcut. rewrite rev_app_distr, rev_involutive in Hcut.
    rewrite <- Hcut in H.
    destruct (rev (dropWhile isWhiteSpace (rev (dropWhile isWhiteSpace s))))
      as [|c rest]; [done|]. done.
  - apply beginsWithSpace_dropWhile.
Qed.

(** X16. What [stripTags] returns has its white space in normal form:
    none at its beginning, none at its end, none but the space, and no two
    spaces side by side. *)
Theorem stripTags_spaces (s : jsstring) :
  beginsWithSpace (stripTags s) = false
  ∧ beginsWithSpace (rev (stripTags s)) = false
  ∧ singleSpaced (stripTags s) = true
  ∧ Forall (fun c => isWhiteSpace c = true → c = 32) (stripTags s)
  ∧ includes (stripTags s) (js "  ") = false.
Proof.
  rewrite stripTags_plain.
  set (t := trim (collapse false (untag false s))).
  assert (singleSpaced t = true) as Hs.
  { subst t. destruct (trim_piece (collapse false (untag false s))) as (a & b & E).
    pose proof (singleSpaced_collapse false (untag false s)) as H.
    rewrite E in H. by apply singleSpaced_app in H as [_ [H _]%singleSpaced_app]. }
  destruct (trim_ends (collapse false (untag false s))) as [H1 H2].
  split_and!; [done..| |]; clear H1 H2; induction t as [|c t IH]; [constructor| |done|].
  - cbn [singleSpaced] in Hs. apply andb_prop in Hs as [Hc Ht].
    constructor; [|by apply IH]. intros Hw. rewrite Hw in Hc. cbn [negb orb] in Hc.
    by apply andb_prop in Hc as [->%N.eqb_eq _].
  - cbn [singleSpaced] in Hs. apply andb_prop in Hs as [Hc Ht].
    cbn [includes]. rewrite (IH Ht), orb_false_r.
    change (js "  ") with [32; 32]. cbn [startsWith].
    destruct (N.eqb_spec c 32) as [->|]; [|done]. cbn [andb].
    change (isWhiteSpace 32) with true in Hc. cbn [negb orb andb] in Hc.
    destruct t as [|d t]; [done|]. cbn [beginsWithSpace] in Hc.
    destruct (N.eqb_spec d 32) as [->|]; [|done]. done.
Qed.

Lemma untag_keep (s : jsstring) : tagFree s = true → untag false s = s.
Proof.
  induction s as [|c s IH]; [done|]. cbn [tagFree untag].
  intros [Hc Hs]%andb_prop. apply negb_true_iff in Hc. by rewrite Hc, IH.
Qed.

Lemma collapse_keep (s : jsstring) : singleSpaced s = true → collapse false s = s.
Proof.
  induction s as [|c s IH]; [done|]. cbn [singleSpaced collapse].
  intros [Hc Hs]%andb_prop. destruct (isWhiteSpace c) eqn:E.
  - cbn [negb orb] in Hc. apply andb_prop in Hc as [->%N.eqb_eq Hn%negb_true_iff].
    rewrite collapse_inside, dropWhile_keep by done. by rewrite IH.
  - by rewrite IH.
Qed.

Lemma trim_keep (s : jsstring) :
  beginsWithSpace s = false → beginsWithSpace (rev s) = false → trim s = s.
Proof.
  intros H1 H2. unfold trim, trimEnd, trimStart.
  rewrite (dropWhile_keep s) by done. rewrite dropWhile_keep by done.
  apply rev_involutive.
Qed.

(** X17. Stripping twice is stripping once. *)
Theorem stripTags_idemp (s : jsstring) : stripTags (stripTags s) = stripTags s.
Proof.
  assert (tagFree (stripTags s) = true) as Ht.
  { rewrite stripTags_plain. apply tagFree_trim.
    rewrite tagFree_collapse. apply tagFree_untag. }
  assert (singleSpaced (stripTags s) = true
          ∧ beginsWithSpace (stripTags s) = false
          ∧ beginsWithSpace (rev (stripTags s)) = false) as (Hs & H1 & H2).
  { rewrite stripTags_plain.
    destruct (trim_ends (collapse false (untag false s))) as [H1 H2].
    split; [|done].
    destruct (trim_piece (collapse false (untag false s))) as (a & b & E).
    pose proof (singleSpaced_collapse false (untag false s)) as H.
    rewrite E in H. by apply singleSpaced_app in H as [_ [H _]%singleSpaced_app]. }
  rewrite (stripTags_plain (stripTags s)).
  by rewrite untag_keep, collapse_keep, trim_keep.
Qed.
(** ** [split] and [join] *)

Lemma startsWith_drop (s prefix : jsstring) :
  startsWith s prefix = true → s = prefix ++ drop (length prefix) s.
Proof.
  intros H. rewrite <- (take_drop (length prefix) s) at 1.
  by rewrite (startsWith_take _ _ H).
Qed.

Lemma startsWith_length (s prefix : jsstring) :
  startsWith s prefix = true → (length prefix ≤ length s)%nat.
Proof.
  intros H. rewrite (startsWith_drop _ _ H), length_app. lia.
Qed.

Lemma join_splitGo (sep : jsstring) (s cur : jsstring) (skip : nat) :
  sep ≠ [] → (skip ≤ length s)%nat →
  join (splitGo sep skip cur s) sep = rev cur ++ drop skip s.
Proof.
  intros Hsep. revert skip cur. induction s as [|c s IH]; intros skip cur Hskip.
  { cbn [length] in Hskip. assert (skip = 0%nat) as -> by lia.
    cbn [splitGo join drop]. by rewrite app_nil_r. }
  cbn [splitGo]. destruct skip as [|k].
  - cbn [drop]. destruct (startsWith (c :: s) sep) eqn:E.
    + destruct (splitGo_cons sep [] s (pred (length sep))) as (p & more & Ep).
      pose proof (IH (pred (length sep)) []) as Hj. rewrite Ep in Hj. rewrite Ep.
      change (join (rev cur :: p :: more) sep)
        with (rev cur ++ sep ++ join (p :: more) sep).
      pose proof (startsWith_length _ _ E) as Hl. cbn [length] in Hl.
      pose proof (startsWith_drop _ _ E) as Hd.
      destruct sep as [|c0 sep']; [done|]. cbn [length pred drop] in *.
      rewrite Hj by lia. cbn [rev app]. f_equal. symmetry. exact Hd.
    + rewrite IH by (simpl; lia). cbn [rev drop].
      by rewrite <- (assoc_L (++)).
  - cbn [drop]. apply IH. simpl in Hskip. lia.
Qed.

(** The pieces of a string joined by the separator are the string. *)
Lemma join_split (s sep : jsstring) : sep ≠ [] → join (split s sep) sep = s.
Proof.
  intros Hsep. unfold split. destruct sep as [|c sep]; [done|].
  rewrite join_splitGo; [done|done|simpl; lia].
Qed.

Lemma startsWith_app (a b x : jsstring) :
  startsWith a x = true → startsWith (a ++ b) x = true.
Proof.
  revert a. induction x as [|c x IH]; intros a; [done|].
  destruct a as [|d a]; [done|]. cbn [app startsWith].
  intros [-> H]%andb_prop. by rewrite IH.
Qed.

Lemma includes_app_l (a b x : jsstring) :
  includes a x = true → includes (a ++ b) x = true.
Proof.
  induction a as [|d a IH]; cbn [app includes].
  - rewrite orb_false_r. destruct x as [|c x]; [|done]. intros _. by destruct b.
  - intros [H|H]%orb_prop.
    + pose proof (startsWith_app (d :: a) b x H) as Hs. cbn [app] in Hs.
      by rewrite Hs.
    + by rewrite IH, orb_true_r.
Qed.

Lemma includes_app_r (a b x : jsstring) :
  includes b x = true → includes (a ++ b) x = true.
Proof.
  intros H. induction a as [|d a IH]; [done|]. cbn [app includes].
  by rewrite IH, orb_true_r.
Qed.

Lemma join_piece (pieces : list jsstring) (sep p : jsstring) :
  p ∈ pieces → ∃ a b, join pieces sep = a ++ p ++ b.
Proof.
  induction pieces as [|q pieces IH]; [by intros ?%elem_of_nil|].
  intros [->|Hin]%elem_of_cons.
  - destruct pieces as [|r pieces].
    + exists [], []. cbn [join app]. by rewrite app_nil_r.
    + exists [], (sep ++ join (r :: pieces) sep). done.
  - destruct (IH Hin) as (a & b & E). destruct pieces as [|r pieces].
    + by apply elem_of_nil in Hin.
    + exists (q ++ sep ++ a), b.
      change (join (q :: r :: pieces) sep) with (q ++ sep ++ join (r :: pieces) sep).
      rewrite E. by rewrite <- !(assoc_L (++)).
Qed.

(** What a piece contains, the string contains. *)
Lemma includes_piece (s sep p x : jsstring) :
  sep ≠ [] → p ∈ split s sep → includes p x = true → includes s x = true.
Proof.
  intros Hsep Hp Hx. destruct (join_piece _ sep _ Hp) as (a & b & E).
  rewrite join_split in E by done. rewrite E.
  by apply includes_app_r, includes_app_l.
Qed.

Lemma hd_splitGo (sep cur s : jsstring) :
  hd [] (splitGo sep 0 cur s) = rev cur ++ hd [] (splitGo sep 0 [] s).
Proof.
  revert cur. induction s as [|c s IH]; intros cur; cbn [splitGo hd].
  - by rewrite app_nil_r.
  - destruct (startsWith (c :: s) sep); cbn [hd rev app]; [by rewrite app_nil_r|].
    rewrite (IH (c :: cur)), (IH [c]). cbn [rev app].
    by rewrite <- (assoc_L (++)).
Qed.

Lemma join_hd (pieces : list jsstring) (sep : jsstring) :
  ∃ tail, join pieces sep = hd [] pieces ++ tail.
Proof.
  destruct pieces as [|p [|q pieces]].
  - by exists [].
  - exists []. cbn [join hd]. by rewrite app_nil_r.
  - by exists (sep ++ join (q :: pieces) sep).
Qed.

(** The first piece does not contain the separator. *)
Lemma hd_split_clean (s sep : jsstring) :
  sep ≠ [] → includes (hd [] (split s sep)) sep = false.
Proof.
  intros Hsep. unfold split. destruct sep as [|c0 sep0] eqn:Es; [done|].
  rewrite <- Es in *. clear Es c0 sep0.
  induction s as [|c s IH]; cbn [splitGo hd].
  - cbn [rev includes]. rewrite startsWith_nil_l by done. done.
  - destruct (startsWith (c :: s) sep) eqn:E; cbn [hd rev].
    + cbn [includes]. rewrite startsWith_nil_l by done. done.
    + rewrite hd_splitGo. cbn [rev app includes]. rewrite IH, orb_false_r.
      apply not_true_is_false. intros H.
      destruct (join_hd (splitGo sep 0 [] s) sep) as [tail Et].
      rewrite join_splitGo in Et by (done || simpl; lia).
      rewrite drop_0 in Et. cbn [rev app] in Et.
      apply (startsWith_app _ tail) in H. cbn [app] in H. rewrite <- Et in H.
      by rewrite H in E.
Qed.

(** ** The parts of a multipart body *)

(** X18. A fragment with a blank line in it is cut at the first one: the
    local header block is the text before the first CR LF CR LF and holds
    none, the content is everything behind it, later blank lines
    included. *)
Theorem part_cut (part : jsstring) :
  includes part CRLFCRLF = true →
  partHeadersText part ++ CRLFCRLF ++ partContent part = part
  ∧ includes (partHeadersText part) CRLFCRLF = false.
Proof.
  intros H. unfold partHeadersText, partContent. split.
  - pose proof (join_split part CRLFCRLF ltac:(done)) as Hj.
    destruct (split_with part CRLFCRLF ltac:(done) H) as (h & c & more & E).
    rewrite E in *. exact Hj.
  - by apply hd_split_clean.
Qed.

Lemma part_cut_witness :
  let part := js "\r\nContent-Type: text/plain\r\n\r\none\r\n\r\ntwo\r\n" in
  partHeadersText part ++ CRLFCRLF ++ partContent part = part
  ∧ includes (partHeadersText part) CRLFCRLF = false.
Proof.
  intros part. apply (part_cut part). reflexivity.
Defined.

Lemma filter_skipped (parts : list jsstring) :
  Forall (fun part => skipped part = true) parts →
  filter (fun part => negb (skipped part)) parts = [].
Proof.
  induction 1 as [|part parts Hp _ IH]; [done|].
  rewrite filter_cons_False by (rewrite Hp; auto). exact IH.
Qed.

(** X19. A body without CR LF CR LF holds no part that is read: whatever
    the boundary is, [parseMultipartMessage] returns the string "No
    readable content found in the message." and warns of nothing. *)
Theorem parseMultipartMessage_no_blank_line (body boundary : jsstring) :
  includes body CRLFCRLF = false →
  parseMultipartMessage body boundary = (Normal noReadableContent, []).
Proof.
  intros H. unfold parseMultipartMessage.
  rewrite partsLoop_accumulators, JS_bind_Normal.
  rewrite filter_skipped; [reflexivity|].
  apply Forall_forall. intros part Hp. unfold skipped.
  destruct (includes part CRLFCRLF) eqn:E; [|by rewrite orb_true_r].
  apply (includes_piece body (js "--" ++ boundary)) in E; [|done|exact Hp].
  by rewrite E in H.
Qed.

Lemma parseMultipartMessage_no_blank_line_witness :
  parseMultipartMessage (js "--b\nContent-Type: text/plain\n\nHello\n--b--\n") (js "b")
  = (Normal noReadableContent, []).
Proof.
  apply parseMultipartMessage_no_blank_line. reflexivity.
Defined.

(** ** The body display *)

Lemma renderBody_returns (ci : contentInfo) (text : jsstring) :
  ∃ shown log, renderBody ci text = (Normal (Shown shown), log).
Proof.
  unfold renderBody.
  assert (∃ shown log,
            (decodedBody ← decodeBody text (Some (encoding ci));
             if includes (contentType ci) (js "html")
             then mret (Shown (stripTags decodedBody))
             else mret (Shown decodedBody))
            = (Normal (Shown shown), log)) as Hsingle.
  { destruct (decodeBody_returns text (Some (encoding ci))) as (s & log & ->).
    rewrite JS_bind_Normal. destruct (includes (contentType ci) (js "html"));
      by eexists _, _. }
  destruct (boundary ci) as [b|]; [|exact Hsingle].
  destruct (startsWith (contentType ci) (js "multipart/") && truthy b);
    [|exact Hsingle].
  unfold parseMultipartMessage.
  rewrite partsLoop_accumulators, !JS_bind_Normal. by eexists _, _.
Qed.

Lemma rawPath_cases (raw : list N) :
  ∃ shown log,
    rawPath raw
    = (Normal (if includes (decodeUint8Array raw) CRLFCRLF then Shown shown
               else CouldNotExtract), log).
Proof.
  unfold rawPath. destruct (includes (decodeUint8Array raw) CRLFCRLF) eqn:E.
  2:{ rewrite split_without by done. by exists [], []. }
  destruct (split_with _ CRLFCRLF ltac:(done) E) as (h & c & more & ->).
  set (bodyText := join (c :: more) CRLFCRLF).
  assert (∀ ct enc,
            ∃ shown log,
              (decodedBody ← decodeBody bodyText (Some enc);
               if includes (toLowerCase ct) (js "html")
               then mret (Shown (stripTags decodedBody))
               else mret (Shown decodedBody))
              = (Normal (Shown shown), log)) as Hsingle.
  { intros ct enc. destruct (decodeBody_returns bodyText (Some enc)) as (s & log & ->).
    rewrite JS_bind_Normal. destruct (includes (toLowerCase ct) (js "html"));
      by eexists _, _. }
  assert (∀ b, ∃ shown log,
            (parsedContent ← parseMultipartMessage bodyText b;
             mret (Shown parsedContent)) = (Normal (Shown shown), log)) as Hmulti.
  { intros b. unfold parseMultipartMessage.
    rewrite partsLoop_accumulators, !JS_bind_Normal. by eexists _, _. }
  destruct (parseBlock h !! js "Content-Type") as [ct|]; [destruct (truthy ct)|].
  - destruct (exec reBoundary ct ≫= group 1) as [b|]; [|apply Hsingle].
    destruct (includes ct (js "multipart/") && truthy b); [apply Hmulti|apply Hsingle].
  - apply Hsingle.
  - apply Hsingle.
Qed.

(** X20. The raw branch never throws. It reports that no body could be
    extracted exactly when the decoded message holds no CR LF CR LF, and
    shows a content in every other case. *)
Theorem rawPath_returns (raw : list N) :
  ∃ shown log,
    rawPath raw
    = (Normal (if includes (decodeUint8Array raw) CRLFCRLF then Shown shown
               else CouldNotExtract), log).
Proof. apply rawPath_cases. Qed.

(** X21. The body display throws exactly when the message has headers in
    which Content-Type or Content-Transfer-Encoding is the empty array, and
    then whatever body the message has; the error is a [TypeError]. In
    every other case it returns, and it reports that there is no body
    exactly when the message has neither a TEXT part nor raw bytes. *)
Theorem displayBody_throws_iff (m : message) :
  (displayBody m = (Throw TypeError, []) ↔
   ∃ h, headers m = Some h
        ∧ (h !! js "Content-Type" = Some (Multiple [])
           ∨ h !! js "Content-Transfer-Encoding" = Some (Multiple [])))
  ∧ (displayBody m ≠ (Throw TypeError, []) →
     ∃ shown log,
       displayBody m = (Normal shown, log)
       ∧ (shown = NoBody ↔ partsTEXT m = None ∧ raw m = None)).
Proof.
  assert (∀ ci, ∃ shown log,
            match partsTEXT m with
            | Some text => renderBody ci (decodeUint8Array text)
            | None =>
                match raw m with
                | Some bytes => rawPath bytes
                | None => mret NoBody
                end
            end = (Normal shown, log)
            ∧ (shown = NoBody ↔ partsTEXT m = None ∧ raw m = None)) as Hbody.
  { intros ci. destruct (partsTEXT m) as [text|].
    - destruct (renderBody_returns ci (decodeUint8Array text)) as (s & log & ->).
      eexists _, _. split; [done|]. split; [done|]. by intros [? _].
    - destruct (raw m) as [bytes|].
      + destruct (rawPath_cases bytes) as (s & log & ->).
        eexists _, _. split; [done|].
        split; [by destruct (includes _ _)|]. by intros [_ ?].
      + eexists _, _. split; [done|]. done. }
  unfold displayBody, messageContentInfo. destruct (headers m) as [h|].
  - destruct (empty_array_dec (h !! js "Content-Type")) as [Hct|Hct];
      [|destruct (empty_array_dec (h !! js "Content-Transfer-Encoding"))
          as [Hcte|Hcte]].
    + rewrite getContentInfo_throws by auto. split; [|done].
      split; [|done]. intros _. exists h. auto.
    + rewrite getContentInfo_throws by auto. split; [|done].
      split; [|done]. intros _. exists h. auto.
    + destruct (getContentInfo_returns h Hct Hcte) as [ci ->].
      rewrite JS_bind_Normal. destruct (Hbody ci) as (s & log & -> & Hs).
      split.
      * split; [done|]. intros (h' & [= <-] & [?|?]); done.
      * intros _. by eexists _, _.
  - rewrite JS_bind_mret. destruct (Hbody (ContentInfo (js "text/plain") (js "7bit") None))
      as (s & log & -> & Hs).
    split.
    + split; [done|]. by intros (h' & [=] & _).
    + intros _. by eexists _, _.
Qed.

Lemma displayBody_throws_iff_witness :
  let m := Message (Some {[ js "Content-Type" := Single (js "text/plain") ]})
             None None in
  ∃ shown log,
    displayBody m = (Normal shown, log)
    ∧ (shown = NoBody ↔ partsTEXT m = None ∧ raw m = None).
Proof.
  intros m. apply (proj2 (displayBody_throws_iff m)). by vm_compute.
Defined.

(** A message without a body and with an empty array for a header: the
    display throws all the same. *)
Example displayBody_throws_without_body :
  displayBody (Message (Some {[ js "Content-Transfer-Encoding" := Multiple [] ]})
                 None None)
  = (Throw TypeError, []).
Proof. by vm_compute. Qed.
